(** * Trust Doors: the durable client-side logging pipeline

    A shallow embedding of the three logging modules of the experiment,

    - [src/logging/build.js]  (row normalizer, [logTrialRow]),
    - [src/logging/idb.js]    (IndexedDB / localStorage queue),
    - [src/logging/index.js]  (enqueue, flush scheduling, drain loop, beacon),

    together with the properties of the pipeline that are stated about them.

    Conventions.  JavaScript numbers that the code only counts with (lengths,
    indices, retry counts, delays, byte sizes, IndexedDB keys) are integers
    far below 2^53 and are modelled by [Z]; numbers that are mere payload of a
    trial record stay abstract (type [number] of the engine interface).  An
    exception is an explicit [Threw] completion.  An [async] function is
    modelled twice: as one step that runs the call to its end, with its
    asynchronous inputs (storage and network outcomes, a withdrawal arriving
    while the function is suspended) given by an explicit environment
    argument; and turn by turn, as a call suspended at each [await] among the
    other calls in flight (section [EventLoop]). *)

From Stdlib Require Import List ZArith Lia Bool String Ascii DecimalString Sorted.
Import ListNotations.

Set Implicit Arguments.
Set Warnings "-register-all".

Local Open Scope string_scope.
Local Open Scope Z_scope.
Local Open Scope list_scope.

(* ===================================================================== *)
(** ** Completions: a value or a thrown exception                         *)
(* ===================================================================== *)

Inductive Completion (A : Type) : Type :=
| Normal (a : A)
| Threw.

Arguments Normal {A} a.
Arguments Threw {A}.

Definition bindC {A B} (c : Completion A) (k : A -> Completion B) : Completion B :=
  match c with
  | Normal a => k a
  | Threw => Threw
  end.

Notation "x <- c ;; k" := (bindC c (fun x => k))
  (at level 61, c at next level, right associativity).

(** [try { c } catch { h }] *)
Definition tryCatch {A} (c : Completion A) (h : A) : A :=
  match c with
  | Normal a => a
  | Threw => h
  end.

Definition threw {A} (c : Completion A) : bool :=
  match c with Threw => true | Normal _ => false end.

(** A completion that did not throw. *)
Definition ok {A} (c : Completion A) : Prop := threw c = false.

(* ===================================================================== *)
(** ** JavaScript values (the JSON-like data jsPsych records are made of) *)
(* ===================================================================== *)

Inductive value {number : Type} : Type :=
| VUndefined
| VNull
| VBool (b : bool)
| VNum (n : number)
| VStr (s : string)
| VArr (items : list value)
| VObj (fields : list (string * value)).  (* own properties, enumeration order *)

Arguments value : clear implicits.

(** The regular expressions of [parseUA], by the literal they stand for. *)
Inductive regex : Type :=
| RxEdg              (* /Edg\/(\d+)/i *)
| RxOPR              (* /OPR\/(\d+)/i *)
| RxChrome           (* /Chrome\/(\d+)/i *)
| RxFirefox          (* /Firefox\/(\d+)/i *)
| RxVersionSafari    (* /Version\/(\d+).+Safari/i *)
| RxSafari           (* /Safari\/(\d+)/i *)
| RxTablet           (* /\b(iPad|Tablet)\b/i *)
| RxAndroidNotMobile (* /Android(?!.*Mobile)/i *)
| RxMobile.          (* /\b(Android|iPhone|iPod|Mobile)\b/i *)

(** What the model takes from the JavaScript engine without looking inside:
    number arithmetic, the results of the conversions [String()] and
    [Number()], JSON, regular expression matching and
    [String.prototype.trim].  [JSON.parse] throws on malformed text; the
    conversions throw on some objects, which [conversion_throws] below tells,
    and [ToString] and [ToNumber] give their result where they return. *)
Class Engine : Type := {
  number : Type;
  num_truthy : number -> bool;                (* ToBoolean: false on 0 and NaN *)
  num_of_Z : Z -> number;
  num_strict_eq : number -> number -> bool;   (* === on numbers *)
  Math_round_ms : number -> number;           (* Math.round(x * 1000) *)
  ToString : value number -> string;          (* String(v), where it returns *)
  ToNumber : value number -> number;          (* Number(v), where it returns *)
  JSON_stringify : value number -> string;
  JSON_parse : string -> option (value number);   (* None: SyntaxError *)
  trim : string -> string;
  rx_test : regex -> string -> bool;          (* rx.test(S) *)
  rx_group1 : regex -> string -> option string;   (* S.match(rx), then m[1] *)
}.

Section Normalizer.

Context {E : Engine}.

Abbreviation val := (value number).
Abbreviation object := (list (string * value number)).

Definition is_nullish (v : val) : bool :=
  match v with VUndefined | VNull => true | _ => false end.

Definition is_undefined (v : val) : bool :=
  match v with VUndefined => true | _ => false end.

(** ToBoolean *)
Definition truthy (v : val) : bool :=
  match v with
  | VUndefined | VNull => false
  | VBool b => b
  | VNum n => num_truthy n
  | VStr s => negb (String.eqb s EmptyString)
  | VArr _ | VObj _ => true
  end.

Inductive jstype : Type := TUndefined | TObject | TBoolean | TNumber | TString.

Definition typeof (v : val) : jstype :=
  match v with
  | VUndefined => TUndefined
  | VNull => TObject
  | VBool _ => TBoolean
  | VNum _ => TNumber
  | VStr _ => TString
  | VArr _ | VObj _ => TObject
  end.

Definition is_number (v : val) : bool := match v with VNum _ => true | _ => false end.
Definition is_boolean (v : val) : bool := match v with VBool _ => true | _ => false end.
Definition is_string (v : val) : bool := match v with VStr _ => true | _ => false end.

(** [a || b] and [a ?? b] *)
Definition or_else (a b : val) : val := if truthy a then a else b.
Definition coalesce (a b : val) : val := if is_nullish a then b else a.

(** [v === 'lit'] and [v === n] for a numeric literal, [v === true] *)
Definition eq_str (v : val) (lit : string) : bool :=
  match v with VStr s => String.eqb s lit | _ => false end.
Definition eq_num (v : val) (lit : Z) : bool :=
  match v with VNum n => num_strict_eq n (num_of_Z lit) | _ => false end.
Definition eq_true (v : val) : bool :=
  match v with VBool true => true | _ => false end.

(** [new Set([...strings]).has(v)] *)
Definition set_has (members : list string) (v : val) : bool :=
  match v with
  | VStr s => existsb (String.eqb s) members
  | _ => false
  end.

Fixpoint lookup (k : string) (fields : object) : val :=
  match fields with
  | [] => VUndefined
  | (k', v) :: rest => if String.eqb k k' then v else lookup k rest
  end.

Definition has_key (k : string) (fields : object) : bool :=
  existsb (fun kv => String.eqb k (fst kv)) fields.

(** [o[k] = v] on an object: overwrite in place, or append a new property. *)
Fixpoint set_field (k : string) (v : val) (fields : object) : object :=
  match fields with
  | [] => [(k, v)]
  | (k', v') :: rest =>
      if String.eqb k k' then (k', v) :: rest else (k', v') :: set_field k v rest
  end.

(** [v.k] for the property names this module reads.  None of them is a
    property of an array or of a primitive wrapper, so on those the read gives
    [undefined]; on [null] and [undefined] it is a TypeError. *)
Definition get (v : val) (k : string) : Completion val :=
  match v with
  | VUndefined | VNull => Threw
  | VObj fields => Normal (lookup k fields)
  | _ => Normal VUndefined
  end.

Definition index_key (i : nat) : string := NilEmpty.string_of_uint (Nat.to_uint i).

Fixpoint indexed {A} (i : nat) (l : list A) : list (string * A) :=
  match l with
  | [] => []
  | x :: rest => (index_key i, x) :: indexed (S i) rest
  end.

(** [Object.entries(v)] *)
Definition Object_entries (v : val) : Completion object :=
  match v with
  | VUndefined | VNull => Threw
  | VObj fields => Normal fields
  | VArr items => Normal (indexed 0 items)
  | VStr s =>
      Normal (indexed 0 (map (fun c => VStr (String c EmptyString)) (list_ascii_of_string s)))
  | _ => Normal []
  end.

(** Method calls on a value that is not known to be a string: calling a
    missing method is a TypeError. *)
Definition call_trim (v : val) : Completion string :=
  match v with VStr s => Normal (trim s) | _ => Threw end.

Definition call_startsWith (v : val) (p : string) : Completion bool :=
  match v with VStr s => Normal (String.prefix p s) | _ => Threw end.

Fixpoint last_segment (acc : string) (s : string) : string :=
  match s with
  | EmptyString => acc
  | String c rest =>
      if Ascii.eqb c "/"%char then last_segment EmptyString rest
      else last_segment (acc ++ String c EmptyString)%string rest
  end.

(** [s.split('/').pop()] *)
Definition call_split_pop (v : val) : Completion val :=
  match v with VStr s => Normal (VStr (last_segment EmptyString s)) | _ => Threw end.

(** Whether converting [v] to a primitive throws a TypeError.  The values
    here are data: a property is never a function.  An object is converted
    through its [toString] and [valueOf] methods, in the order the hint
    gives.  With no own [toString] the inherited one answers
    ['[object Object]'].  With an own [toString], which is data and hence not
    callable, only [valueOf] is left, which is not callable either (an own
    one) or returns the object itself (the inherited one): no primitive
    comes out, a TypeError.  An array is joined, which converts the elements
    that are neither [null] nor [undefined]. *)
Fixpoint conversion_throws (v : val) : bool :=
  match v with
  | VObj fields => existsb (fun kv => String.eqb "toString" (fst kv)) fields
  | VArr items => existsb conversion_throws items
  | _ => false
  end.

(** [String(v)], and [s + v] for a string [s] *)
Definition call_String (v : val) : Completion string :=
  if conversion_throws v then Threw else Normal (ToString v).

(** [Number(v)] *)
Definition call_Number (v : val) : Completion number :=
  if conversion_throws v then Threw else Normal (ToNumber v).

(** Ambient browser state read by the normalizer. *)
Record Ambient : Type := {
  userAgent : string;          (* navigator.userAgent *)
  nowIso : string;             (* new Date().toISOString() *)
  CONFIG : val;                (* window.CONFIG *)
  fullscreenElement : bool;    (* !!document.fullscreenElement *)
  SESSION_ID : string;         (* module constant, drawn once per page load *)
}.

Definition APP_VERSION : string := "0.1.0".

(** [baseName]: file name without path, or null. *)
Definition baseName (s : val) : Completion val :=
  if truthy s && is_string s then call_split_pop s else Normal VNull.

Definition matchers : list (regex * string) :=
  [ (RxEdg, "Edge"); (RxOPR, "Opera"); (RxChrome, "Chrome");
    (RxFirefox, "Firefox"); (RxVersionSafari, "Safari"); (RxSafari, "Safari") ]%string.

Fixpoint first_match (ms : list (regex * string)) (S : string) : string * val :=
  match ms with
  | [] => ("Other"%string, VNull)
  | (rx, name) :: rest =>
      match rx_group1 rx S with
      | Some g => (name, VNum (ToNumber (VStr g)))
      | None => first_match rest S
      end
  end.

Record UASummary : Type := {
  device_type : string;
  browser_name : string;
  browser_major : val;
}.

Definition parseUA (uaStr : string) : UASummary :=
  let S := uaStr in   (* uaStr || '' *)
  let '(name, major) := first_match matchers S in
  let device :=
    if rx_test RxTablet S || rx_test RxAndroidNotMobile S then "tablet"
    else if rx_test RxMobile S then "mobile"
    else "desktop" in
  {| device_type := device; browser_name := name; browser_major := major |}%string.

Definition ALLOW_TYPES : list string :=
  [ "door_trial"; "trust_probe_mid"; "reputation_item"; "reputation_probe";
    "questionnaire40pre"; "questionnaire40post"; "questionnaire14mid1";
    "questionnaire14mid2"; "questionnaire"; "demographics"; "emergency_trial" ]%string.

Definition IGNORE_TRIAL_TYPES : list string :=
  [ "training_intro"; "overview_rescuer"; "robot_description";
    "fade_transition"; "transition" ]%string.

(** [pairsFromObject] *)
Definition pairsFromObject (obj : val) : Completion val :=
  if negb (truthy obj) || negb (match typeof obj with TObject => true | _ => false end)
  then Normal VNull
  else
    es <- Object_entries obj ;;
    Normal (VArr (map (fun kv => VArr [VStr (fst kv); snd kv]) es)).

Record QFields : Type := { qa_pairs_json : val; questionnaire_score : val }.

Definition no_qfields : QFields := {| qa_pairs_json := VNull; questionnaire_score := VNull |}.

Definition score_of (percent total : val) : val :=
  if is_number percent then percent
  else if is_number total then total
  else VNull.

(** [extractQuestionnaireFields] *)
Definition extractQuestionnaireFields (d : val) : Completion QFields :=
  et <- get d "event_type" ;;
  if eq_str et "demographics" then Normal no_qfields else
  t40 <- get d "trust40_raw" ;;
  if truthy t40 then
    ps <- pairsFromObject t40 ;;
    p <- get d "trust40_total_percent" ;;
    s <- get d "trust40_total_score" ;;
    Normal {| qa_pairs_json := VStr (JSON_stringify ps); questionnaire_score := score_of p s |}
  else
  t14 <- get d "trust14_raw" ;;
  if truthy t14 then
    ps <- pairsFromObject t14 ;;
    p <- get d "trust14_total_percent" ;;
    s <- get d "trust14_total_score" ;;
    Normal {| qa_pairs_json := VStr (JSON_stringify ps); questionnaire_score := score_of p s |}
  else
  r <- get d "responses" ;;
  looks_json <-
    (if is_string r
     then (t <- call_trim r ;; call_startsWith (VStr t) "{")
     else Normal false) ;;
  if (looks_json : bool) then
    Normal
      (tryCatch
         (match r with
          | VStr text =>
              match JSON_parse text with
              | Some parsed =>
                  ps <- pairsFromObject parsed ;;
                  Normal {| qa_pairs_json := VStr (JSON_stringify ps);
                            questionnaire_score := VNull |}
              | None => Threw
              end
          | _ => Threw
          end)
         no_qfields)
  else Normal no_qfields.

(** [mapEventType] *)
Definition mapEventType (d : val) : Completion val :=
  et <- get d "event_type" ;;
  if truthy et then Normal et else
  tt0 <- get d "trial_type" ;;
  let tt := or_else tt0 (VStr EmptyString) in
  tl <- get d "true_location" ;;
  if negb (is_undefined tl) || eq_str tt "door" then Normal (VStr "door_trial") else
  if eq_str tt "trust_probe" then Normal (VStr "trust_probe_mid") else
  if eq_str tt "reviews_set" then Normal (VStr "reputation_item") else
  if eq_str tt "reputation_probe" then Normal (VStr "reputation_probe") else
  if eq_str tt "trust40_pre" then Normal (VStr "questionnaire40pre") else
  if eq_str tt "trust40_post" then Normal (VStr "questionnaire40post") else
  if eq_str tt "trust14_mid1" then Normal (VStr "questionnaire14mid1") else
  if eq_str tt "trust14_mid2" then Normal (VStr "questionnaire14mid2") else
  r40 <- get d "trust40_raw" ;;
  r14 <- get d "trust14_raw" ;;
  rs <- get d "responses" ;;
  if truthy (or_else (or_else r40 r14) rs) then Normal (VStr "questionnaire") else
  Normal tt.

(** [unifiedResponse] *)
Definition unifiedResponse (d et : val) : Completion val :=
  if eq_str et "door_trial" then
    fo <- get d "followed" ;;
    let f0 := if is_boolean fo then fo else VNull in
    ch <- get d "choice" ;;
    su <- get d "suggestion" ;;
    f <-
      match f0 with
      | VNull =>
          if negb (is_undefined ch) && negb (is_undefined su)
          then (a <- call_String ch ;; b <- call_String su ;;
                Normal (VBool (String.eqb a b)))
          else Normal f0
      | _ => Normal f0
      end ;;
    co <- get d "correct" ;;
    let c := if is_boolean co then co else VNull in
    Normal (VStr (JSON_stringify (VObj [("followed", f); ("correct", c)])))
  else if eq_str et "trust_probe_mid" then
    sv <- get d "slider_value" ;;
    if negb (is_undefined sv) then (n <- call_Number sv ;; Normal (VNum n))
    else Normal VNull
  else if eq_str et "reputation_probe" then
    dl <- get d "reputation_probe_delta" ;;
    if negb (is_undefined dl) then Normal dl else
    rs <- get d "response" ;;
    if negb (is_undefined rs) then Normal rs else Normal VNull
  else if eq_str et "emergency_trial" then
    ep <- get d "emergency_preference" ;;
    if negb (is_nullish ep) then Normal ep else
    rs <- get d "response" ;;
    if eq_num rs 0 then Normal (VStr "self") else
    rs' <- get d "response" ;;
    if eq_num rs' 1 then Normal (VStr "robot") else Normal VNull
  else if eq_str et "questionnaire40pre" || eq_str et "questionnaire40post" then
    p <- get d "trust40_total_percent" ;;
    if negb (is_nullish p) then Normal p else
    s <- get d "trust40_total_score" ;;
    Normal (coalesce s VNull)
  else if eq_str et "questionnaire14mid1" || eq_str et "questionnaire14mid2" then
    p <- get d "trust14_total_percent" ;;
    if negb (is_nullish p) then Normal p else
    s <- get d "trust14_total_score" ;;
    Normal (coalesce s VNull)
  else if eq_str et "demographics" then
    rs <- get d "response" ;;
    Normal (if is_string rs then rs else VNull)
  else
    rs <- get d "response" ;;
    Normal (if negb (is_undefined rs) then rs else VNull).

(** [(typeof d.k !== 'undefined') ? d.k : null] *)
Definition defined_or_null (d : val) (k : string) : Completion val :=
  v <- get d k ;;
  Normal (if negb (is_undefined v) then v else VNull).

(** [row[k] = v] on a row, which is an object literal: for the key
    ['__proto__'] the assignment goes to the accessor that [Object.prototype]
    has under this name and gives the row no property of its own. *)
Definition assign (k : string) (v : val) (row : object) : object :=
  if String.eqb k "__proto__" then row else set_field k v row.

(** The pass-through loop: [for ([k, v] of Object.entries(d)) if (!RESERVED.has(k)) row[k] = v]. *)
Fixpoint passThrough (reserved : list string) (entries row : object) : object :=
  match entries with
  | [] => row
  | (k, v) :: rest =>
      passThrough reserved rest
        (if existsb (String.eqb k) reserved then row else assign k v row)
  end.

(** The callback of [allTrials.map] in [buildRowsForLogging]: the row built
    for one record ([None] for the [null] that [filter(Boolean)] removes), and
    the new value of [window.__UA_EMITTED__]. *)
Definition buildRow (amb : Ambient) (summary : UASummary) (setId : val)
    (UA_EMITTED : bool) (d : val) : Completion (option object * bool) :=
  let ua := userAgent amb in
  et <- mapEventType d ;;
  tt <- get d "trial_type" ;;
  if set_has IGNORE_TRIAL_TYPES (or_else tt (VStr EmptyString)) || negb (set_has ALLOW_TYPES et)
  then Normal (None, UA_EMITTED) else
  demo <- get d "is_demo" ;;
  if eq_true demo || eq_str et "training_demo" then Normal (None, UA_EMITTED) else
  tt2 <- get d "trial_type" ;;
  if eq_str tt2 "training_demo" then Normal (None, UA_EMITTED) else
  rts <- get d "reaction_time_s" ;;
  let rt_ms := match rts with VNum x => VNum (Math_round_ms x) | _ => VNull end in
  ch <- get d "choice" ;;
  su <- get d "suggestion" ;;
  followed <-
    (if negb (is_undefined ch) && negb (is_undefined su)
     then (a <- call_String ch ;; b <- call_String su ;;
           Normal (VBool (String.eqb a b)))
     else Normal VNull) ;;
  rk <- get d "risk_key" ;;
  risk_key <-
    (if negb (is_undefined rk) then Normal rk else
     ro <- get d "risk_overrides" ;;
     guard <- (if truthy ro then get ro "risk_key" else Normal ro) ;;
     if truthy guard
     then (ro' <- get d "risk_overrides" ;; get ro' "risk_key")
     else Normal VNull) ;;
  rv <- get d "risk_value" ;;
  risk_value <-
    (if negb (is_undefined rv) then Normal rv else
     ro <- get d "risk_overrides" ;;
     guard <- (if truthy ro
               then (x <- get ro "risk_value" ;; Normal (negb (is_undefined x)))
               else Normal false) ;;
     if (guard : bool)
     then (ro' <- get d "risk_overrides" ;; get ro' "risk_value")
     else Normal VNull) ;;
  pc <- get d "probe_context" ;;
  pid <- get d "probe_id" ;;
  let probe_id := or_else (or_else pc pid) VNull in
  let uaField := if UA_EMITTED then VNull else VStr ua in
  sid <- get d "session_id" ;;
  part <- get d "participant_id" ;;
  block_index <- defined_or_null d "block_index" ;;
  trial_index <- defined_or_null d "trial_index" ;;
  ts_seq <- defined_or_null d "_ts_seq" ;;
  seq <- get d "_ts_seq" ;;
  row_id <-
    (if negb (is_undefined seq)
     then (s <- call_String seq ;; Normal (VStr (SESSION_ID amb ++ ":" ++ s)))
     else Normal VNull) ;;
  seed <- get d "seed" ;;
  suggestion <- defined_or_null d "suggestion" ;;
  correct <- defined_or_null d "correct" ;;
  response <- unifiedResponse d et ;;
  review_condition <- defined_or_null d "review_condition" ;;
  review_expected <- defined_or_null d "review_expected" ;;
  review_ids <- defined_or_null d "review_ids" ;;
  review_tones <- defined_or_null d "review_tones" ;;
  review_avatars <- defined_or_null d "review_avatars" ;;
  vs <- get d "victim_src" ;; victim_skin <- baseName vs ;;
  bs <- get d "background_src" ;; background_src <- baseName bs ;;
  ds <- get d "door_src" ;; door_src <- baseName ds ;;
  tt3 <- get d "trial_type" ;;
  tl <- get d "true_location" ;;
  true_location <- defined_or_null d "true_location" ;;
  reaction_time_s <- defined_or_null d "reaction_time_s" ;;
  slider_value <- defined_or_null d "slider_value" ;;
  tt4 <- get d "trial_type" ;;
  eci <- (if eq_str tt4 "survey_button" then get d "choice" else Normal VNull) ;;
  let row : object :=
    [ ("session_id", if negb (is_undefined sid) then sid else VStr (SESSION_ID amb));
      ("participant_id", or_else part (VStr EmptyString));
      ("set_id", setId);
      ("block_index", block_index);
      ("trial_index", trial_index);
      ("event_type", et);
      ("ts_client", VStr (nowIso amb));
      ("ts_seq", ts_seq);
      ("row_id", row_id);
      ("is_fullscreen", VBool (fullscreenElement amb));
      ("device_type", VStr (device_type summary));
      ("browser_name", VStr (browser_name summary));
      ("browser_major", browser_major summary);
      ("user_agent", uaField);
      ("seed", or_else seed (VStr EmptyString));
      ("risk_key", risk_key);
      ("risk_value", risk_value);
      ("suggestion", suggestion);
      ("followed", followed);
      ("correct", correct);
      ("rt_ms", rt_ms);
      ("probe_id", probe_id);
      ("response", response);
      ("review_condition", review_condition);
      ("review_expected", review_expected);
      ("review_ids", review_ids);
      ("review_tones", review_tones);
      ("review_avatars", review_avatars);
      ("victim_skin", victim_skin);
      ("background_src", background_src);
      ("door_src", door_src);
      ("client_version", VStr APP_VERSION);
      ("trial_type", or_else tt3 (if negb (is_undefined tl) then VStr "door" else VStr EmptyString));
      ("true_location", true_location);
      ("reaction_time_s", reaction_time_s);
      ("slider_value", slider_value);
      ("emergency_choice_index", eci);
      ("ts", VStr (nowIso amb)) ]%string in
  (* Record that the UA was emitted once; later rows omit it. *)
  let UA_EMITTED' := if negb UA_EMITTED && truthy uaField then true else UA_EMITTED in
  let ets := or_else (lookup "event_type" row) (VStr EmptyString) in
  isQ <-
    (if eq_str ets "questionnaire" then Normal true else
     sw <- call_startsWith ets "questionnaire" ;;
     Normal (sw || eq_str ets "demographics")) ;;
  match (if (isQ : bool) then extractQuestionnaireFields d else Normal no_qfields) with
  | Threw => Threw
  | Normal qf =>
      let row1 := set_field "qa_pairs_json" (qa_pairs_json qf) row in
      let row2 := set_field "questionnaire_score" (questionnaire_score qf) row1 in
      let RESERVED := map fst row2 in
      match Object_entries d with
      | Threw => Threw
      | Normal es => Normal (Some (passThrough RESERVED es row2), UA_EMITTED')
      end
  end.

(** [allTrials.map(callback)]: records are visited in order; an exception
    ends the call, with the flag as the records before it left it (the
    callback throws, if it does, before it writes the flag). *)
Fixpoint mapTrials (amb : Ambient) (summary : UASummary) (setId : val)
    (UA_EMITTED : bool) (allTrials : list val)
  : Completion (list (option object)) * bool :=
  match allTrials with
  | [] => (Normal [], UA_EMITTED)
  | d :: rest =>
      match buildRow amb summary setId UA_EMITTED d with
      | Threw => (Threw, UA_EMITTED)
      | Normal (r, flag) =>
          let '(rs, flag') := mapTrials amb summary setId flag rest in
          (rows <- rs ;; Normal (r :: rows), flag')
      end
  end.

(** [.filter(Boolean)]: rows are objects, hence truthy; the nulls go. *)
Fixpoint filterBoolean {A} (l : list (option A)) : list A :=
  match l with
  | [] => []
  | Some r :: rest => r :: filterBoolean rest
  | None :: rest => filterBoolean rest
  end.

(** [buildRowsForLogging(allTrials)].  [flag] is [window.__UA_EMITTED__]:
    [None] as long as it does not hold a boolean. *)
Definition buildRowsForLogging (amb : Ambient) (flag : option bool)
    (allTrials : list val) : Completion (list object) * option bool :=
  let C := CONFIG amb in
  match (guard <- (if truthy C then get C "set_id" else Normal C) ;;
         if truthy guard then get C "set_id" else Normal VNull) with
  | Threw => (Threw, flag)
  | Normal setId =>
      let UA_EMITTED := match flag with Some b => b | None => false end in
      let summary := parseUA (userAgent amb) in
      let '(rs, flag') := mapTrials amb summary setId UA_EMITTED allTrials in
      (rows <- rs ;; Normal (filterBoolean rows), Some flag')
  end.

(** Whether a record resolves to an event type of the allow-list. *)
Definition classifiable (d : val) : bool :=
  match mapEventType d with
  | Normal et => set_has ALLOW_TYPES et
  | Threw => false
  end.

(** The rows a call hands to its caller. *)
Definition emitted (c : Completion (list object)) : list object :=
  match c with Normal rows => rows | Threw => [] end.

(** The calls of one session, in order: all rows emitted, and the flag at the
    end.  The flag lives in [window], so each call starts from the value the
    previous one left. *)
Fixpoint session (amb : Ambient) (flag : option bool) (calls : list (list val))
  : list object * option bool :=
  match calls with
  | [] => ([], flag)
  | allTrials :: rest =>
      let '(c, flag1) := buildRowsForLogging amb flag allTrials in
      let '(rows, flag2) := session amb flag1 rest in
      (emitted c ++ rows, flag2)
  end.

(** The [user_agent] column of a run of rows that starts with the flag at
    [b], and the flag after it: with the flag up every row has null; with the
    flag down the first row has the raw string, the others null, and the flag
    is up afterwards exactly when there was a row. *)
Definition ua_null (r : object) : Prop := lookup "user_agent" r = VNull.

Definition ua_once (ua : string) (b : bool) (rows : list object) (b' : bool) : Prop :=
  if b then Forall ua_null rows /\ b' = true
  else
    match rows with
    | [] => b' = false
    | first :: later =>
        lookup "user_agent" first = VStr ua /\ Forall ua_null later /\ b' = true
    end.

Definition flag_up (flag : option bool) : bool :=
  match flag with Some b => b | None => false end.

End Normalizer.

(* ===================================================================== *)
(** ** The queue ([src/logging/idb.js])                                   *)
(* ===================================================================== *)

(** Outcome of one storage operation, as the environment decides it: for
    IndexedDB whether the transaction (or cursor request) completes or raises
    its [error] event, for localStorage whether the access succeeds or throws
    (quota exceeded, access blocked).  These are the outcomes on which the
    promise of the operation settles; a transaction that is aborted without
    an [error] event calls neither handler, and the operation stays pending. *)
Inductive IoOutcome : Type := IoOk | IoFail.

(** [arr.slice(start, end)] with JavaScript's treatment of negative and
    out-of-range bounds. *)
Definition js_slice {A} (arr : list A) (start end_ : Z) : list A :=
  let len := Z.of_nat (List.length arr) in
  let from := if start <? 0 then Z.max (len + start) 0 else Z.min start len in
  let to := if end_ <? 0 then Z.max (len + end_) 0 else Z.min end_ len in
  firstn (Z.to_nat (to - from)) (skipn (Z.to_nat from) arr).

Section Queue.

Context {Row : Type}.

(** Identifier of a queue entry: the IndexedDB primary key, or the synthetic
    ['ls_' + i] of the fallback. *)
Inductive EntryId : Type :=
| IdbKey (k : Z)
| LsId (i : Z).

Record QueueEntry : Type := {
  id : EntryId;
  row : Row;
  _ls : bool;
  _rawIndex : option Z;
}.

(** A stored record [{ createdAt, row }]. *)
Record IdbRecord : Type := {
  createdAt : Z;
  rec_row : Row;
}.

(** Both backends.  [idb_available] is what [idbOpen()] resolves to (a
    database, or null) on this page; [idb_events] is the object store
    ['events'] in cursor order, that is by ascending auto-increment key;
    [log_queue_ls] is the array kept as JSON under the key ['log_queue_ls']. *)
Record Store : Type := {
  idb_available : bool;
  idb_events : list (Z * IdbRecord);
  idb_next_key : Z;
  log_queue_ls : list Row;
}.

Definition with_events (evs : list (Z * IdbRecord)) (next : Z) (s : Store) : Store :=
  {| idb_available := idb_available s; idb_events := evs;
     idb_next_key := next; log_queue_ls := log_queue_ls s |}.

Definition with_ls (q : list Row) (s : Store) : Store :=
  {| idb_available := idb_available s; idb_events := idb_events s;
     idb_next_key := idb_next_key s; log_queue_ls := q |}.

(** [rows.forEach(row => store.add({ createdAt: Date.now(), row }))] with an
    auto-increment key generator. *)
Fixpoint addAll (now : Z) (rows : list Row) (evs : list (Z * IdbRecord)) (next : Z)
  : list (Z * IdbRecord) * Z :=
  match rows with
  | [] => (evs, next)
  | r :: rest =>
      addAll now rest (evs ++ [(next, {| createdAt := now; rec_row := r |})]) (next + 1)
  end.

(** [idbPutAll(rows)].  In the fallback nothing guards [localStorage.setItem];
    in IndexedDB a failed transaction is rolled back and the promise is
    resolved all the same. *)
Definition idbPutAll (rows : list Row) (now : Z) (io : IoOutcome) (s : Store)
  : Completion Store :=
  if negb (idb_available s) then
    match io with
    | IoFail => Threw
    | IoOk => Normal (with_ls (log_queue_ls s ++ rows) s)
    end
  else
    match io with
    | IoOk =>
        let '(evs, next) := addAll now rows (idb_events s) (idb_next_key s) in
        Normal (with_events evs next s)
    | IoFail => Normal s
    end.

Fixpoint ls_entries (i : Z) (rows : list Row) : list QueueEntry :=
  match rows with
  | [] => []
  | r :: rest =>
      {| id := LsId i; row := r; _ls := true; _rawIndex := Some i |}
        :: ls_entries (i + 1) rest
  end.

(** The cursor loop of [idbReadBatch]: push while [out.length < limit]. *)
Fixpoint cursor (limit : Z) (evs : list (Z * IdbRecord)) (out : list QueueEntry)
  : list QueueEntry :=
  match evs with
  | [] => out
  | (k, rcd) :: rest =>
      if Z.of_nat (List.length out) <? limit
      then cursor limit rest
             (out ++ [{| id := IdbKey k; row := rec_row rcd; _ls := false; _rawIndex := None |}])
      else out
  end.

(** [idbReadBatch(limit)] *)
Definition idbReadBatch (limit : Z) (io : IoOutcome) (s : Store)
  : Completion (list QueueEntry) :=
  if negb (idb_available s) then
    match io with
    | IoFail => Threw
    | IoOk => Normal (ls_entries 0 (js_slice (log_queue_ls s) 0 limit))
    end
  else
    match io with
    | IoOk => Normal (cursor limit (idb_events s) [])
    | IoFail => Normal []
    end.

(** [store.delete(key)] *)
Definition deleteKey (key : EntryId) (evs : list (Z * IdbRecord)) : list (Z * IdbRecord) :=
  match key with
  | IdbKey k => filter (fun e => negb (fst e =? k)) evs
  | LsId _ => evs
  end.

(** [idbDeleteIds(items)]: by primary key in IndexedDB, the first
    [items.length] elements in the fallback. *)
Definition idbDeleteIds (items : list QueueEntry) (io : IoOutcome) (s : Store)
  : Completion Store :=
  if negb (idb_available s) then
    match io with
    | IoFail => Threw
    | IoOk => Normal (with_ls (skipn (List.length items) (log_queue_ls s)) s)
    end
  else
    match io with
    | IoOk =>
        Normal (with_events
                  (fold_left (fun evs it => deleteKey (id it) evs) items (idb_events s))
                  (idb_next_key s) s)
    | IoFail => Normal s
    end.

(** The persistent part of [clearLocalQueue]: [removeItem] in the fallback,
    where nothing catches an exception; [store.clear()] otherwise, where both
    request handlers resolve. *)
Definition clearStore (io : IoOutcome) (s : Store) : Completion Store :=
  if negb (idb_available s) then
    match io with
    | IoOk => Normal (with_ls [] s)
    | IoFail => Threw
    end
  else
    match io with
    | IoOk => Normal (with_events [] (idb_next_key s) s)
    | IoFail => Normal s
    end.

(** The rows waiting in the active backend, oldest first. *)
Definition queue_rows (s : Store) : list Row :=
  if idb_available s then map (fun e => rec_row (snd e)) (idb_events s)
  else log_queue_ls s.

Definition empty_store (idb : bool) : Store :=
  {| idb_available := idb; idb_events := []; idb_next_key := 1; log_queue_ls := [] |}.

(** Keys of the object store ascend in cursor order and lie below the key
    generator. *)
Definition store_wf (s : Store) : Prop :=
  StronglySorted Z.lt (map fst (idb_events s))
  /\ Forall (fun k => k < idb_next_key s) (map fst (idb_events s)).

Definition entry_of (e : Z * IdbRecord) : QueueEntry :=
  {| id := IdbKey (fst e); row := rec_row (snd e); _ls := false; _rawIndex := None |}.

End Queue.

Arguments QueueEntry : clear implicits.
Arguments IdbRecord : clear implicits.
Arguments Store : clear implicits.

(* ===================================================================== *)
(** ** Enqueue, scheduling, drain and beacon ([src/logging/index.js])     *)
(* ===================================================================== *)

Inductive ResponseType : Type :=
| RBasic | RCors | RDefault | RError | ROpaque | ROpaqueRedirect.

(** What the code looks at in a [Response]. *)
Record Response : Type := {
  res_ok : bool;          (* res.ok: status in 200..299 *)
  res_status : Z;
  res_type : ResponseType;
}.

(** How [await fetch(...)] ends: with a response, or by throwing. *)
Inductive FetchOutcome : Type :=
| Responded (res : Response)
| NetworkError.

(** How far an [async] call got: settled (resolved or rejected), or still
    suspended at an [await] when the environment given to the model ends.  The
    carried value is the page state at that point. *)
Inductive Promise (A : Type) : Type :=
| Resolved (a : A)
| Rejected (a : A)
| Pending (a : A).

Arguments Resolved {A} a.
Arguments Rejected {A} a.
Arguments Pending {A} a.

Definition LOG_BATCH_SIZE : Z := 25.

Definition maxBytes : Z := 60000.

(** [Math.min(30000, 500 * Math.pow(2, LOG_RETRY_ATTEMPTS))].  The double
    arithmetic of the source is exact here: [500 * 2^n] is representable as
    long as it is finite, and the minimum with an overflowed [Infinity] is
    30000 as well. *)
Definition backoffMs (retryAttempts : Z) : Z := Z.min 30000 (500 * 2 ^ retryAttempts).

Definition okLike (res : Response) : bool :=
  res_ok res
  || (res_status res =? 302)
  || match res_type res with ROpaqueRedirect | ROpaque => true | _ => false end.

Section Delivery.

Context {Row : Type}.

(** Byte length of [encodeURIComponent(JSON.stringify(row))]. *)
Variable encodedLength : Row -> Z.

(** Requests handed to the network, oldest first. *)
Inductive NetCall : Type :=
| Post (rows : list Row) (outcome : FetchOutcome)   (* fetch(LOG_ENDPOINT, POST) *)
| Beacon (rows : list Row).                         (* navigator.sendBeacon *)

(** The argument of [logEnqueue]: one row, or an array of rows. *)
Inductive RowsArg : Type :=
| OneRow (r : Row)
| RowArray (rs : list Row).

Record State : Type := {
  DISCARD_DATA : bool;                   (* window.__DISCARD_DATA__ *)
  LOG_BUFFER : option (list Row);        (* window.__LOG_BUFFER__, None: undefined *)
  store : Store Row;
  LOG_RETRY_ATTEMPTS : Z;
  LOG_FLUSHING : bool;
  LOG_BACKOFF_TIMER : option positive;   (* timer handle, None: null *)
  timers : list (positive * Z);          (* pending flush timeouts: handle, delay *)
  next_handle : positive;                (* next handle setTimeout gives out *)
  network : list NetCall;
}.

Definition set_discard (b : bool) (st : State) : State :=
  {| DISCARD_DATA := b; LOG_BUFFER := LOG_BUFFER st; store := store st;
     LOG_RETRY_ATTEMPTS := LOG_RETRY_ATTEMPTS st; LOG_FLUSHING := LOG_FLUSHING st;
     LOG_BACKOFF_TIMER := LOG_BACKOFF_TIMER st; timers := timers st;
     next_handle := next_handle st; network := network st |}.

Definition set_buffer (b : option (list Row)) (st : State) : State :=
  {| DISCARD_DATA := DISCARD_DATA st; LOG_BUFFER := b; store := store st;
     LOG_RETRY_ATTEMPTS := LOG_RETRY_ATTEMPTS st; LOG_FLUSHING := LOG_FLUSHING st;
     LOG_BACKOFF_TIMER := LOG_BACKOFF_TIMER st; timers := timers st;
     next_handle := next_handle st; network := network st |}.

Definition set_store (s : Store Row) (st : State) : State :=
  {| DISCARD_DATA := DISCARD_DATA st; LOG_BUFFER := LOG_BUFFER st; store := s;
     LOG_RETRY_ATTEMPTS := LOG_RETRY_ATTEMPTS st; LOG_FLUSHING := LOG_FLUSHING st;
     LOG_BACKOFF_TIMER := LOG_BACKOFF_TIMER st; timers := timers st;
     next_handle := next_handle st; network := network st |}.

Definition set_retry (n : Z) (st : State) : State :=
  {| DISCARD_DATA := DISCARD_DATA st; LOG_BUFFER := LOG_BUFFER st; store := store st;
     LOG_RETRY_ATTEMPTS := n; LOG_FLUSHING := LOG_FLUSHING st;
     LOG_BACKOFF_TIMER := LOG_BACKOFF_TIMER st; timers := timers st;
     next_handle := next_handle st; network := network st |}.

Definition set_flushing (b : bool) (st : State) : State :=
  {| DISCARD_DATA := DISCARD_DATA st; LOG_BUFFER := LOG_BUFFER st; store := store st;
     LOG_RETRY_ATTEMPTS := LOG_RETRY_ATTEMPTS st; LOG_FLUSHING := b;
     LOG_BACKOFF_TIMER := LOG_BACKOFF_TIMER st; timers := timers st;
     next_handle := next_handle st; network := network st |}.

Definition set_timer (t : option positive) (tbl : list (positive * Z)) (next : positive)
    (st : State) : State :=
  {| DISCARD_DATA := DISCARD_DATA st; LOG_BUFFER := LOG_BUFFER st; store := store st;
     LOG_RETRY_ATTEMPTS := LOG_RETRY_ATTEMPTS st; LOG_FLUSHING := LOG_FLUSHING st;
     LOG_BACKOFF_TIMER := t; timers := tbl; next_handle := next; network := network st |}.

Definition send (c : NetCall) (st : State) : State :=
  {| DISCARD_DATA := DISCARD_DATA st; LOG_BUFFER := LOG_BUFFER st; store := store st;
     LOG_RETRY_ATTEMPTS := LOG_RETRY_ATTEMPTS st; LOG_FLUSHING := LOG_FLUSHING st;
     LOG_BACKOFF_TIMER := LOG_BACKOFF_TIMER st; timers := timers st;
     next_handle := next_handle st; network := network st ++ [c] |}.

(** A page that has just loaded the module. *)
Definition fresh_page (idb : bool) : State :=
  {| DISCARD_DATA := false; LOG_BUFFER := None; store := empty_store idb;
     LOG_RETRY_ATTEMPTS := 0; LOG_FLUSHING := false; LOG_BACKOFF_TIMER := None;
     timers := []; next_handle := 1%positive; network := [] |}.

(** [window.__LOG_BUFFER__ ||= []] *)
Definition buffer_or_empty (st : State) : list Row :=
  match LOG_BUFFER st with Some b => b | None => [] end.

(** [scheduleFlush(delayMs)].  [setTimeout] registers the callback under a
    fresh handle (a positive integer, hence truthy). *)
Definition scheduleFlush (delayMs : Z) (st : State) : State :=
  if DISCARD_DATA st then st
  else
    match LOG_BACKOFF_TIMER st with
    | Some _ => st
    | None =>
        let h := next_handle st in
        set_timer (Some h) (timers st ++ [(h, delayMs)]) (Pos.succ h) st
    end.

(** [logEnqueue(rows)] *)
Definition logEnqueue (rows : RowsArg) (now : Z) (io : IoOutcome) (st : State)
  : Promise State :=
  let rows := match rows with RowArray rs => rs | OneRow r => [r] end in
  let st1 := set_buffer (Some (buffer_or_empty st ++ rows)) st in
  match idbPutAll rows now io (store st1) with
  | Threw => Rejected st1
  | Normal s' => Resolved (scheduleFlush 250 (set_store s' st1))
  end.

(** Size of the blob of [flushSyncBeacon] for a slice of the buffer: the
    UTF-8 length of ['payload=' + encodeURIComponent(JSON.stringify({rows}))].
    The text 'payload=' takes 8 bytes.  In the JSON text the rows are preceded
    by a brace, the key rows in quotes, a colon and a bracket (9 characters,
    19 bytes once the five that are not letters are percent-encoded),
    separated by commas (3 bytes each) and followed by a bracket and a brace
    (6 bytes). *)
Definition blobSize (rows : list Row) : Z :=
  8 + 19
  + fold_right (fun r acc => encodedLength r + acc) 0 rows
  + 3 * Z.max 0 (Z.of_nat (List.length rows) - 1)
  + 6.

(** The [while (end > sliceStart)] loop of [flushSyncBeacon]; [blob] is
    represented by the rows it serializes.  [None]: the loop is still running
    after [fuel] iterations. *)
Fixpoint shrinkLoop (fuel : nat) (buf : list Row) (sliceStart end_ : Z)
    (blob : option (list Row)) : option (option (list Row) * Z) :=
  match fuel with
  | O => None
  | S fuel' =>
      if end_ >? sliceStart then
        let rows := js_slice buf sliceStart end_ in
        if blobSize rows <=? maxBytes then Some (Some rows, end_)
        else shrinkLoop fuel' buf sliceStart
               (Z.max (sliceStart + 1) ((sliceStart + end_) / 2)) (Some rows)
      else Some (blob, end_)
  end.

(** [flushSyncBeacon()]; [sendBeacon] tells whether [navigator.sendBeacon]
    exists.  [None]: the call has not returned after [fuel] loop iterations.
    Nothing in the body throws on JSON-like rows, so the enclosing
    [try { } catch { }] has nothing to swallow. *)
Definition flushSyncBeacon (fuel : nat) (sendBeacon : bool) (st : State) : option State :=
  match LOG_BUFFER st with
  | None | Some [] => Some st
  | Some buf =>
      let len := Z.of_nat (List.length buf) in
      let sliceStart := Z.max 0 (len - LOG_BATCH_SIZE) in
      match shrinkLoop fuel buf sliceStart len None with
      | None => None
      | Some (Some rows, _) => Some (if sendBeacon then send (Beacon rows) st else st)
      | Some (None, _) => Some st
      end
  end.

(** [clearLocalQueue()] *)
Definition clearLocalQueue (io : IoOutcome) (st : State) : Promise State :=
  let st1 := set_buffer (Some []) st in
  match clearStore io (store st1) with
  | Normal s' => Resolved (set_store s' st1)
  | Threw => Rejected st1
  end.

(** [sendBatch(rows)]: the result, and the page state after the request. *)
Definition sendBatch (rows : list Row) (outcome : FetchOutcome) (st : State)
  : bool * State :=
  if DISCARD_DATA st then (true, st)
  else
    match outcome with
    | Responded res => (okLike res, send (Post rows outcome) st)
    | NetworkError => (false, send (Post rows outcome) st)
    end.

(** What the environment contributes to one iteration of the drain loop: the
    outcome of the three awaited operations, and whether the participant
    withdraws (the discard button sets [window.__DISCARD_DATA__]) while the
    loop is suspended in the read, respectively in the send. *)
Record IterEnv : Type := {
  read_io : IoOutcome;
  withdrawn_in_read : bool;
  fetch_outcome : FetchOutcome;
  withdrawn_in_send : bool;
  delete_io : IoOutcome;
}.

Inductive LoopControl : Type := LContinue | LBreak | LThrow.

Definition withdraw_if (b : bool) (st : State) : State :=
  if b then set_discard true st else st.

(** One iteration of [for (;;)] in [flushQueue]. *)
Definition drainStep (batchSize : Z) (e : IterEnv) (st : State) : State * LoopControl :=
  let st1 := withdraw_if (withdrawn_in_read e) st in
  match idbReadBatch batchSize (read_io e) (store st1) with
  | Threw => (st1, LThrow)
  | Normal [] => (set_retry 0 (set_buffer (Some []) st1), LBreak)
  | Normal batch =>
      let rows := map (@row Row) batch in
      let '(ok, st2) := sendBatch rows (fetch_outcome e) st1 in
      let st3 := withdraw_if (withdrawn_in_send e) st2 in
      if ok then
        match idbDeleteIds batch (delete_io e) (store st3) with
        | Threw => (st3, LThrow)
        | Normal s' =>
            let st4 := set_store s' st3 in
            let st5 := set_buffer (Some (skipn (List.length rows) (buffer_or_empty st4))) st4 in
            (set_retry 0 st5, LContinue)
        end
      else
        let st4 := set_retry (LOG_RETRY_ATTEMPTS st3 + 1) st3 in
        (scheduleFlush (backoffMs (LOG_RETRY_ATTEMPTS st4)) st4, LBreak)
  end.

(** The loop; the environment list gives one element per iteration. *)
Fixpoint drain (batchSize : Z) (env : list IterEnv) (st : State) : Promise State :=
  match env with
  | [] => Pending st
  | e :: rest =>
      match drainStep batchSize e st with
      | (st', LContinue) => drain batchSize rest st'
      | (st', LBreak) => Resolved st'
      | (st', LThrow) => Rejected st'
      end
  end.

(** [try { ... } finally { LOG_FLUSHING = false }] *)
Definition finally_unflag (p : Promise State) : Promise State :=
  match p with
  | Resolved st => Resolved (set_flushing false st)
  | Rejected st => Rejected (set_flushing false st)
  | Pending st => Pending st
  end.

(** [flushQueue()], for an arbitrary batch size. *)
Definition flushQueueWith (batchSize : Z) (env : list IterEnv) (st : State)
  : Promise State :=
  if LOG_FLUSHING st || DISCARD_DATA st then Resolved st
  else finally_unflag (drain batchSize env (set_flushing true st)).

Definition flushQueue : list IterEnv -> State -> Promise State :=
  flushQueueWith LOG_BATCH_SIZE.

(** The timeout callback of [scheduleFlush]: [LOG_BACKOFF_TIMER = null;
    flushQueue()], run when the timer with handle [h] fires. *)
Definition timerFires (batchSize : Z) (h : positive) (env : list IterEnv) (st : State)
  : Promise State :=
  let tbl := filter (fun t => negb (Pos.eqb (fst t) h)) (timers st) in
  flushQueueWith batchSize env (set_timer None tbl (next_handle st) st).

(** The discard button of the exit dialog, as far as logging goes:
    [window.__DISCARD_DATA__ = true; try { await clearLocalQueue(); } catch(_) {}]. *)
Definition withdraw (io : IoOutcome) (st : State) : State :=
  match clearLocalQueue io (set_discard true st) with
  | Resolved st' | Rejected st' | Pending st' => st'
  end.

(** What can happen to the page, one atomic step at a time. *)
Inductive Event : Type :=
| EScheduleFlush (delayMs : Z)
| ELogEnqueue (rows : RowsArg) (now : Z) (io : IoOutcome)
| ETimerFires (h : positive) (env : list IterEnv)
| EFlushSyncBeacon (fuel : nat) (sendBeacon : bool)
| EWithdraw (io : IoOutcome).


Definition settled (p : Promise State) : option State :=
  match p with
  | Resolved st | Rejected st => Some st
  | Pending _ => None
  end.

Definition In_timers (h : positive) (st : State) : bool :=
  existsb (fun t => Pos.eqb (fst t) h) (timers st).

(** The state after an event; [None] when the event cannot happen in this
    state (no such timer) or does not run to completion in the environment
    given. *)
Definition step (ev : Event) (st : State) : option State :=
  match ev with
  | EScheduleFlush d => Some (scheduleFlush d st)
  | ELogEnqueue rows now io => settled (logEnqueue rows now io st)
  | ETimerFires h env =>
      if In_timers h st then settled (timerFires LOG_BATCH_SIZE h env st) else None
  | EFlushSyncBeacon fuel sb => flushSyncBeacon fuel sb st
  | EWithdraw io => Some (withdraw io st)
  end.

Fixpoint run (evs : list Event) (st : State) : option State :=
  match evs with
  | [] => Some st
  | ev :: rest =>
      match step ev st with
      | Some st' => run rest st'
      | None => None
      end
  end.

(** States the page can be in. *)
Definition reachable (st : State) : Prop :=
  exists idb evs, run evs (fresh_page idb) = Some st.

(** *** Vocabulary for the statements about the drain loop *)

(** A send that the code counts as acknowledged. *)
Definition acked (o : FetchOutcome) : bool :=
  match o with
  | Responded res => okLike res
  | NetworkError => false
  end.

(** An iteration in which storage works and nobody withdraws. *)
Definition calm (e : IterEnv) : Prop :=
  read_io e = IoOk /\ delete_io e = IoOk
  /\ withdrawn_in_read e = false /\ withdrawn_in_send e = false.

Definition posted_rows (c : NetCall) : list (list Row) :=
  match c with
  | Post rows _ => [rows]
  | Beacon _ => []
  end.

(** The rows of the acknowledged POSTs of a trace, in order. *)
Definition acked_rows (calls : list NetCall) : list Row :=
  flat_map (fun c => match c with
                     | Post rows o => if acked o then rows else []
                     | Beacon _ => []
                     end) calls.

(** The queue cut into consecutive batches of [n] rows. *)
Fixpoint chunks {A} (fuel : nat) (n : nat) (l : list A) : list (list A) :=
  match fuel with
  | O => []
  | S fuel' =>
      match l with
      | [] => []
      | _ => firstn n l :: chunks fuel' n (skipn n l)
      end
  end.

Definition batchesOf {A} (n : Z) (l : list A) : list (list A) :=
  chunks (List.length l) (Z.to_nat n) l.

Definition promised (p : Promise State) : State :=
  match p with Resolved st | Rejected st | Pending st => st end.

(** [n] timer-driven drains in a row, each in its own environment; the timer
    that fires is the one [LOG_BACKOFF_TIMER] holds. *)
Fixpoint fireAll (batchSize : Z) (envs : list (list IterEnv)) (st : State) : option State :=
  match envs with
  | [] => Some st
  | env :: rest =>
      match LOG_BACKOFF_TIMER st with
      | None => None
      | Some h =>
          match settled (timerFires batchSize h env st) with
          | Some st' => fireAll batchSize rest st'
          | None => None
          end
      end
  end.

(** The timer variable and the browser's timer table agree, and hold at most
    one timer. *)
Definition timer_inv (st : State) : Prop :=
  match LOG_BACKOFF_TIMER st with
  | None => timers st = []
  | Some h => exists d, timers st = [(h, d)]
  end.

(** A drain whose first send fails. *)
Definition fails_at_once (env : list IterEnv) : Prop :=
  match env with
  | e :: _ => calm e /\ acked (fetch_outcome e) = false
  | [] => False
  end.

End Delivery.

Arguments NetCall : clear implicits.
Arguments RowsArg : clear implicits.
Arguments State : clear implicits.
Arguments Event : clear implicits.

(* ===================================================================== *)
(** ** [logTrialRow] ([src/logging/build.js])                             *)
(* ===================================================================== *)

Section LogTrialRow.

Context {E : Engine}.

Abbreviation object := (list (string * value number)).

(** Everything on the page that logging reads or writes. *)
Record Page : Type := {
  UA_EMITTED : option bool;       (* window.__UA_EMITTED__, None: not a boolean *)
  LOG_SEQ : option Z;             (* window.LOG_SEQ, None: not a number *)
  delivery : State object;
}.

(** [logTrialRow(d)] for a record [d].  The promise of [logEnqueue] is not
    awaited: a rejection is nobody's to handle, and the [catch] only sees what
    is thrown while the row is built. *)
Definition logTrialRow (amb : Ambient) (d : object) (now : Z) (io : IoOutcome)
    (pg : Page) : Page :=
  if DISCARD_DATA (delivery pg) then pg
  else
    let seq := match LOG_SEQ pg with Some n => n | None => 1 end in
    let d' := set_field "_ts_seq" (VNum (num_of_Z seq)) d in
    let '(rows, flag) := buildRowsForLogging amb (UA_EMITTED pg) [VObj d'] in
    match rows with
    | Threw =>
        {| UA_EMITTED := flag; LOG_SEQ := Some (seq + 1); delivery := delivery pg |}
    | Normal rows =>
        {| UA_EMITTED := flag; LOG_SEQ := Some (seq + 1);
           delivery := promised (logEnqueue (RowArray rows) now io (delivery pg)) |}
    end.

End LogTrialRow.

(* ===================================================================== *)
(** ** Sample data for the worked examples                                *)
(* ===================================================================== *)

(** A row known by a label and by the byte length of its encoded JSON. *)
Record SampleRow : Type := {
  label : string;
  bytes : Z;
}.

Definition sample (l : string) : SampleRow := {| label := l; bytes := 120 |}.

(** A toy engine: numbers are integers, conversions are as simple as can be. *)
#[local] Instance toy_engine : Engine := {|
  number := Z;
  num_truthy := fun n => negb (n =? 0);
  num_of_Z := fun z => z;
  num_strict_eq := Z.eqb;
  Math_round_ms := fun n => n * 1000;
  ToString := fun v => match v with VStr s => s | _ => EmptyString end;
  ToNumber := fun _ => 0;
  JSON_stringify := fun _ => EmptyString;
  JSON_parse := fun _ => None;
  trim := fun s => s;
  rx_test := fun _ _ => false;
  rx_group1 := fun _ _ => None;
|}.

Definition sample_ambient (ua : string) : Ambient :=
  {| userAgent := ua; nowIso := "2025-01-01T00:00:00.000Z"; CONFIG := VUndefined;
     fullscreenElement := false; SESSION_ID := "s1" |}.

Definition door_fields (n : Z) : list (string * value Z) :=
  [("trial_type", VStr "door"); ("trial_index", VNum n)].

Definition door_record (n : Z) : value Z := VObj (door_fields n).

Definition user_agent_of (r : list (string * value Z)) : value Z := lookup "user_agent" r.

Definition rowA : SampleRow := sample "A".
Definition rowB : SampleRow := sample "B".
Definition rowC : SampleRow := sample "C".
Definition rowD : SampleRow := sample "D".

Definition ok200 : FetchOutcome :=
  Responded {| res_ok := true; res_status := 200; res_type := RBasic |}.

(** Iterations of the drain loop: the send is acknowledged; the network is
    down; the participant withdraws during the read; the delete fails. *)
Definition acks : IterEnv :=
  {| read_io := IoOk; withdrawn_in_read := false; fetch_outcome := ok200;
     withdrawn_in_send := false; delete_io := IoOk |}.

Definition fails : IterEnv :=
  {| read_io := IoOk; withdrawn_in_read := false; fetch_outcome := NetworkError;
     withdrawn_in_send := false; delete_io := IoOk |}.

Definition withdrawn : IterEnv :=
  {| read_io := IoOk; withdrawn_in_read := true; fetch_outcome := ok200;
     withdrawn_in_send := false; delete_io := IoOk |}.

Definition delete_fails : IterEnv :=
  {| read_io := IoOk; withdrawn_in_read := false; fetch_outcome := ok200;
     withdrawn_in_send := false; delete_io := IoFail |}.

(** A fresh page after one [logEnqueue(rows)]. *)
Definition queued (idb : bool) (rows : list SampleRow) : State SampleRow :=
  promised (logEnqueue (RowArray rows) 0 IoOk (fresh_page idb)).

(** A page on which the participant has withdrawn. *)
Definition withdrawn_page : State SampleRow := withdraw IoOk (fresh_page true).

(** A mirror of 40 rows of 3000 encoded bytes each, numbered from 0. *)
Definition rows40 : list SampleRow :=
  map (fun i => {| label := index_key i; bytes := 3000 |}) (seq 0 40).

Definition page_with_mirror (buf : list SampleRow) : State SampleRow :=
  set_buffer (Some buf) (fresh_page true).

(** A single row whose encoded JSON takes 60000 bytes. *)
Definition big_row : SampleRow := {| label := "big"; bytes := 60000 |}.

(* ===================================================================== *)
(** ** Vocabulary for the further properties                              *)
(* ===================================================================== *)

(** The columns every row starts with: the keys of the object literal in
    [buildRowsForLogging], then the two questionnaire columns. *)
Definition canonical_columns : list string :=
  [ "session_id"; "participant_id"; "set_id"; "block_index"; "trial_index";
    "event_type"; "ts_client"; "ts_seq"; "row_id"; "is_fullscreen";
    "device_type"; "browser_name"; "browser_major"; "user_agent"; "seed";
    "risk_key"; "risk_value"; "suggestion"; "followed"; "correct"; "rt_ms";
    "probe_id"; "response"; "review_condition"; "review_expected";
    "review_ids"; "review_tones"; "review_avatars"; "victim_skin";
    "background_src"; "door_src"; "client_version"; "trial_type";
    "true_location"; "reaction_time_s"; "slider_value";
    "emergency_choice_index"; "ts"; "qa_pairs_json"; "questionnaire_score" ].

Definition is_canonical (k : string) : bool := existsb (String.eqb k) canonical_columns.

(** [ets === 'questionnaire' || ets.startsWith('questionnaire') ||
    ets === 'demographics'] on a string. *)
Definition is_questionnaire_type (s : string) : bool :=
  String.prefix "questionnaire" s || String.eqb s "demographics".

(** A string without a slash. *)
Definition slash_free (s : string) : Prop := ~ In "/"%char (list_ascii_of_string s).

Section NormalizerVocabulary.

Context {E : Engine}.

(** The two tests a record has to pass in the callback of
    [buildRowsForLogging] (ignore-set and allow-list, then the demo tests). *)
Definition retained (d : value number) : bool :=
  match mapEventType d, get d "trial_type", get d "is_demo" with
  | Normal et, Normal ty, Normal demo =>
      negb (set_has IGNORE_TRIAL_TYPES (or_else ty (VStr EmptyString))
            || negb (set_has ALLOW_TYPES et))
      && negb (eq_true demo || eq_str et "training_demo" || eq_str ty "training_demo")
  | _, _, _ => false
  end.

(** The event type a record resolves to. *)
Definition eventTypeOf (d : value number) : value number :=
  match mapEventType d with Normal et => et | Threw => VUndefined end.

(** The rows of a call that returned, none for one that threw. *)
Definition rowsOf (amb : Ambient) (flag : option bool) (allTrials : list (value number))
  : list (list (string * value number)) :=
  emitted (fst (buildRowsForLogging amb flag allTrials)).

(** The conversions the callback makes on a retained record return:
    [String(d.choice)] and [String(d.suggestion)] when both are defined, the
    concatenation with [d._ts_seq], and [Number(d.slider_value)] for a trust
    probe. *)
Definition converts (d : value number) : bool :=
  match get d "choice", get d "suggestion", get d "_ts_seq", get d "slider_value",
        mapEventType d with
  | Normal ch, Normal su, Normal seq, Normal sv, Normal et =>
      negb (negb (is_undefined ch) && negb (is_undefined su)
            && (conversion_throws ch || conversion_throws su))
      && negb (conversion_throws seq)
      && negb (eq_str et "trust_probe_mid" && conversion_throws sv)
  | _, _, _, _, _ => false
  end.

(** An array element on which the callback returns: not [null] or
    [undefined], and either dropped or converted. *)
Definition normalizable (d : value number) : bool :=
  negb (is_nullish d) && (negb (retained d) || converts d).


(** The raw user agent is on no row but the first, if there: what a series
    of calls keeps when some of them throw.  [b] and [b'] are the flag before
    and after. *)
Definition ua_first_only (ua : string) (b : bool) (rows : list (list (string * value number)))
    (b' : bool) : Prop :=
  if b then Forall ua_null rows /\ b' = true
  else
    match rows with
    | [] => True
    | first :: later =>
        (lookup "user_agent" first = VStr ua \/ ua_null first)
        /\ Forall ua_null later /\ b' = true
    end.

(** The trial-type tags [mapEventType] knows, with the event type of each. *)
Definition inferred_types : list (string * string) :=
  [ ("door", "door_trial"); ("trust_probe", "trust_probe_mid");
    ("reviews_set", "reputation_item"); ("reputation_probe", "reputation_probe");
    ("trust40_pre", "questionnaire40pre"); ("trust40_post", "questionnaire40post");
    ("trust14_mid1", "questionnaire14mid1"); ("trust14_mid2", "questionnaire14mid2") ].

End NormalizerVocabulary.

(* ===================================================================== *)
(** ** A session of trials                                                *)
(* ===================================================================== *)

Section Trials.

Context {E : Engine}.

(** The number the next call of [logTrialRow] stamps on its record. *)
Definition nextSeq (pg : Page) : Z :=
  match LOG_SEQ pg with Some n => n | None => 1 end.

(** One call of [logTrialRow] as a trial makes it: the record, and what the
    page is like at that moment (the clock, the outcome of the write). *)
Record TrialCall : Type := {
  call_ambient : Ambient;
  call_record : list (string * value number);
  call_now : Z;
  call_io : IoOutcome;
}.

(** The trials of a session log their records one after the other. *)
Definition logTrials (calls : list TrialCall) (pg : Page) : Page :=
  fold_left
    (fun pg c => logTrialRow (call_ambient c) (call_record c) (call_now c) (call_io c) pg)
    calls pg.

End Trials.

(* ===================================================================== *)
(** ** Vocabulary for the properties of the queue                         *)
(* ===================================================================== *)

Section QueueVocabulary.

Context {Row : Type}.

(** Whether one of the items carries the primary key [k]. *)
Definition named (k : Z) (items : list (QueueEntry Row)) : bool :=
  existsb (fun it => match id it with IdbKey k' => k =? k' | LsId _ => false end) items.

End QueueVocabulary.

(* ===================================================================== *)
(** ** The delete request ([src/logging/index.js])                        *)
(* ===================================================================== *)

Section DeleteRequest.

Context {E : Engine}.






End DeleteRequest.

(* ===================================================================== *)
(** ** The calls in flight ([src/logging/index.js], turn by turn)         *)
(* ===================================================================== *)

(** [logEnqueue], [flushQueue] and [clearLocalQueue] are [async]: each is
    suspended at its [await]s, and other code runs in between (a timer fires,
    a trial ends and enqueues its row, the participant presses the discard
    button).  The steps of the section above run every call to its end; what
    follows takes one turn of the event loop at a time, and never forces a
    suspended call to go on. *)

Section EventLoop.

Context {Row : Type}.

Variable encodedLength : Row -> Z.

(** A call suspended at an [await], with the local variables it still needs.
    A storage operation takes effect at one instant (the transaction commits,
    the localStorage access is made); the call that awaits it resumes in a
    later turn. *)
Inductive Task : Type :=
| TPut (rows : list Row)
    (* logEnqueue in [await idbPutAll(rows)], the write not yet made *)
| TPutDone (thrown : bool)
    (* the write made or failed; logEnqueue not yet resumed *)
| TRead
    (* flushQueue in [await idbReadBatch(...)], the read not yet made *)
| TReadDone (batch : Completion (list (QueueEntry Row)))
    (* the read made; flushQueue not yet resumed *)
| TSend (batch : list (QueueEntry Row)) (ok : bool)
    (* flushQueue in [await sendBatch(rows)], which will answer [ok] *)
| TDelete (batch : list (QueueEntry Row))
    (* flushQueue in [await idbDeleteIds(batch)], the delete not yet made *)
| TDeleteDone (batch : list (QueueEntry Row)) (thrown : bool)
    (* the delete made or failed; flushQueue not yet resumed *)
| TClear
    (* clearLocalQueue before [removeItem] or [store.clear()] *)
| TClearDone (thrown : bool).
    (* the queue cleared or not; clearLocalQueue not yet resumed *)

(** The page and the calls that are suspended, oldest first. *)
Record Live : Type := {
  page : State Row;
  inflight : list Task;
}.

Definition boot (idb : bool) : Live := {| page := fresh_page idb; inflight := [] |}.

(** The call at position [i] goes on as [t], or has returned. *)
Definition update_task (i : nat) (t : option Task) (pool : list Task) : list Task :=
  firstn i pool ++ match t with Some t' => [t'] | None => [] end ++ skipn (S i) pool.

Definition spawns (t : Task) (st : State Row) (l : Live) : Live :=
  {| page := st; inflight := inflight l ++ [t] |}.

Definition continues (i : nat) (t : Task) (st : State Row) (l : Live) : Live :=
  {| page := st; inflight := update_task i (Some t) (inflight l) |}.

Definition finishes (i : nat) (st : State Row) (l : Live) : Live :=
  {| page := st; inflight := update_task i None (inflight l) |}.

Definition stays (st : State Row) (l : Live) : Live :=
  {| page := st; inflight := inflight l |}.

(** The storage operation that call [i] waits for takes effect. *)
Definition perform (i : nat) (now : Z) (io : IoOutcome) (l : Live) : option Live :=
  let st := page l in
  match nth_error (inflight l) i with
  | Some (TPut rows) =>
      match idbPutAll rows now io (store st) with
      | Normal s' => Some (continues i (TPutDone false) (set_store s' st) l)
      | Threw => Some (continues i (TPutDone true) st l)
      end
  | Some TRead =>
      Some (continues i (TReadDone (idbReadBatch LOG_BATCH_SIZE io (store st))) st l)
  | Some (TDelete batch) =>
      match idbDeleteIds batch io (store st) with
      | Normal s' => Some (continues i (TDeleteDone batch false) (set_store s' st) l)
      | Threw => Some (continues i (TDeleteDone batch true) st l)
      end
  | Some TClear =>
      match clearStore io (store st) with
      | Normal s' => Some (continues i (TClearDone false) (set_store s' st) l)
      | Threw => Some (continues i (TClearDone true) st l)
      end
  | _ => None
  end.

(** Call [i] resumes and runs to its next [await] or to its end; [outcome]
    is how the [fetch] will end if the call starts one in this turn.  A drain
    that ends, by [break] or by an exception, goes through
    [finally { LOG_FLUSHING = false }]. *)
Definition resume (i : nat) (outcome : FetchOutcome) (l : Live) : option Live :=
  let st := page l in
  match nth_error (inflight l) i with
  | Some (TPutDone thrown) =>
      Some (finishes i (if thrown then st else scheduleFlush 250 st) l)
  | Some (TReadDone Threw) =>
      Some (finishes i (set_flushing false st) l)
  | Some (TReadDone (Normal [])) =>
      Some (finishes i (set_flushing false (set_retry 0 (set_buffer (Some []) st))) l)
  | Some (TReadDone (Normal batch)) =>
      let '(ok, st2) := sendBatch (map (@row Row) batch) outcome st in
      Some (continues i (TSend batch ok) st2 l)
  | Some (TSend batch ok) =>
      if ok then Some (continues i (TDelete batch) st l)
      else
        let st4 := set_retry (LOG_RETRY_ATTEMPTS st + 1) st in
        Some (finishes i
                (set_flushing false (scheduleFlush (backoffMs (LOG_RETRY_ATTEMPTS st4)) st4))
                l)
  | Some (TDeleteDone batch thrown) =>
      if thrown then Some (finishes i (set_flushing false st) l)
      else
        let rows := map (@row Row) batch in
        let st5 := set_buffer (Some (skipn (List.length rows) (buffer_or_empty st))) st in
        Some (continues i TRead (set_retry 0 st5) l)
  | Some (TClearDone _) => Some (finishes i st l)
  | _ => None
  end.

(** One turn of the event loop. *)
Inductive Turn : Type :=
| OnScheduleFlush (delayMs : Z)              (* a call of scheduleFlush *)
| OnLogEnqueue (rows : RowsArg Row)          (* a call of logEnqueue, up to its await *)
| OnTimer (h : positive)                     (* the flush timer [h] fires *)
| OnFlushSyncBeacon (fuel : nat) (sendBeacon : bool)
| OnDiscard                                  (* the discard button, up to its await *)
| OnStorage (i : nat) (now : Z) (io : IoOutcome)
| OnResume (i : nat) (outcome : FetchOutcome).

(** The state after a turn; [None] when the turn cannot be taken in this
    state (no such timer, no such call, a beacon loop that does not end). *)
Definition turn (t : Turn) (l : Live) : option Live :=
  let st := page l in
  match t with
  | OnScheduleFlush d => Some (stays (scheduleFlush d st) l)
  | OnLogEnqueue rows =>
      let rows := match rows with RowArray rs => rs | OneRow r => [r] end in
      Some (spawns (TPut rows) (set_buffer (Some (buffer_or_empty st ++ rows)) st) l)
  | OnTimer h =>
      if In_timers h st then
        let tbl := filter (fun t => negb (Pos.eqb (fst t) h)) (timers st) in
        let st1 := set_timer None tbl (next_handle st) st in
        if LOG_FLUSHING st1 || DISCARD_DATA st1 then Some (stays st1 l)
        else Some (spawns TRead (set_flushing true st1) l)
      else None
  | OnFlushSyncBeacon fuel sb =>
      match flushSyncBeacon encodedLength fuel sb st with
      | Some st' => Some (stays st' l)
      | None => None
      end
  | OnDiscard => Some (spawns TClear (set_buffer (Some []) (set_discard true st)) l)
  | OnStorage i now io => perform i now io l
  | OnResume i outcome => resume i outcome l
  end.

Fixpoint turns (ts : list Turn) (l : Live) : option Live :=
  match ts with
  | [] => Some l
  | t :: rest =>
      match turn t l with
      | Some l' => turns rest l'
      | None => None
      end
  end.

(** The page and its suspended calls, at any moment. *)
Definition live_reachable (l : Live) : Prop :=
  exists idb ts, turns ts (boot idb) = Some l.

(** The suspended calls of [flushQueue]. *)
Definition is_drain (t : Task) : bool :=
  match t with
  | TRead | TReadDone _ | TSend _ _ | TDelete _ | TDeleteDone _ _ => true
  | TPut _ | TPutDone _ | TClear | TClearDone _ => false
  end.

Definition drains_in_flight (l : Live) : nat := List.length (filter is_drain (inflight l)).

(** Turns in which calls do not overlap, storage works and nobody withdraws:
    [logEnqueue] is called and a timer fires only when no call is in flight,
    every storage operation succeeds, and the discard button is not
    pressed. *)
Definition admissible (t : Turn) (l : Live) : bool :=
  match t with
  | OnLogEnqueue _ | OnTimer _ =>
      match inflight l with [] => true | _ :: _ => false end
  | OnDiscard => false
  | OnStorage _ _ io => match io with IoOk => true | IoFail => false end
  | OnScheduleFlush _ | OnFlushSyncBeacon _ _ | OnResume _ _ => true
  end.

Fixpoint sequential (ts : list Turn) (l : Live) : bool :=
  match ts with
  | [] => true
  | t :: rest =>
      admissible t l
      && match turn t l with
         | Some l' => sequential rest l'
         | None => true
         end
  end.

(** At most one drain is in flight, and [LOG_FLUSHING] tells whether one
    is. *)
Definition one_drain (l : Live) : Prop :=
  (drains_in_flight l <= 1)%nat
  /\ LOG_FLUSHING (page l) = negb (Nat.eqb (drains_in_flight l) 0).



(** Turns of the call at the head of the pool. *)
Definition of_first_call (t : Turn) : bool :=
  match t with
  | OnStorage O _ _ | OnResume O _ => true
  | _ => false
  end.

(** An iteration of the drain during which nobody withdraws. *)
Definition undisturbed (e : IterEnv) : Prop :=
  withdrawn_in_read e = false /\ withdrawn_in_send e = false.

(** Where a call of [flushQueue] that ran alone has left the page: suspended
    in its read when the environment given ends, returned otherwise. *)
Definition after_drain (p : Promise (State Row)) : Live :=
  match p with
  | Pending st => {| page := st; inflight := [TRead] |}
  | Resolved st | Rejected st => {| page := st; inflight := [] |}
  end.

(** A drain that is overtaken by an enqueue: the timer fires on an empty
    queue and the drain starts its read; a trial ends and enqueues [rows];
    the read is made before the write and finds nothing; the drain resumes,
    empties the mirror and ends; then the write is made and [logEnqueue]
    resumes. *)
Definition overtaken (rows : list Row) (now : Z) : list Turn :=
  [ OnScheduleFlush 0; OnTimer 1%positive;
    OnLogEnqueue (RowArray rows);
    OnStorage 0 now IoOk; OnResume 0 NetworkError;
    OnStorage 0 now IoOk; OnResume 0 NetworkError ].

End EventLoop.

Arguments Task : clear implicits.
Arguments Live : clear implicits.
Arguments Turn : clear implicits.

(* ===================================================================== *)
(** ** Sample records and pages for the further worked examples           *)
(* ===================================================================== *)

(** A door trial whose [choice] is an object with data under [toString] and
    [valueOf]: [String(d.choice)] throws a TypeError. *)
Definition stubborn_fields : list (string * value Z) :=
  [ ("trial_type", VStr "door");
    ("choice", VObj [("toString", VNum 1); ("valueOf", VNum 1)]);
    ("suggestion", VStr "x") ].

Definition overview_fields : list (string * value Z) :=
  [("trial_type", VStr "overview_rescuer")].

Definition demo_fields : list (string * value Z) :=
  [("trial_type", VStr "door"); ("is_demo", VBool true)].

Definition probe_fields : list (string * value Z) :=
  [("trial_type", VStr "trust_probe"); ("slider_value", VNum 70)].

(** A door trial with asset paths, a field outside the schema, and a
    [followed] of its own that disagrees with choice and suggestion. *)
Definition rescue_fields : list (string * value Z) :=
  [ ("trial_type", VStr "door"); ("choice", VStr "left"); ("suggestion", VStr "right");
    ("followed", VBool true); ("victim_src", VStr "assets/victims/v1.png");
    ("door_src", VStr "door.png"); ("smoke_level", VNum 2) ].

Definition first_row (rows : list (list (string * value Z))) : list (string * value Z) :=
  nth 0 rows [].

Definition rescue_row : list (string * value Z) :=
  first_row (rowsOf (sample_ambient "Mozilla/5.0") None [VObj rescue_fields]).

Definition trial (fields : list (string * value Z)) (io : IoOutcome) : TrialCall :=
  {| call_ambient := sample_ambient "Mozilla/5.0"; call_record := fields;
     call_now := 0; call_io := io |}.

Definition fresh_session (idb : bool) : Page :=
  {| UA_EMITTED := None; LOG_SEQ := None; delivery := fresh_page idb |}.

(** A record with a field called [__proto__], as [JSON.parse] makes them. *)
Definition proto_fields : list (string * value Z) :=
  [ ("trial_type", VStr "door"); ("__proto__", VObj [("x", VNum 1)]);
    ("smoke_level", VNum 2) ].

Definition proto_row : list (string * value Z) :=
  first_row (rowsOf (sample_ambient "Mozilla/5.0") None [VObj proto_fields]).

(** Turns in which calls do not overlap: rows A and B are enqueued and
    written; the timer fires and the drain reads them; the send fails, and
    the drain ends with a retry timer. *)
Definition quiet_turns : list (Turn SampleRow) :=
  [ OnLogEnqueue (RowArray [rowA; rowB]); OnStorage 0 0 IoOk; OnResume 0 ok200;
    OnTimer 1%positive; OnStorage 0 0 IoOk; OnResume 0 NetworkError;
    OnResume 0 ok200 ].

Definition after_turns (ts : list (Turn SampleRow)) (idb : bool) : Live SampleRow :=
  match turns bytes ts (boot idb) with
  | Some l => l
  | None => boot idb
  end.

(** A drain suspended in its read while a second row is being enqueued. *)
Definition busy_turns : list (Turn SampleRow) :=
  [ OnLogEnqueue (OneRow rowA); OnStorage 0 0 IoOk; OnResume 0 ok200;
    OnTimer 1%positive; OnLogEnqueue (OneRow rowB) ].

(** The participant presses the discard button while a drain is suspended
    with the batch it has read; then the drain goes on. *)
Definition withdrawn_mid_drain : Live SampleRow :=
  after_turns [ OnLogEnqueue (OneRow rowA); OnStorage 0 0 IoOk; OnResume 0 ok200;
                OnTimer 1%positive; OnStorage 0 0 IoOk; OnDiscard ] true.

Definition drain_goes_on : list (Turn SampleRow) :=
  [ OnResume 0 ok200; OnResume 0 ok200; OnStorage 0 0 IoOk; OnResume 0 ok200 ].

Definition turns_from (ts : list (Turn SampleRow)) (l : Live SampleRow) : Live SampleRow :=
  match turns bytes ts l with
  | Some l' => l'
  | None => l
  end.

(** An iteration of the drain loop in which the read fails. *)
Definition read_fails : IterEnv :=
  {| read_io := IoFail; withdrawn_in_read := false; fetch_outcome := ok200;
     withdrawn_in_send := false; delete_io := IoOk |}.

(** A mirror of three rows of 25000 encoded bytes each. *)
Definition rows3 : list SampleRow :=
  [ {| label := "0"; bytes := 25000 |}; {| label := "1"; bytes := 25000 |};
    {| label := "2"; bytes := 25000 |} ].

(** Rows that are their own encoded JSON text. *)
Definition text_length (s : string) : Z := Z.of_nat (String.length s).
(* ===================================================================== *)
(** * Properties of the row normalizer                                    *)
(* ===================================================================== *)

Unset Implicit Arguments.

(** Invert an equation [c = Normal r] through the binds and tests of [c]. *)
Ltac bind_inv H :=
  repeat
    match type of H with
    | bindC ?c _ = Normal _ =>
        destruct c eqn:?; cbn [bindC] in H; [ | discriminate H ]
    | (if ?c then _ else _) = Normal _ => destruct c eqn:?
    | match ?c with Normal _ => _ | Threw => Threw end = Normal _ =>
        destruct c eqn:?; [ | discriminate H ]
    end.

Section NormalizerFacts.

Context {E : Engine}.

Abbreviation val := (value number).

Lemma ok_Normal {A} (a : A) : ok (Normal a).
Proof. reflexivity. Qed.

Lemma ok_inv {A} (c : Completion A) : ok c -> exists a, c = Normal a.
Proof. destruct c; [eauto | discriminate]. Qed.

Lemma ok_bind {A B} (c : Completion A) (k : A -> Completion B) :
  ok c -> (forall a, c = Normal a -> ok (k a)) -> ok (bindC c k).
Proof.
  intros Hc Hk. destruct (ok_inv _ Hc) as [a ->]. cbn. now apply Hk.
Qed.

Lemma truthy_not_nullish (v : val) : truthy v = true -> is_nullish v = false.
Proof. destruct v; cbn; congruence. Qed.

Lemma get_ok (v : val) (k : string) : is_nullish v = false -> ok (get v k).
Proof. destruct v; cbn; try discriminate; reflexivity. Qed.

Lemma Object_entries_ok (v : val) : is_nullish v = false -> ok (Object_entries v).
Proof. destruct v; cbn; try discriminate; reflexivity. Qed.

Lemma get_nullish_throws (v : val) (k : string) : is_nullish v = true -> get v k = Threw.
Proof. destruct v; cbn; try discriminate; reflexivity. Qed.

Lemma set_has_string (members : list string) (v : val) :
  set_has members v = true -> exists s, v = VStr s.
Proof. destruct v; cbn; try discriminate; eauto. Qed.

Create HintDb js.
#[local] Hint Resolve ok_Normal get_ok Object_entries_ok truthy_not_nullish : js.

(** Peel one layer off a goal [ok c]: a bind, a conditional or a value. *)
Ltac ok_step :=
  lazymatch goal with
  | |- ok (Normal _) => apply ok_Normal
  | |- ok (bindC _ _) => apply ok_bind; [ | intros ? ? ]
  | |- ok (if ?c then _ else _) => destruct c eqn:?
  | |- ok (get _ _) => apply get_ok; auto with js
  | |- ok (Object_entries _) => apply Object_entries_ok; auto with js
  end.

Lemma pairsFromObject_ok (obj : val) : ok (pairsFromObject obj).
Proof.
  unfold pairsFromObject. repeat ok_step.
  apply truthy_not_nullish. destruct (truthy obj); [reflexivity | discriminate].
Qed.

Lemma defined_or_null_ok (d : val) (k : string) :
  is_nullish d = false -> ok (defined_or_null d k).
Proof. intros. unfold defined_or_null. repeat ok_step. Qed.

Lemma baseName_ok (s : val) : ok (baseName s).
Proof.
  unfold baseName. destruct (truthy s && is_string s) eqn:Hs; [ | reflexivity ].
  apply andb_prop in Hs as [_ Hs]. destruct s; try discriminate. reflexivity.
Qed.

Lemma mapEventType_ok (d : val) : is_nullish d = false -> ok (mapEventType d).
Proof. intros. unfold mapEventType. repeat ok_step. Qed.

(** The conversions return on the values [conversion_throws] lets through. *)
Lemma call_String_ok (v : val) : conversion_throws v = false -> ok (call_String v).
Proof. intros H. unfold call_String. now rewrite H. Qed.

Lemma call_Number_ok (v : val) : conversion_throws v = false -> ok (call_Number v).
Proof. intros H. unfold call_Number. now rewrite H. Qed.

Lemma call_String_inv (v : val) (a : string) :
  call_String v = Normal a -> a = ToString v /\ conversion_throws v = false.
Proof.
  unfold call_String. destruct (conversion_throws v); [ discriminate | ].
  intros [= <-]. now split.
Qed.

Lemma call_Number_inv (v : val) (n : number) :
  call_Number v = Normal n -> n = ToNumber v /\ conversion_throws v = false.
Proof.
  unfold call_Number. destruct (conversion_throws v); [ discriminate | ].
  intros [= <-]. now split.
Qed.

(** [String(d.choice) === String(d.suggestion)], computed when both are
    defined. *)
Lemma followed_inv (ch su f : val) :
  (if negb (is_undefined ch) && negb (is_undefined su)
   then (a <- call_String ch ;; b <- call_String su ;; Normal (VBool (String.eqb a b)))
   else Normal VNull) = Normal f ->
  f = (if negb (is_undefined ch) && negb (is_undefined su)
       then VBool (String.eqb (ToString ch) (ToString su)) else VNull)
  /\ negb (negb (is_undefined ch) && negb (is_undefined su)
           && (conversion_throws ch || conversion_throws su)) = true.
Proof.
  destruct (negb (is_undefined ch) && negb (is_undefined su)); [ | now intros [= <-] ].
  intros H. bind_inv H. injection H as <-.
  repeat match goal with
         | Hc : call_String _ = Normal _ |- _ => apply call_String_inv in Hc as [-> Hc]
         end.
  split; [ reflexivity | ].
  match goal with
  | H1 : conversion_throws ch = false, H2 : conversion_throws su = false |- _ =>
      now rewrite H1, H2
  end.
Qed.

Lemma followed_ok (ch su : val) :
  negb (negb (is_undefined ch) && negb (is_undefined su)
        && (conversion_throws ch || conversion_throws su)) = true ->
  ok (if negb (is_undefined ch) && negb (is_undefined su)
      then (a <- call_String ch ;; b <- call_String su ;; Normal (VBool (String.eqb a b)))
      else Normal VNull : Completion val).
Proof.
  destruct (negb (is_undefined ch) && negb (is_undefined su)); [ | reflexivity ].
  cbn [andb]. intros H. apply negb_true_iff, orb_false_elim in H as [Hc Hs].
  unfold call_String. now rewrite Hc, Hs.
Qed.

Lemma row_id_inv (sid : string) (seq r : val) :
  (if negb (is_undefined seq)
   then (s <- call_String seq ;; Normal (VStr (sid ++ ":" ++ s)))
   else Normal VNull) = Normal r ->
  r = (if negb (is_undefined seq) then VStr (sid ++ ":" ++ ToString seq) else VNull)
  /\ conversion_throws seq = false.
Proof.
  destruct seq; cbn [is_undefined negb]; try (now intros [= <-]);
    intros H; bind_inv H; injection H as <-;
    match goal with
    | Hc : call_String _ = Normal _ |- _ => apply call_String_inv in Hc as [-> Hc]
    end; now split.
Qed.

Lemma row_id_ok (sid : string) (seq : val) :
  conversion_throws seq = false ->
  ok (if negb (is_undefined seq)
      then (s <- call_String seq ;; Normal (VStr (sid ++ ":" ++ s)))
      else Normal VNull : Completion val).
Proof.
  intros H. destruct (negb (is_undefined seq)); [ | reflexivity ].
  unfold call_String. now rewrite H.
Qed.

Lemma unifiedResponse_ok (fields : list (string * val)) (et : val) :
  negb (negb (is_undefined (lookup "choice" fields))
        && negb (is_undefined (lookup "suggestion" fields))
        && (conversion_throws (lookup "choice" fields)
            || conversion_throws (lookup "suggestion" fields))) = true ->
  negb (eq_str et "trust_probe_mid"
        && conversion_throws (lookup "slider_value" fields)) = true ->
  ok (unifiedResponse (VObj fields) et).
Proof.
  intros Hcs Hsv. unfold unifiedResponse. cbn [get bindC].
  destruct (eq_str et "door_trial").
  { destruct (is_boolean (lookup "followed" fields)).
    - destruct (lookup "followed" fields); try reflexivity.
      apply ok_bind; [ now apply followed_ok | intros; reflexivity ].
    - apply ok_bind; [ now apply followed_ok | intros; reflexivity ]. }
  destruct (eq_str et "trust_probe_mid").
  { cbn [andb] in Hsv. apply negb_true_iff in Hsv.
    destruct (negb (is_undefined (lookup "slider_value" fields))); [ | reflexivity ].
    unfold call_Number. now rewrite Hsv. }
  repeat ok_step.
Qed.

(** A trust probe whose row was built had its slider value converted. *)
Lemma unifiedResponse_probe (fields : list (string * val)) (et r : val) :
  unifiedResponse (VObj fields) et = Normal r ->
  negb (eq_str et "trust_probe_mid"
        && conversion_throws (lookup "slider_value" fields)) = true.
Proof.
  unfold unifiedResponse. cbn [get bindC].
  destruct (eq_str et "trust_probe_mid") eqn:Hp; [ | reflexivity ].
  destruct et; try discriminate Hp. cbn [eq_str] in *.
  apply String.eqb_eq in Hp. subst s. cbn [String.eqb Ascii.eqb Bool.eqb].
  destruct (negb (is_undefined (lookup "slider_value" fields))) eqn:Hd.
  - intros H. bind_inv H.
    match goal with
    | Hc : call_Number _ = Normal _ |- _ => apply call_Number_inv in Hc as [_ Hc]
    end.
    cbn [andb]. now apply negb_true_iff.
  - intros _. apply negb_false_iff in Hd.
    destruct (lookup "slider_value" fields); try discriminate Hd. reflexivity.
Qed.

Lemma extractQuestionnaireFields_ok (d : val) :
  is_nullish d = false -> ok (extractQuestionnaireFields d).
Proof.
  intros. unfold extractQuestionnaireFields.
  repeat first [ apply pairsFromObject_ok | ok_step ].
  all: try (apply truthy_not_nullish; assumption).
  - (* [.trim()] is only called under [typeof d.responses === 'string'] *)
    match goal with H : is_string ?r = true |- _ => destruct r; try discriminate H end.
    reflexivity.
  - reflexivity.
Qed.

(** A record passes the allow-list only with a string event type. *)
Lemma or_else_string (s : string) : exists s', or_else (VStr s) (VStr EmptyString) = VStr s'.
Proof. unfold or_else. destruct (truthy (VStr s)); eauto. Qed.

Lemma lookup_set_field_other (k k' : string) (v : val) (row : list (string * val)) :
  String.eqb k k' = false -> lookup k (set_field k' v row) = lookup k row.
Proof.
  intros Hne. induction row as [ | [k0 v0] rest IH ]; cbn.
  - now rewrite Hne.
  - destruct (String.eqb k' k0) eqn:Hk'; cbn.
    + apply String.eqb_eq in Hk'. subst k0. now rewrite Hne.
    + destruct (String.eqb k k0); [ reflexivity | exact IH ].
Qed.

Lemma set_field_keeps_keys (k k' : string) (v : val) (row : list (string * val)) :
  existsb (String.eqb k) (map fst row) = true ->
  existsb (String.eqb k) (map fst (set_field k' v row)) = true.
Proof.
  induction row as [ | [k0 v0] rest IH ]; cbn; [ discriminate | ].
  intros H. destruct (String.eqb k' k0); cbn; [ exact H | ].
  apply orb_true_iff in H as [H | H]; [ now rewrite H | ].
  rewrite (IH H). apply orb_true_r.
Qed.

Lemma lookup_assign_other (k k' : string) (v : val) (row : list (string * val)) :
  String.eqb k k' = false -> lookup k (assign k' v row) = lookup k row.
Proof.
  intros Hne. unfold assign. destruct (String.eqb k' "__proto__"); [ reflexivity | ].
  now apply lookup_set_field_other.
Qed.

Lemma assign_keeps_keys (k k' : string) (v : val) (row : list (string * val)) :
  existsb (String.eqb k) (map fst row) = true ->
  existsb (String.eqb k) (map fst (assign k' v row)) = true.
Proof.
  unfold assign. destruct (String.eqb k' "__proto__"); [ trivial | ].
  apply set_field_keeps_keys.
Qed.

(** The pass-through loop never writes a reserved key. *)
Lemma lookup_passThrough_reserved (k : string) (reserved : list string)
    (es row : list (string * val)) :
  existsb (String.eqb k) reserved = true ->
  lookup k (passThrough reserved es row) = lookup k row.
Proof.
  intros Hres. revert row. induction es as [ | [k' v'] rest IH ]; intros row; cbn.
  - reflexivity.
  - rewrite IH. destruct (existsb (String.eqb k') reserved) eqn:Hk'; [ reflexivity | ].
    apply lookup_assign_other.
    destruct (String.eqb k k') eqn:Hkk'; [ | reflexivity ].
    apply String.eqb_eq in Hkk'. subst k'. congruence.
Qed.


Lemma lookup_set_field_same (k : string) (v : val) (row : list (string * val)) :
  lookup k (set_field k v row) = v.
Proof.
  induction row as [ | [k0 v0] rest IH ]; cbn.
  - now rewrite String.eqb_refl.
  - destruct (String.eqb k k0) eqn:Hk; cbn; rewrite Hk; [ reflexivity | exact IH ].
Qed.

Lemma lookup_missing (k : string) (row : list (string * val)) :
  existsb (String.eqb k) (map fst row) = false -> lookup k row = VUndefined.
Proof.
  induction row as [ | [k0 v0] rest IH ]; cbn; [ reflexivity | ].
  intros H. apply orb_false_elim in H as [Hk Hrest]. rewrite Hk. now apply IH.
Qed.

Lemma set_field_keys (k : string) (v : val) (row : list (string * val)) :
  map fst (set_field k v row)
  = map fst row ++ (if existsb (String.eqb k) (map fst row) then [] else [k]).
Proof.
  induction row as [ | [k0 v0] rest IH ]; cbn; [ reflexivity | ].
  destruct (String.eqb k k0) eqn:Hk; cbn.
  - now rewrite app_nil_r.
  - now rewrite IH.
Qed.

(** The pass-through loop copies the fields that are not reserved, but for
    a field called [__proto__]. *)
Lemma lookup_passThrough_unreserved (k : string) (reserved : list string)
    (es row : list (string * val)) :
  NoDup (map fst es) -> existsb (String.eqb k) reserved = false ->
  String.eqb k "__proto__" = false ->
  lookup k (passThrough reserved es row)
  = if existsb (String.eqb k) (map fst es) then lookup k es else lookup k row.
Proof.
  intros Hnd Hres Hproto. revert row.
  induction es as [ | [k' v'] rest IH ]; intros row; cbn.
  - reflexivity.
  - inversion Hnd as [ | ? ? Hnotin Hnd' ]; subst. rewrite (IH Hnd').
    destruct (String.eqb k k') eqn:Hk; cbn.
    + apply String.eqb_eq in Hk. subst k'. rewrite Hres. unfold assign. rewrite Hproto.
      assert (Hnone : existsb (String.eqb k) (map fst rest) = false).
      { destruct (existsb (String.eqb k) (map fst rest)) eqn:Hex; [ | reflexivity ].
        apply existsb_exists in Hex as (x & Hin & Hx). apply String.eqb_eq in Hx.
        subst x. contradiction. }
      rewrite Hnone. apply lookup_set_field_same.
    + destruct (existsb (String.eqb k) (map fst rest)); [ reflexivity | ].
      destruct (existsb (String.eqb k') reserved); [ reflexivity | ].
      now apply lookup_assign_other.
Qed.

Lemma lookup_passThrough_proto (reserved : list string) (es row : list (string * val)) :
  lookup "__proto__" (passThrough reserved es row) = lookup "__proto__" row.
Proof.
  revert row. induction es as [ | [k' v'] rest IH ]; intros row; cbn; [ reflexivity | ].
  rewrite IH. destruct (existsb (String.eqb k') reserved); [ reflexivity | ].
  unfold assign. destruct (String.eqb k' "__proto__") eqn:Hk; [ reflexivity | ].
  apply lookup_set_field_other. now rewrite String.eqb_sym.
Qed.

Lemma allow_listed_string (et : val) :
  set_has ALLOW_TYPES et = true ->
  exists s, et = VStr s /\ In s ALLOW_TYPES /\ or_else et (VStr EmptyString) = et.
Proof.
  destruct et; cbn [set_has]; try discriminate. intros H.
  apply existsb_exists in H as (x & Hin & Hx). apply String.eqb_eq in Hx. subst x.
  exists s. repeat split; trivial.
  unfold or_else. cbn [truthy]. destruct (String.eqb s EmptyString) eqn:He; [ | reflexivity ].
  apply String.eqb_eq in He. subst s. cbn in Hin. intuition discriminate.
Qed.


(** Only an object can be retained. *)
Lemma retained_object (d : val) : retained d = true -> exists fields, d = VObj fields.
Proof. destruct d; cbn; try discriminate; eauto. Qed.

(** What a retained record's row is made of. *)
Lemma buildRow_retained (amb : Ambient) (summary : UASummary) (setId : val)
    (flag : bool) (d : val) (row : list (string * val)) (flag' : bool) :
  buildRow amb summary setId flag d = Normal (Some row, flag') ->
  exists (et tt demo : val) (es base : list (string * val)),
    mapEventType d = Normal et /\ get d "trial_type" = Normal tt
    /\ get d "is_demo" = Normal demo
    /\ set_has IGNORE_TRIAL_TYPES (or_else tt (VStr EmptyString)) = false
    /\ set_has ALLOW_TYPES et = true
    /\ eq_true demo || eq_str et "training_demo" || eq_str tt "training_demo" = false
    /\ Object_entries d = Normal es
    /\ row = passThrough canonical_columns es base
    /\ map fst base = canonical_columns
    /\ lookup "event_type" base = et
    /\ (exists tl, get d "true_location" = Normal tl
          /\ lookup "trial_type" base
             = or_else tt (if negb (is_undefined tl) then VStr "door" else VStr EmptyString))
    /\ (exists vs, get d "victim_src" = Normal vs
                   /\ baseName vs = Normal (lookup "victim_skin" base))
    /\ (exists bs, get d "background_src" = Normal bs
                   /\ baseName bs = Normal (lookup "background_src" base))
    /\ (exists ds, get d "door_src" = Normal ds
                   /\ baseName ds = Normal (lookup "door_src" base))
    /\ unifiedResponse d et = Normal (lookup "response" base)
    /\ (exists ch su, get d "choice" = Normal ch /\ get d "suggestion" = Normal su
          /\ lookup "followed" base
             = if negb (is_undefined ch) && negb (is_undefined su)
               then VBool (String.eqb (ToString ch) (ToString su)) else VNull)
    /\ (exists seq, get d "_ts_seq" = Normal seq
          /\ lookup "ts_seq" base = (if negb (is_undefined seq) then seq else VNull)
          /\ lookup "row_id" base
             = if negb (is_undefined seq)
               then VStr (SESSION_ID amb ++ ":" ++ ToString seq) else VNull)
    /\ (lookup "device_type" base = VStr (device_type summary)
        /\ lookup "browser_name" base = VStr (browser_name summary)
        /\ lookup "browser_major" base = browser_major summary
        /\ lookup "client_version" base = VStr APP_VERSION
        /\ lookup "ts_client" base = VStr (nowIso amb)
        /\ lookup "ts" base = VStr (nowIso amb)
        /\ lookup "set_id" base = setId
        /\ lookup "is_fullscreen" base = VBool (fullscreenElement amb))
    /\ converts d = true
    /\ (exists qf : QFields,
          (if match et with VStr s => is_questionnaire_type s | _ => false end
           then extractQuestionnaireFields d else Normal no_qfields) = Normal qf
          /\ lookup "qa_pairs_json" base = qa_pairs_json qf
          /\ lookup "questionnaire_score" base = questionnaire_score qf).
Proof.
  intros H.
  assert (Hobj : exists fields, d = VObj fields).
  { destruct d; try (cbn in H; discriminate H); eauto. }
  destruct Hobj as [fields ->].
  unfold buildRow in H. cbn [get bindC defined_or_null] in H.
  bind_inv H; try discriminate H.
  injection H as <- <-.
  match goal with
  | Hf : set_has IGNORE_TRIAL_TYPES _ || negb (set_has ALLOW_TYPES ?et) = false |- _ =>
      apply orb_false_elim in Hf as [Hign Hallow]; apply negb_false_iff in Hallow;
      destruct (allow_listed_string et Hallow) as (s & -> & Hin & Hor)
  end.
  match goal with
  | Hf : (if negb (is_undefined (lookup "choice" fields)) && _ then _ else _) = Normal _ |- _ =>
      apply followed_inv in Hf as [-> Hcs]
  end.
  match goal with
  | Hr : (if negb (is_undefined (lookup "_ts_seq" fields)) then _ else _) = Normal _ |- _ =>
      apply row_id_inv in Hr as [-> Hseq]
  end.
  match goal with
  | Hu : unifiedResponse (VObj fields) _ = Normal _ |- _ =>
      pose proof (unifiedResponse_probe _ _ _ Hu) as Hsv
  end.
  match goal with
  | Hq : (if eq_str _ "questionnaire" then _ else _) = Normal ?isQ |- _ =>
      cbn [lookup String.eqb Ascii.eqb Bool.eqb] in Hq; rewrite Hor in Hq;
      assert (HisQ : isQ = is_questionnaire_type s)
  end.
  { unfold is_questionnaire_type. cbn [eq_str call_startsWith bindC] in *.
    match goal with
    | Hq : (if String.eqb s "questionnaire" then _ else _) = Normal _ |- _ =>
        destruct (String.eqb s "questionnaire") eqn:Hs; injection Hq as <-
    end; [ | reflexivity ].
    apply String.eqb_eq in Hs. subst s. reflexivity. }
  subst.
  do 5 eexists.
  repeat match goal with
         | |- _ /\ _ => split
         | |- exists _, _ => eexists
         end; try eassumption; try reflexivity.
  all: try (cbn [lookup String.eqb Ascii.eqb Bool.eqb]; eassumption).
  - match goal with
    | H1 : eq_true _ || _ = false, H2 : eq_str _ "training_demo" = false |- _ =>
        now rewrite H1, H2
    end.
  - unfold converts. cbn [get].
    match goal with Het : mapEventType _ = Normal _ |- _ => rewrite Het end.
    now rewrite Hcs, Hseq, Hsv.
Qed.

(** Why a record was dropped. *)
Lemma buildRow_dropped (amb : Ambient) (summary : UASummary) (setId : val)
    (flag : bool) (d : val) (flag' : bool) :
  buildRow amb summary setId flag d = Normal (None, flag') ->
  retained d = false /\ flag' = flag.
Proof.
  intros H. unfold buildRow in H. unfold retained.
  destruct (mapEventType d) as [et | ]; [ | discriminate H ].
  destruct (get d "trial_type") as [ty | ]; [ | discriminate H ].
  cbn [bindC] in H.
  destruct (set_has IGNORE_TRIAL_TYPES (or_else ty (VStr EmptyString))
            || negb (set_has ALLOW_TYPES et)) eqn:Hfilter.
  { injection H as <-. destruct (get d "is_demo"); auto. }
  destruct (get d "is_demo") as [demo | ]; [ | discriminate H ]. cbn [bindC] in H.
  destruct (eq_true demo || eq_str et "training_demo") eqn:Hdemo.
  { injection H as <-. auto. }
  destruct (eq_str ty "training_demo") eqn:Hdemo2.
  { injection H as <-. cbn. auto. }
  exfalso. bind_inv H; discriminate H.
Qed.

Lemma buildRow_retained_iff (amb : Ambient) (summary : UASummary) (setId : val)
    (flag : bool) (d : val) (r : option (list (string * val))) (flag' : bool) :
  buildRow amb summary setId flag d = Normal (r, flag') ->
  retained d = match r with Some _ => true | None => false end.
Proof.
  intros H. destruct r as [row | ].
  - destruct (buildRow_retained amb summary setId flag d row flag' H)
      as (et & ty & demo & es & base & Het & Hty & Hdemo & Hign & Hallow & Hnodemo & _).
    unfold retained. now rewrite Het, Hty, Hdemo, Hign, Hallow, Hnodemo.
  - now destruct (buildRow_dropped amb summary setId flag d flag' H).
Qed.

(** The callback returns on a record that is dropped, and on a retained one
    whose conversions go through. *)
Lemma buildRow_ok (amb : Ambient) (summary : UASummary) (setId : val)
    (flag : bool) (d : val) :
  is_nullish d = false -> (retained d = true -> converts d = true) ->
  ok (buildRow amb summary setId flag d).
Proof.
  intros Hd Hconv.
  destruct d as [ | | b | n | s | items | fields ]; try discriminate Hd; try reflexivity.
  unfold buildRow.
  destruct (ok_inv _ (mapEventType_ok (VObj fields) eq_refl)) as [et Het].
  rewrite Het. cbn [get bindC defined_or_null].
  destruct (set_has IGNORE_TRIAL_TYPES (or_else (lookup "trial_type" fields) (VStr EmptyString))
            || negb (set_has ALLOW_TYPES et)) eqn:Hfilter; [ apply ok_Normal | ].
  destruct (eq_true (lookup "is_demo" fields) || eq_str et "training_demo") eqn:Hdemo;
    [ apply ok_Normal | ].
  destruct (eq_str (lookup "trial_type" fields) "training_demo") eqn:Hdemo2;
    [ apply ok_Normal | ].
  assert (Hret : retained (VObj fields) = true).
  { unfold retained. rewrite Het. cbn [get]. now rewrite Hfilter, Hdemo, Hdemo2. }
  specialize (Hconv Hret). unfold converts in Hconv. rewrite Het in Hconv. cbn [get] in Hconv.
  apply andb_prop in Hconv as [Hconv Hsv]. apply andb_prop in Hconv as [Hcs Hseq].
  apply negb_true_iff in Hseq.
  apply orb_false_elim in Hfilter as [_ Hallow].
  apply negb_false_iff in Hallow. destruct (set_has_string _ _ Hallow) as [ets ->].
  apply ok_bind; [ now apply followed_ok | intros followed _ ].
  repeat first
    [ apply row_id_ok; assumption
    | apply unifiedResponse_ok; assumption
    | apply baseName_ok
    | ok_step ].
  all: try (apply truthy_not_nullish; assumption).
  - (* [d.risk_overrides.risk_key] is read under [d.risk_overrides && ...] *)
    match goal with
    | G : (if truthy ?x then _ else _) = Normal ?g, T : truthy ?g = true
      |- is_nullish ?x = false =>
        destruct (truthy x) eqn:Hx;
        [ now apply truthy_not_nullish | injection G as <-; congruence ]
    end.
  - (* the same for [risk_value] *)
    match goal with
    | G : (if truthy ?x then _ else _) = Normal true |- is_nullish ?x = false =>
        destruct (truthy x) eqn:Hx;
        [ now apply truthy_not_nullish | discriminate G ]
    end.
  - (* [ets.startsWith]: the event type passed the allow-list, so it is a string *)
    cbn [lookup String.eqb Ascii.eqb Bool.eqb].
    destruct (or_else_string ets) as [s' ->]. reflexivity.
  - match goal with
    | |- ok match (if ?q then _ else _) with _ => _ end =>
        assert (Hq : ok (if q then extractQuestionnaireFields (VObj fields)
                         else Normal no_qfields))
          by (destruct q; [ now apply extractQuestionnaireFields_ok | apply ok_Normal ]);
        destruct (ok_inv _ Hq) as [qf ->]
    end.
    apply ok_Normal.
Qed.

(** The callback returns exactly on the array elements that are
    [normalizable]. *)
Lemma buildRow_returns_iff (amb : Ambient) (summary : UASummary) (setId : val)
    (flag : bool) (d : val) :
  ok (buildRow amb summary setId flag d) <-> normalizable d = true.
Proof.
  unfold normalizable. split.
  - intros Hok. destruct (ok_inv _ Hok) as [[r f] Hrow].
    destruct (is_nullish d) eqn:Hd.
    { unfold buildRow, mapEventType in Hrow.
      rewrite (get_nullish_throws d _ Hd) in Hrow. discriminate Hrow. }
    cbn [negb andb].
    rewrite (buildRow_retained_iff amb summary setId flag d r f Hrow).
    destruct r as [row | ]; [ | reflexivity ]. cbn [negb orb].
    now destruct (buildRow_retained amb summary setId flag d row f Hrow)
      as (et & ty & demo & es & base & _ & _ & _ & _ & _ & _ & _ & _ & _ & _ & _
          & _ & _ & _ & _ & _ & _ & _ & Hc & _).
  - intros H. apply andb_prop in H as [Hd H]. apply negb_true_iff in Hd.
    apply buildRow_ok; [ exact Hd | ].
    intros Hret. rewrite Hret in H. exact H.
Qed.

(** A record outside the allow-list gives no row and leaves the flag alone. *)
Lemma buildRow_unclassifiable (amb : Ambient) (summary : UASummary)
    (setId : val) (flag : bool) (d : val) :
  is_nullish d = false -> classifiable d = false ->
  buildRow amb summary setId flag d = Normal (None, flag).
Proof.
  intros Hd Hc. unfold classifiable in Hc. unfold buildRow.
  destruct (ok_inv _ (mapEventType_ok d Hd)) as [et Het]. rewrite Het in *. cbn [bindC].
  destruct (ok_inv _ (get_ok d "trial_type" Hd)) as [tt ->]. cbn [bindC].
  rewrite Hc. now rewrite orb_true_r.
Qed.

(** A record that is not retained gives no row and leaves the flag alone. *)
Lemma buildRow_unretained (amb : Ambient) (summary : UASummary)
    (setId : val) (flag : bool) (d : val) :
  is_nullish d = false -> retained d = false ->
  buildRow amb summary setId flag d = Normal (None, flag).
Proof.
  intros Hd Hret.
  assert (Hok : ok (buildRow amb summary setId flag d))
    by (apply buildRow_ok; [ exact Hd | congruence ]).
  destruct (ok_inv _ Hok) as [[r f] Hrow]. rewrite Hrow.
  pose proof (buildRow_retained_iff amb summary setId flag d r f Hrow) as Hiff.
  rewrite Hret in Hiff. destruct r as [row | ]; [ discriminate Hiff | ].
  now destruct (buildRow_dropped amb summary setId flag d f Hrow) as [_ ->].
Qed.

(** *** The array *)

Lemma mapTrials_returns_iff (amb : Ambient) (summary : UASummary) (setId : val)
    (allTrials : list val) :
  forall flag : bool,
    ok (fst (mapTrials amb summary setId flag allTrials))
    <-> Forall (fun d => normalizable d = true) allTrials.
Proof.
  induction allTrials as [ | d rest IH ]; intros flag; cbn [mapTrials].
  - split; [ constructor | reflexivity ].
  - pose proof (buildRow_returns_iff amb summary setId flag d) as Hd.
    destruct (buildRow amb summary setId flag d) as [[r f1] | ].
    + specialize (IH f1).
      destruct (mapTrials amb summary setId f1 rest) as [rs f2]. cbn [fst] in *.
      split.
      * intros Hok. constructor; [ now apply Hd | ].
        apply IH. destruct rs; [ reflexivity | discriminate Hok ].
      * intros Hall. inversion Hall as [ | ? ? _ Hrest ]; subst.
        apply IH in Hrest. destruct (ok_inv _ Hrest) as [rows ->]. reflexivity.
    + cbn [fst]. split; [ discriminate | ].
      intros Hall. inversion Hall as [ | ? ? Hn _ ]; subst. now apply Hd in Hn.
Qed.

Lemma mapTrials_origin (amb : Ambient) (summary : UASummary) (setId : val)
    (allTrials : list val) :
  forall (flag : bool) rs flag',
    mapTrials amb summary setId flag allTrials = (Normal rs, flag') ->
    forall row, In row (filterBoolean rs) ->
      exists d f1 f2, In d allTrials
        /\ buildRow amb summary setId f1 d = Normal (Some row, f2).
Proof.
  induction allTrials as [ | d rest IH ]; intros flag rs flag' H row Hin; cbn [mapTrials] in H.
  - injection H as <- <-. contradiction.
  - destruct (buildRow amb summary setId flag d) as [[r f1] | ] eqn:Hrow; [ | discriminate H ].
    destruct (mapTrials amb summary setId f1 rest) as [[rs' | ] f2] eqn:Hrest;
      cbn [bindC] in H; [ | discriminate H ].
    injection H as <- <-.
    destruct r as [row0 | ]; cbn [filterBoolean] in Hin.
    + destruct Hin as [<- | Hin].
      * exists d, flag, f1. split; [ now left | exact Hrow ].
      * destruct (IH f1 rs' f2 Hrest row Hin) as (d' & g1 & g2 & Hd' & Hb).
        exists d', g1, g2. split; [ now right | exact Hb ].
    + destruct (IH f1 rs' f2 Hrest row Hin) as (d' & g1 & g2 & Hd' & Hb).
      exists d', g1, g2. split; [ now right | exact Hb ].
Qed.

(** One row per retained record, in order. *)
Lemma mapTrials_event_types (amb : Ambient) (summary : UASummary) (setId : val)
    (allTrials : list val) :
  forall (flag : bool) rs flag',
    mapTrials amb summary setId flag allTrials = (Normal rs, flag') ->
    map (lookup "event_type") (filterBoolean rs)
    = map eventTypeOf (filter retained allTrials).
Proof.
  induction allTrials as [ | d rest IH ]; intros flag rs flag' H; cbn [mapTrials] in H.
  - injection H as <- <-. reflexivity.
  - destruct (buildRow amb summary setId flag d) as [[r f1] | ] eqn:Hrow; [ | discriminate H ].
    destruct (mapTrials amb summary setId f1 rest) as [[rs' | ] f2] eqn:Hrest;
      cbn [bindC] in H; [ | discriminate H ].
    injection H as <- <-. cbn [filter].
    rewrite (buildRow_retained_iff amb summary setId flag d r f1 Hrow).
    destruct r as [row | ]; cbn [filterBoolean map]; [ | now apply (IH f1 rs' f2) ].
    f_equal; [ | now apply (IH f1 rs' f2) ].
    destruct (buildRow_retained amb summary setId flag d row f1 Hrow)
      as (et & ty & demo & es & base & Het & _ & _ & _ & _ & _ & _ & -> & _ & Hbase & _).
    unfold eventTypeOf. rewrite Het, <- Hbase.
    now apply lookup_passThrough_reserved.
Qed.


Lemma setId_ok (amb : Ambient) :
  ok (guard <- (if truthy (CONFIG amb) then get (CONFIG amb) "set_id"
                else Normal (CONFIG amb)) ;;
      if truthy guard then get (CONFIG amb) "set_id" else Normal VNull).
Proof.
  destruct (truthy (CONFIG amb)) eqn:HC.
  - apply ok_bind; [ apply get_ok; now apply truthy_not_nullish | intros g _ ].
    destruct (truthy g); [ apply get_ok; now apply truthy_not_nullish | apply ok_Normal ].
  - cbn [bindC]. rewrite HC. apply ok_Normal.
Qed.

(** *** The call *)

Lemma buildRowsForLogging_returns_iff (amb : Ambient) (flag : option bool)
    (allTrials : list val) :
  ok (fst (buildRowsForLogging amb flag allTrials))
  <-> Forall (fun d => normalizable d = true) allTrials.
Proof.
  unfold buildRowsForLogging.
  destruct (ok_inv _ (setId_ok amb)) as [setId ->].
  pose proof (mapTrials_returns_iff amb (parseUA (userAgent amb)) setId allTrials
                match flag with Some b => b | None => false end) as H.
  destruct (mapTrials amb (parseUA (userAgent amb)) setId
              match flag with Some b => b | None => false end allTrials) as [[rs | ] f];
    cbn [fst bindC] in *; [ | exact H ].
  split; [ intros _; now apply H | reflexivity ].
Qed.

Lemma buildRowsForLogging_event_types (amb : Ambient) (flag : option bool)
    (allTrials : list val) (rows : list (list (string * val))) :
  fst (buildRowsForLogging amb flag allTrials) = Normal rows ->
  map (lookup "event_type") rows = map eventTypeOf (filter retained allTrials).
Proof.
  unfold buildRowsForLogging.
  destruct (ok_inv _ (setId_ok amb)) as [setId ->].
  destruct (mapTrials amb (parseUA (userAgent amb)) setId
              match flag with Some b => b | None => false end allTrials)
    as [[rs | ] f] eqn:Hmap; cbn; [ | discriminate ].
  intros [= <-]. exact (mapTrials_event_types amb _ setId _ _ rs f Hmap).
Qed.





(** A [null] element is not a record, and reading its [event_type] throws. *)
Lemma buildRowsForLogging_null_throws (amb : Ambient) (flag : option bool) :
  CONFIG amb = VUndefined ->
  fst (buildRowsForLogging amb flag [VNull]) = Threw.
Proof. intros HC. unfold buildRowsForLogging. rewrite HC. reflexivity. Qed.

(** *** The user agent is emitted once *)

(** What the callback does with the user agent: a retained row carries it
    exactly when the flag is still down, and raises the flag if the string is
    not empty; a dropped record changes nothing. *)
Lemma buildRow_user_agent (amb : Ambient) (summary : UASummary) (setId : val)
    (flag : bool) (d : val) (r : option (list (string * val))) (flag' : bool) :
  buildRow amb summary setId flag d = Normal (r, flag') ->
  match r with
  | Some row =>
      lookup "user_agent" row = (if flag then VNull else VStr (userAgent amb))
      /\ flag' = (flag || negb (String.eqb (userAgent amb) EmptyString))
  | None => flag' = flag
  end.
Proof.
  intros H. destruct r as [row | ];
    [ | now destruct (buildRow_dropped amb summary setId flag d flag' H) ].
  assert (Hobj : exists fields, d = VObj fields).
  { destruct d; try (cbn in H; discriminate H); eauto. }
  destruct Hobj as [fields ->].
  unfold buildRow in H. cbn [get bindC defined_or_null] in H.
  bind_inv H; try discriminate H. injection H as <- <-.
  split;
    [ rewrite lookup_passThrough_reserved
        by first [ reflexivity | do 2 apply set_field_keeps_keys; reflexivity ];
      rewrite ?lookup_set_field_other by reflexivity; reflexivity
    | destruct flag; cbn; [ reflexivity | ];
      destruct (negb (String.eqb (userAgent amb) EmptyString)); reflexivity ].
Qed.

Lemma ua_once_app (ua : string) (b b1 b2 : bool) (rows1 rows2 : list (list (string * val))) :
  ua_once ua b rows1 b1 -> ua_once ua b1 rows2 b2 -> ua_once ua b (rows1 ++ rows2) b2.
Proof.
  unfold ua_once. destruct b.
  - intros [H1 ->] [H2 ->]. split; [ now apply Forall_app | reflexivity ].
  - destruct rows1 as [ | first later ]; cbn [app].
    + intros ->. trivial.
    + intros (Hf & Hl & ->) [H2 ->]. repeat split; trivial. now apply Forall_app.
Qed.

Lemma ua_first_only_app (ua : string) (b b1 b2 : bool)
    (rows1 rows2 : list (list (string * val))) :
  ua_first_only ua b rows1 b1 -> ua_first_only ua b1 rows2 b2 ->
  (rows1 = [] -> b = true -> b1 = true) ->
  ua_first_only ua b (rows1 ++ rows2) b2.
Proof.
  unfold ua_first_only. destruct b.
  - destruct rows1 as [ | first later ].
    + intros _ H2 Hmono. now rewrite (Hmono eq_refl eq_refl) in H2.
    + intros [H1 ->] [H2 ->] _. split; [ now apply Forall_app | reflexivity ].
  - destruct rows1 as [ | first later ]; cbn [app].
    + intros _ H2 _. destruct b1; [ | exact H2 ].
      destruct H2 as [H2 ->]. destruct rows2 as [ | r rest ]; [ trivial | ].
      inversion H2; subst. auto.
    + intros (Hf & Hl & ->) [H2 ->] _. repeat split; trivial. now apply Forall_app.
Qed.

Lemma mapTrials_ua_once (amb : Ambient) (summary : UASummary) (setId : val)
    (allTrials : list val) :
  userAgent amb <> EmptyString ->
  forall (flag : bool) rs flag',
    mapTrials amb summary setId flag allTrials = (Normal rs, flag') ->
    ua_once (userAgent amb) flag (filterBoolean rs) flag'.
Proof.
  intros Hua. apply String.eqb_neq in Hua.
  induction allTrials as [ | d rest IH ]; intros flag rs flag' H; cbn [mapTrials] in H.
  - injection H as <- <-. unfold ua_once. destruct flag; cbn; auto.
  - destruct (buildRow amb summary setId flag d) as [[r f1] | ] eqn:Hrow; [ | discriminate H ].
    destruct (mapTrials amb summary setId f1 rest) as [[rs' | ] f2] eqn:Hrest;
      cbn [bindC] in H; [ | discriminate H ].
    injection H as <- <-. specialize (IH f1 rs' f2 Hrest).
    apply buildRow_user_agent in Hrow. destruct r as [row | ].
    + destruct Hrow as [Hrowua ->]. rewrite Hua in *. cbn [negb] in *.
      rewrite orb_true_r in IH. cbn [filterBoolean].
      apply (@ua_once_app (userAgent amb) flag true f2 [row] (filterBoolean rs')); [ | exact IH ].
      unfold ua_once. destruct flag; cbn; auto.
    + subst f1. exact IH.
Qed.

(** The flag is never lowered, also by a call that throws. *)
Lemma mapTrials_flag_stays (amb : Ambient) (summary : UASummary) (setId : val)
    (allTrials : list val) :
  forall flag : bool,
    flag = true -> snd (mapTrials amb summary setId flag allTrials) = true.
Proof.
  induction allTrials as [ | d rest IH ]; intros flag Hflag; cbn [mapTrials].
  - exact Hflag.
  - destruct (buildRow amb summary setId flag d) as [[r f1] | ] eqn:Hrow; [ | exact Hflag ].
    apply buildRow_user_agent in Hrow.
    assert (Hf1 : f1 = true).
    { destruct r as [row | ]; [ destruct Hrow as [_ ->]; now rewrite Hflag | now subst ]. }
    specialize (IH f1 Hf1).
    destruct (mapTrials amb summary setId f1 rest) as [rs f2]. exact IH.
Qed.

Lemma ua_once_first_only (ua : string) (b b' : bool) (rows : list (list (string * val))) :
  ua_once ua b rows b' -> (b = true -> b' = true) -> ua_first_only ua b rows b'.
Proof.
  unfold ua_once, ua_first_only. destruct b; [ trivial | ].
  destruct rows as [ | first later ]; [ trivial | ]. intros (Hf & Hl & Hb) _. auto.
Qed.

(** One call, whether it returns or throws. *)
Lemma buildRowsForLogging_ua (amb : Ambient) (flag : option bool) (allTrials : list val) :
  userAgent amb <> EmptyString ->
  let c := buildRowsForLogging amb flag allTrials in
  ua_first_only (userAgent amb) (flag_up flag) (emitted (fst c)) (flag_up (snd c))
  /\ (flag_up flag = true -> flag_up (snd c) = true)
  /\ (ok (fst c) ->
      ua_once (userAgent amb) (flag_up flag) (emitted (fst c)) (flag_up (snd c))).
Proof.
  intros Hua. cbn zeta. unfold buildRowsForLogging.
  destruct (ok_inv _ (setId_ok amb)) as [setId ->]. fold (flag_up flag).
  pose proof (mapTrials_flag_stays amb (parseUA (userAgent amb)) setId allTrials
                (flag_up flag)) as Hstay.
  pose proof (mapTrials_ua_once amb (parseUA (userAgent amb)) setId allTrials Hua
                (flag_up flag)) as Honce.
  destruct (mapTrials amb (parseUA (userAgent amb)) setId (flag_up flag) allTrials)
    as [[rs | ] f]; cbn [fst snd bindC emitted flag_up] in *.
  - specialize (Honce rs f eq_refl).
    split; [ now apply ua_once_first_only | split; [ exact Hstay | intros _; exact Honce ] ].
  - split; [ | split; [ exact Hstay | discriminate ] ].
    unfold ua_first_only. destruct (flag_up flag); [ | trivial ].
    split; [ constructor | now apply Hstay ].
Qed.

Lemma session_ua_first_only (amb : Ambient) (calls : list (list val)) :
  userAgent amb <> EmptyString ->
  forall flag : option bool,
    ua_first_only (userAgent amb) (flag_up flag)
      (fst (session amb flag calls)) (flag_up (snd (session amb flag calls)))
    /\ (flag_up flag = true -> flag_up (snd (session amb flag calls)) = true).
Proof.
  intros Hua. induction calls as [ | allTrials rest IH ]; intros flag; cbn [session].
  - cbn [fst snd]. split; [ | trivial ].
    unfold ua_first_only. destruct (flag_up flag); cbn; auto.
  - destruct (buildRowsForLogging_ua amb flag allTrials Hua) as (Hcall & Hmono & _).
    cbn zeta in Hcall, Hmono.
    destruct (buildRowsForLogging amb flag allTrials) as [c flag1].
    specialize (IH flag1). destruct IH as [IH IHmono].
    destruct (session amb flag1 rest) as [rows' flag2].
    cbn [fst snd] in *. split; [ | auto ].
    apply (ua_first_only_app _ _ _ _ _ _ Hcall IH). intros _. exact Hmono.
Qed.

Lemma session_ua_once (amb : Ambient) (calls : list (list val)) :
  userAgent amb <> EmptyString ->
  Forall (Forall (fun d => normalizable d = true)) calls ->
  forall flag : option bool,
    ua_once (userAgent amb) (flag_up flag)
      (fst (session amb flag calls)) (flag_up (snd (session amb flag calls))).
Proof.
  intros Hua Hall. induction Hall as [ | allTrials rest Hcall _ IH ]; intros flag;
    cbn [session].
  - cbn [fst snd]. unfold ua_once. destruct (flag_up flag); cbn; auto.
  - destruct (buildRowsForLogging_ua amb flag allTrials Hua) as (_ & _ & Honce).
    cbn zeta in Honce.
    apply buildRowsForLogging_returns_iff with (amb := amb) (flag := flag) in Hcall.
    specialize (Honce Hcall).
    destruct (buildRowsForLogging amb flag allTrials) as [c flag1].
    specialize (IH flag1).
    destruct (session amb flag1 rest) as [rows' flag2].
    cbn [fst snd] in *.
    exact (ua_once_app _ _ _ _ _ _ Honce IH).
Qed.

(** C6, as amended.  In a session whose user agent string is not empty, over
    any number of calls of the normalizer on any arrays, the raw user agent
    is on no emitted row but the first of the session: every later row, of
    the same call or of a later one, has a null [user_agent], and once a row
    has been emitted the flag [window.__UA_EMITTED__] stays up.  The first
    row emitted carries the raw user agent if all the calls return; a call
    that throws after one of its records has raised the flag emits nothing,
    and then the first row of the session has a null [user_agent] too. *)
Theorem user_agent_emitted_once (amb : Ambient) (calls : list (list val)) :
  userAgent amb <> EmptyString ->
  match fst (session amb None calls) with
  | [] => True
  | first :: later =>
      (lookup "user_agent" first = VStr (userAgent amb)
       \/ lookup "user_agent" first = VNull)
      /\ Forall (fun r => lookup "user_agent" r = VNull) later
      /\ snd (session amb None calls) = Some true
      /\ (Forall (Forall (fun d => normalizable d = true)) calls ->
          lookup "user_agent" first = VStr (userAgent amb))
  end.
Proof.
  intros Hua.
  destruct (session_ua_first_only amb calls Hua None) as [H _].
  pose proof (fun Hall => session_ua_once amb calls Hua Hall None) as Hexact.
  unfold ua_first_only, ua_once in *. cbn [flag_up] in *.
  destruct (session amb None calls) as [rows flag]. cbn [fst snd] in *.
  destruct rows as [ | first later ]; [ trivial | ].
  destruct H as (Hf & Hl & Hflag). repeat split; trivial.
  - destruct flag as [[ | ] | ]; cbn in Hflag; congruence.
  - intros Hall. now destruct (Hexact Hall).
Qed.

End NormalizerFacts.

(* ===================================================================== *)
(** * Properties of the queue                                             *)
(* ===================================================================== *)

Section QueueFacts.

Context {Row : Type}.

Lemma js_slice_prefix {A} (l : list A) (limit : Z) :
  0 <= limit -> js_slice l 0 limit = firstn (Z.to_nat limit) l.
Proof.
  intros Hl. unfold js_slice. change (0 <? 0) with false. cbv iota.
  destruct (Z.ltb_spec limit 0) as [Hneg | _]; [ lia | ].
  rewrite (Z.min_l 0) by lia. cbn [Z.to_nat skipn]. rewrite Z.sub_0_r.
  destruct (Z.le_ge_cases limit (Z.of_nat (List.length l))) as [Hle | Hge].
  - now rewrite Z.min_l by lia.
  - rewrite Z.min_r by lia. rewrite Nat2Z.id.
    rewrite firstn_all. symmetry. apply firstn_all2. lia.
Qed.

Lemma ls_entries_rows (rows : list Row) (i : Z) :
  map (@row Row) (ls_entries i rows) = rows.
Proof.
  revert i. induction rows as [ | r rest IH ]; intros i; cbn; [ reflexivity | ].
  now rewrite IH.
Qed.

Lemma ls_entries_length (rows : list Row) (i : Z) :
  List.length (ls_entries i rows) = List.length rows.
Proof.
  revert i. induction rows as [ | r rest IH ]; intros i; cbn; [ reflexivity | ].
  now rewrite IH.
Qed.

(** The cursor loop collects the head of the store. *)
Lemma cursor_spec (limit : Z) (evs : list (Z * IdbRecord Row)) (out : list (QueueEntry Row)) :
  cursor limit evs out
  = out ++ map (@entry_of Row) (firstn (Z.to_nat (limit - Z.of_nat (List.length out))) evs).
Proof.
  revert out. induction evs as [ | [k rcd] rest IH ]; intros out; cbn [cursor].
  - rewrite firstn_nil. cbn. now rewrite app_nil_r.
  - destruct (Z.of_nat (List.length out) <? limit) eqn:Hlt.
    + apply Z.ltb_lt in Hlt. rewrite IH. rewrite length_app. cbn [List.length].
      replace (Z.to_nat (limit - Z.of_nat (List.length out)))
        with (S (Z.to_nat (limit - Z.of_nat (List.length out + 1)))) by lia.
      cbn [firstn map]. rewrite <- app_assoc. reflexivity.
    + apply Z.ltb_ge in Hlt.
      replace (Z.to_nat (limit - Z.of_nat (List.length out))) with O by lia.
      cbn. now rewrite app_nil_r.
Qed.

(** [idbReadBatch] returns the first [limit] rows of the queue, oldest first,
    in either backend. *)
Lemma idbReadBatch_head (limit : Z) (s : Store Row) (batch : list (QueueEntry Row)) :
  0 <= limit ->
  idbReadBatch limit IoOk s = Normal batch ->
  map (@row Row) batch = firstn (Z.to_nat limit) (queue_rows s).
Proof.
  intros Hl. unfold idbReadBatch, queue_rows.
  destruct (idb_available s); cbn [negb]; intros [= <-].
  - rewrite cursor_spec. cbn [app List.length]. rewrite Z.sub_0_r.
    rewrite map_map. cbn. now rewrite firstn_map.
  - rewrite ls_entries_rows. now apply js_slice_prefix.
Qed.

Lemma filter_above (k : Z) (evs : list (Z * IdbRecord Row)) :
  Forall (Z.lt k) (map fst evs) ->
  filter (fun e => negb (fst e =? k)) evs = evs.
Proof.
  induction evs as [ | [k' r] rest IH ]; cbn; [ reflexivity | ].
  intros H. inversion H as [ | ? ? Hk Hrest ]; subst.
  destruct (k' =? k) eqn:Heq; [ lia | ]. cbn. now rewrite IH.
Qed.

(** Deleting the keys of the first [n] records leaves the others. *)
Lemma delete_head (n : nat) (evs : list (Z * IdbRecord Row)) :
  StronglySorted Z.lt (map fst evs) ->
  fold_left (fun acc it => deleteKey (id it) acc) (map (@entry_of Row) (firstn n evs)) evs
  = skipn n evs.
Proof.
  revert evs. induction n as [ | n IH ]; intros evs Hs; [ reflexivity | ].
  destruct evs as [ | [k r] rest ]; [ reflexivity | ].
  cbn [firstn map fold_left skipn entry_of id fst deleteKey filter].
  rewrite Z.eqb_refl. cbn [negb]. cbn in Hs. apply StronglySorted_inv in Hs as [Hrest Hk].
  rewrite filter_above by exact Hk. now apply IH.
Qed.

Lemma idbReadBatch_idb (limit : Z) (s : Store Row) :
  idb_available s = true ->
  idbReadBatch limit IoOk s
  = Normal (map (@entry_of Row) (firstn (Z.to_nat limit) (idb_events s))).
Proof.
  intros Hidb. unfold idbReadBatch. rewrite Hidb. cbn [negb].
  rewrite cursor_spec. cbn [app List.length]. now rewrite Z.sub_0_r.
Qed.

Lemma StronglySorted_skipn (n : nat) (l : list Z) :
  StronglySorted Z.lt l -> StronglySorted Z.lt (skipn n l).
Proof.
  revert l. induction n as [ | n IH ]; intros l H; [ exact H | ].
  destruct l; [ exact H | ]. cbn. apply IH. now apply StronglySorted_inv in H.
Qed.

Lemma Forall_skipn {A} (P : A -> Prop) (n : nat) (l : list A) :
  Forall P l -> Forall P (skipn n l).
Proof.
  revert l. induction n as [ | n IH ]; intros l H; [ exact H | ].
  destruct l; [ exact H | ]. cbn. apply IH. now inversion H.
Qed.

Lemma skipn_length_firstn {A B} (n : nat) (l : list A) (l' : list B) :
  List.length l = List.length l' ->
  skipn (List.length (firstn n l')) l = skipn n l.
Proof.
  revert l l'. induction n as [ | n IH ]; intros l l' H; [ reflexivity | ].
  destruct l, l'; try discriminate; [ reflexivity | ].
  cbn. apply IH. now injection H.
Qed.

(** Deleting the batch just read removes exactly its rows, from the head, in
    either backend. *)
Lemma idbDeleteIds_head (limit : Z) (s s' : Store Row) (batch : list (QueueEntry Row)) :
  store_wf s ->
  idbReadBatch limit IoOk s = Normal batch ->
  idbDeleteIds batch IoOk s = Normal s' ->
  queue_rows s' = skipn (List.length batch) (queue_rows s)
  /\ store_wf s' /\ idb_available s' = idb_available s.
Proof.
  intros [Hsorted Hbelow] Hread. unfold idbDeleteIds, queue_rows, store_wf.
  destruct (idb_available s) eqn:Hidb; cbn [negb]; intros [= <-]; cbn; rewrite ?Hidb.
  - rewrite idbReadBatch_idb in Hread by exact Hidb. injection Hread as <-.
    rewrite delete_head by exact Hsorted. rewrite length_map.
    set (n := Z.to_nat limit).
    rewrite (skipn_length_firstn n (map (fun e => rec_row (snd e)) (idb_events s))
               (idb_events s)) by now rewrite length_map.
    repeat split.
    + now rewrite skipn_map.
    + rewrite <- skipn_map. now apply StronglySorted_skipn.
    + rewrite <- skipn_map. now apply Forall_skipn.
  - repeat split; assumption.
Qed.

Lemma sorted_snoc (ks : list Z) (next : Z) :
  StronglySorted Z.lt ks -> Forall (fun k => k < next) ks ->
  StronglySorted Z.lt (ks ++ [next]).
Proof.
  induction ks as [ | k ks IH ]; cbn; intros Hs Hb.
  - repeat constructor.
  - apply StronglySorted_inv in Hs as [Hs Hk]. inversion Hb; subst.
    constructor; [ now apply IH | ].
    apply Forall_app. split; [ exact Hk | now repeat constructor ].
Qed.

Lemma addAll_spec (now : Z) (rows : list Row) (evs : list (Z * IdbRecord Row)) (next : Z) :
  let '(evs', next') := addAll now rows evs next in
  map (fun e => rec_row (snd e)) evs' = map (fun e => rec_row (snd e)) evs ++ rows
  /\ (StronglySorted Z.lt (map fst evs) -> Forall (fun k => k < next) (map fst evs) ->
      StronglySorted Z.lt (map fst evs') /\ Forall (fun k => k < next') (map fst evs')).
Proof.
  revert evs next. induction rows as [ | r rest IH ]; intros evs next; cbn [addAll].
  - rewrite app_nil_r. split; [ reflexivity | tauto ].
  - specialize (IH (evs ++ [(next, {| createdAt := now; rec_row := r |})]) (next + 1)).
    destruct (addAll now rest _ (next + 1)) as [evs' next'].
    destruct IH as (Hrows & Hwf). split.
    + rewrite Hrows, map_app, <- app_assoc. reflexivity.
    + intros Hs Hb. apply Hwf; rewrite map_app; cbn [map fst].
      * now apply sorted_snoc.
      * apply Forall_app. split.
        -- eapply Forall_impl; [ | exact Hb ]. cbn. intros; lia.
        -- repeat constructor. lia.
Qed.

(** Enqueueing appends, in argument order, behind what is already queued. *)
Lemma idbPutAll_appends (rows : list Row) (now : Z) (s s' : Store Row) :
  idbPutAll rows now IoOk s = Normal s' ->
  queue_rows s' = queue_rows s ++ rows
  /\ (store_wf s -> store_wf s') /\ idb_available s' = idb_available s.
Proof.
  unfold idbPutAll, queue_rows, store_wf.
  destruct (idb_available s) eqn:Hidb; cbn [negb].
  - pose proof (addAll_spec now rows (idb_events s) (idb_next_key s)) as H.
    destruct (addAll now rows (idb_events s) (idb_next_key s)) as [evs' next'].
    intros [= <-]. cbn. rewrite Hidb. destruct H as (Hrows & Hwf).
    repeat split; try tauto.
  - intros [= <-]. cbn. rewrite Hidb. tauto.
Qed.

Lemma store_wf_empty (idb : bool) : store_wf (@empty_store Row idb).
Proof. split; constructor. Qed.

Lemma clearStore_wf (io : IoOutcome) (s s' : Store Row) :
  clearStore io s = Normal s' -> store_wf s -> store_wf s'.
Proof.
  unfold clearStore. destruct (idb_available s); cbn [negb]; destruct io;
    try discriminate; intros [= <-]; try tauto.
  intros _. split; constructor.
Qed.

End QueueFacts.

(* ===================================================================== *)
(** * Properties of the delivery engine                                   *)
(* ===================================================================== *)

Section DeliveryFacts.

Context {Row : Type}.

Lemma store_withdraw_if (b : bool) (st : State Row) :
  store (withdraw_if b st) = store st.
Proof. now destruct b. Qed.

Lemma discard_withdraw_if (b : bool) (st : State Row) :
  DISCARD_DATA (withdraw_if b st) = DISCARD_DATA st || b.
Proof. destruct b; cbn; [ now rewrite orb_true_r | now rewrite orb_false_r ]. Qed.

Lemma network_withdraw_if (b : bool) (st : State Row) :
  network (withdraw_if b st) = network st.
Proof. now destruct b. Qed.

Lemma idbReadBatch_nonempty (batchSize : Z) (s : Store Row) :
  0 < batchSize -> queue_rows s <> [] ->
  exists b0 bs, idbReadBatch batchSize IoOk s = Normal (b0 :: bs).
Proof.
  intros Hn Hq.
  assert (Hread : exists batch, idbReadBatch batchSize IoOk s = Normal batch)
    by (unfold idbReadBatch; destruct (idb_available s); cbn; eauto).
  destruct Hread as [batch Hread].
  pose proof (idbReadBatch_head batchSize s batch ltac:(lia) Hread) as Hrows.
  destruct batch as [ | b0 bs ]; [ | eauto ].
  destruct (queue_rows s); [ congruence | ].
  replace (Z.to_nat batchSize) with (S (Z.to_nat (batchSize - 1))) in Hrows by lia.
  discriminate Hrows.
Qed.

(** One iteration on a non-empty queue, in every environment in which the
    read works. *)
Lemma drainStep_spec (batchSize : Z) (e : IterEnv) (st : State Row) :
  0 < batchSize -> store_wf (store st) -> read_io e = IoOk ->
  queue_rows (store st) <> [] ->
  let rows := firstn (Z.to_nat batchSize) (queue_rows (store st)) in
  let discarding := DISCARD_DATA st || withdrawn_in_read e in
  let st' := fst (drainStep batchSize e st) in
  let ctl := snd (drainStep batchSize e st) in
  network st' = network st ++ (if discarding then [] else [Post rows (fetch_outcome e)])
  /\ (if discarding || acked (fetch_outcome e)
      then match delete_io e with
           | IoOk =>
               queue_rows (store st') = skipn (List.length rows) (queue_rows (store st))
               /\ store_wf (store st') /\ ctl = LContinue
           | IoFail =>
               store st' = store st
               /\ ctl = (if idb_available (store st) then LContinue else LThrow)
           end
      else store st' = store st /\ ctl = LBreak).
Proof.
  intros Hn Hwf Hio Hq. cbn zeta. unfold drainStep.
  rewrite store_withdraw_if, Hio.
  destruct (idbReadBatch_nonempty batchSize (store st) Hn Hq) as (b0 & bs & Hread).
  rewrite Hread.
  pose proof (idbReadBatch_head batchSize (store st) _ ltac:(lia) Hread) as Hrows.
  rewrite <- Hrows. unfold sendBatch. rewrite discard_withdraw_if.
  assert (Hgone : forall s', idbDeleteIds (b0 :: bs) IoOk (store st) = Normal s' ->
            queue_rows s' = skipn (List.length (map (@row Row) (b0 :: bs))) (queue_rows (store st))
            /\ store_wf s').
  { intros s' Hdelete.
    destruct (idbDeleteIds_head batchSize (store st) s' _ Hwf Hread Hdelete) as (Hrest & Hwf' & _).
    now rewrite length_map. }
  assert (Hkept : idbDeleteIds (b0 :: bs) IoFail (store st)
                  = if idb_available (store st) then Normal (store st) else Threw)
    by (unfold idbDeleteIds; now destruct (idb_available (store st))).
  assert (Hdone : exists s', idbDeleteIds (b0 :: bs) IoOk (store st) = Normal s')
    by (unfold idbDeleteIds; destruct (idb_available (store st)); cbn; eauto).
  destruct Hdone as [s' Hdelete]. specialize (Hgone s' Hdelete).
  destruct (DISCARD_DATA st || withdrawn_in_read e) eqn:Hdisc; cbn [orb].
  - (* discard mode at the time of the send: nothing goes out, the batch goes *)
    repeat first [ rewrite store_withdraw_if | progress cbn [store send] ].
    destruct (delete_io e); [ rewrite Hdelete | rewrite Hkept ].
    + repeat first [ rewrite network_withdraw_if | progress cbn ].
      rewrite app_nil_r. tauto.
    + destruct (idb_available (store st));
        repeat first [ rewrite network_withdraw_if | rewrite store_withdraw_if | progress cbn ];
        rewrite app_nil_r; auto.
  - assert (Hfail :
      let st3 := withdraw_if (withdrawn_in_send e)
                   (send (Post (map (@row Row) (b0 :: bs)) (fetch_outcome e))
                      (withdraw_if (withdrawn_in_read e) st)) in
      let st4 := set_retry (LOG_RETRY_ATTEMPTS st3 + 1) st3 in
      network (scheduleFlush (backoffMs (LOG_RETRY_ATTEMPTS st4)) st4)
        = network st ++ [Post (map (@row Row) (b0 :: bs)) (fetch_outcome e)]
      /\ store (scheduleFlush (backoffMs (LOG_RETRY_ATTEMPTS st4)) st4) = store st).
    { cbn zeta. unfold scheduleFlush.
      repeat match goal with
             | |- context [if ?c then _ else _] => destruct c
             | |- context [match ?c with Some _ => _ | None => _ end] => destruct c
             end;
        repeat first [ rewrite network_withdraw_if | rewrite store_withdraw_if | progress cbn ];
        auto. }
    cbn zeta in Hfail.
    destruct (fetch_outcome e) as [res | ] eqn:Hout; cbn [acked].
    + destruct (okLike res) eqn:Hok.
      * repeat first [ rewrite store_withdraw_if | progress cbn [store send] ].
        destruct (delete_io e); [ rewrite Hdelete | rewrite Hkept ].
        -- repeat first [ rewrite network_withdraw_if | progress cbn ]. tauto.
        -- destruct (idb_available (store st));
             repeat first [ rewrite network_withdraw_if | rewrite store_withdraw_if
                          | progress cbn ]; auto.
      * cbn [fst snd]. tauto.
    + cbn [fst snd]. tauto.
Qed.

Lemma chunks_enough {A} (n : nat) (l : list A) (f1 f2 : nat) :
  (1 <= n)%nat -> (List.length l <= f1)%nat -> (List.length l <= f2)%nat ->
  chunks f1 n l = chunks f2 n l.
Proof.
  intros Hn. revert l f2. induction f1 as [ | f1 IH ]; intros l f2 H1 H2.
  - destruct l; [ | cbn in H1; lia ]. now destruct f2.
  - destruct f2 as [ | f2 ]; [ destruct l; [ reflexivity | cbn in H2; lia ] | ].
    cbn [chunks]. destruct l as [ | x l ]; [ reflexivity | ].
    f_equal. apply IH; rewrite length_skipn; cbn [List.length] in *; lia.
Qed.

Lemma batchesOf_cons {A} (n : Z) (l : list A) :
  0 < n -> l <> [] ->
  batchesOf n l = firstn (Z.to_nat n) l :: batchesOf n (skipn (Z.to_nat n) l).
Proof.
  intros Hn Hl. unfold batchesOf. destruct l as [ | x l ]; [ congruence | ].
  cbn [List.length chunks]. f_equal.
  apply chunks_enough; rewrite ?length_skipn; cbn [List.length]; lia.
Qed.

Lemma batchesOf_nil {A} (n : Z) : batchesOf n (@nil A) = [].
Proof. reflexivity. Qed.

Lemma skipn_firstn_same {A} (n : nat) (l : list A) :
  skipn (List.length (firstn n l)) l = skipn n l.
Proof. now apply skipn_length_firstn. Qed.

Lemma calm_withdraw (e : IterEnv) (st : State Row) :
  calm e ->
  withdraw_if (withdrawn_in_read e) st = st /\ withdraw_if (withdrawn_in_send e) st = st.
Proof. intros (_ & _ & -> & ->). split; reflexivity. Qed.

(** An empty queue ends the loop and resets the counter. *)
Lemma drainStep_calm_empty (batchSize : Z) (e : IterEnv) (st : State Row) :
  0 < batchSize -> calm e -> queue_rows (store st) = [] ->
  drainStep batchSize e st = (set_retry 0 (set_buffer (Some []) st), LBreak).
Proof.
  intros Hn Hcalm Hq. unfold drainStep.
  destruct (calm_withdraw e st Hcalm) as [-> _]. destruct Hcalm as (-> & _).
  assert (Hread : exists batch, idbReadBatch batchSize IoOk (store st) = Normal batch)
    by (unfold idbReadBatch; destruct (idb_available (store st)); cbn; eauto).
  destruct Hread as [batch Hread]. rewrite Hread.
  pose proof (idbReadBatch_head batchSize (store st) batch ltac:(lia) Hread) as Hrows.
  rewrite Hq, firstn_nil in Hrows. destruct batch; [ reflexivity | discriminate ].
Qed.

(** A failed send: the counter goes up, a flush is asked for after the
    backoff delay, nothing is deleted, the loop ends. *)
Lemma drainStep_calm_fail (batchSize : Z) (e : IterEnv) (st : State Row) :
  0 < batchSize -> calm e -> DISCARD_DATA st = false ->
  queue_rows (store st) <> [] -> acked (fetch_outcome e) = false ->
  let rows := firstn (Z.to_nat batchSize) (queue_rows (store st)) in
  let n := LOG_RETRY_ATTEMPTS st + 1 in
  drainStep batchSize e st
  = (scheduleFlush (backoffMs n) (set_retry n (send (Post rows (fetch_outcome e)) st)),
     LBreak).
Proof.
  intros Hn Hcalm Hdisc Hq Hnack. cbn zeta. unfold drainStep.
  destruct (calm_withdraw e st Hcalm) as [-> _].
  destruct (idbReadBatch_nonempty batchSize (store st) Hn Hq) as (b0 & bs & Hread).
  pose proof (idbReadBatch_head batchSize (store st) _ ltac:(lia) Hread) as Hrows.
  pose proof Hcalm as (-> & _ & _ & Hsend). rewrite Hread, Hrows.
  unfold sendBatch. rewrite Hdisc, Hsend. unfold acked in Hnack.
  destruct (fetch_outcome e) as [res | ]; [ rewrite Hnack | ]; reflexivity.
Qed.

(** An acknowledged send: the batch leaves the head of the queue and of the
    mirror, the counter is reset, the loop goes on. *)
Lemma drainStep_calm_ack (batchSize : Z) (e : IterEnv) (st : State Row) :
  0 < batchSize -> calm e -> DISCARD_DATA st = false -> store_wf (store st) ->
  queue_rows (store st) <> [] -> acked (fetch_outcome e) = true ->
  let rows := firstn (Z.to_nat batchSize) (queue_rows (store st)) in
  exists s',
    drainStep batchSize e st
    = (set_retry 0
         (set_buffer (Some (skipn (List.length rows) (buffer_or_empty st)))
            (set_store s' (send (Post rows (fetch_outcome e)) st))),
       LContinue)
    /\ queue_rows s' = skipn (Z.to_nat batchSize) (queue_rows (store st))
    /\ store_wf s'.
Proof.
  intros Hn Hcalm Hdisc Hwf Hq Hack. cbn zeta. unfold drainStep.
  destruct (calm_withdraw e st Hcalm) as [-> _].
  destruct (idbReadBatch_nonempty batchSize (store st) Hn Hq) as (b0 & bs & Hread).
  pose proof (idbReadBatch_head batchSize (store st) _ ltac:(lia) Hread) as Hrows.
  pose proof Hcalm as (-> & -> & _ & Hsend). rewrite Hread.
  unfold sendBatch. rewrite Hdisc, Hsend. unfold acked in Hack.
  destruct (fetch_outcome e) as [res | ] eqn:Hout; [ | discriminate ]. rewrite Hack.
  cbn [withdraw_if store send].
  assert (Hdone : exists s', idbDeleteIds (b0 :: bs) IoOk (store st) = Normal s')
    by (unfold idbDeleteIds; destruct (idb_available (store st)); cbn; eauto).
  destruct Hdone as [s' Hdelete]. rewrite Hdelete.
  destruct (idbDeleteIds_head batchSize (store st) s' _ Hwf Hread Hdelete) as (Hrest & Hwf' & _).
  exists s'. rewrite <- Hrows. split; [ reflexivity | ]. split; [ | exact Hwf' ].
  rewrite Hrest, <- (length_map (@row Row)), Hrows. apply skipn_firstn_same.
Qed.

(** [scheduleFlush] touches nothing but the timer. *)
Lemma scheduleFlush_frame (d : Z) (st : State Row) :
  network (scheduleFlush d st) = network st
  /\ store (scheduleFlush d st) = store st
  /\ DISCARD_DATA (scheduleFlush d st) = DISCARD_DATA st
  /\ LOG_RETRY_ATTEMPTS (scheduleFlush d st) = LOG_RETRY_ATTEMPTS st
  /\ LOG_FLUSHING (scheduleFlush d st) = LOG_FLUSHING st
  /\ LOG_BUFFER (scheduleFlush d st) = LOG_BUFFER st.
Proof.
  unfold scheduleFlush. destruct (DISCARD_DATA st) eqn:Hd; [ rewrite Hd; tauto | ].
  destruct (LOG_BACKOFF_TIMER st); cbn; rewrite ?Hd; tauto.
Qed.

(** The discard button raises the flag and empties the mirror; of the rest
    it touches the store only. *)
Lemma withdraw_frame (io : IoOutcome) (st : State Row) :
  DISCARD_DATA (withdraw io st) = true
  /\ LOG_BUFFER (withdraw io st) = Some []
  /\ network (withdraw io st) = network st
  /\ timers (withdraw io st) = timers st
  /\ LOG_BACKOFF_TIMER (withdraw io st) = LOG_BACKOFF_TIMER st
  /\ LOG_RETRY_ATTEMPTS (withdraw io st) = LOG_RETRY_ATTEMPTS st
  /\ LOG_FLUSHING (withdraw io st) = LOG_FLUSHING st.
Proof.
  unfold withdraw, clearLocalQueue.
  destruct (clearStore io _); cbn; tauto.
Qed.

Lemma nil_or_not {A} (l : list A) : l = [] \/ l <> [].
Proof. destruct l; [ now left | right; discriminate ]. Qed.

(** The drain loop in a calm environment, however the sends end: the POSTs
    are the consecutive batches of the queue in order, and the queue loses
    exactly the rows of the acknowledged ones. *)
Lemma drain_calm (batchSize : Z) (env : list IterEnv) :
  0 < batchSize -> Forall calm env ->
  forall st : State Row,
    DISCARD_DATA st = false -> store_wf (store st) ->
    exists posts,
      network (promised (drain batchSize env st)) = network st ++ posts
      /\ queue_rows (store st)
         = acked_rows posts ++ queue_rows (store (promised (drain batchSize env st)))
      /\ flat_map posted_rows posts
         = firstn (List.length posts) (batchesOf batchSize (queue_rows (store st)))
      /\ store_wf (store (promised (drain batchSize env st))).
Proof.
  intros Hn Hcalm. induction Hcalm as [ | e rest He Hrest IH ]; intros st Hdisc Hwf.
  - exists []. cbn. rewrite app_nil_r. auto.
  - cbn [drain]. destruct (nil_or_not (queue_rows (store st))) as [Hq | Hne].
    + rewrite (drainStep_calm_empty batchSize e st Hn He Hq).
      exists []. cbn. rewrite app_nil_r. auto.
    + destruct (acked (fetch_outcome e)) eqn:Hack.
      * destruct (drainStep_calm_ack batchSize e st Hn He Hdisc Hwf Hne Hack)
          as (s' & -> & Hs' & Hwf').
        set (st1 := set_retry 0 _).
        assert (Hq1 : queue_rows (store st1)
                      = skipn (Z.to_nat batchSize) (queue_rows (store st))) by exact Hs'.
        destruct (IH st1 Hdisc Hwf') as (posts & Hnet & Hrows & Hfifo & Hwf'').
        exists (Post (firstn (Z.to_nat batchSize) (queue_rows (store st))) (fetch_outcome e)
                  :: posts).
        split; [ | split; [ | split ] ].
        -- rewrite Hnet. subst st1. cbn. now rewrite <- app_assoc.
        -- cbn [acked_rows flat_map]. rewrite Hack. fold (acked_rows posts).
           rewrite <- app_assoc, <- Hrows, Hq1. symmetry. apply firstn_skipn.
        -- cbn [flat_map posted_rows app List.length].
           rewrite (batchesOf_cons batchSize _ Hn Hne). cbn [firstn].
           f_equal. now rewrite Hfifo, Hq1.
        -- exact Hwf''.
      * rewrite (drainStep_calm_fail batchSize e st Hn He Hdisc Hne Hack).
        cbn [promised].
        set (n := LOG_RETRY_ATTEMPTS st + 1).
        set (st1 := set_retry n _).
        destruct (scheduleFlush_frame (backoffMs n) st1) as (-> & -> & _).
        exists [Post (firstn (Z.to_nat batchSize) (queue_rows (store st))) (fetch_outcome e)].
        subst st1. cbn. rewrite Hack.
        rewrite (batchesOf_cons batchSize _ Hn Hne). cbn. auto.
Qed.

(** When every send is acknowledged the loop empties the queue, if the
    environment lasts long enough (one iteration more than there are rows). *)
Lemma drain_all_acked (batchSize : Z) (env : list IterEnv) :
  0 < batchSize -> Forall calm env ->
  Forall (fun e => acked (fetch_outcome e) = true) env ->
  forall st : State Row,
    DISCARD_DATA st = false -> store_wf (store st) ->
    (List.length (queue_rows (store st)) < List.length env)%nat ->
    exists st' posts,
      drain batchSize env st = Resolved st'
      /\ network st' = network st ++ posts
      /\ flat_map posted_rows posts = batchesOf batchSize (queue_rows (store st))
      /\ queue_rows (store st') = []
      /\ LOG_RETRY_ATTEMPTS st' = 0.
Proof.
  intros Hn Hcalm. induction Hcalm as [ | e rest He Hrest IH ];
    intros Hacks st Hdisc Hwf Hlen.
  - cbn in Hlen. lia.
  - inversion Hacks as [ | ? ? Hack Hacks' ]; subst. cbn [drain].
    destruct (nil_or_not (queue_rows (store st))) as [Hq | Hne].
    + rewrite (drainStep_calm_empty batchSize e st Hn He Hq).
      exists (set_retry 0 (set_buffer (Some []) st)), []. cbn.
      rewrite app_nil_r, Hq. auto.
    + destruct (drainStep_calm_ack batchSize e st Hn He Hdisc Hwf Hne Hack)
        as (s' & -> & Hs' & Hwf').
      set (st1 := set_retry 0 _).
      assert (Hq1 : queue_rows (store st1) = skipn (Z.to_nat batchSize) (queue_rows (store st)))
        by exact Hs'.
      destruct (IH Hacks' st1 Hdisc Hwf') as (st' & posts & Hrun & Hnet & Hfifo & Hempty & Hretry).
      { rewrite Hq1, length_skipn. cbn [List.length] in Hlen.
        destruct (queue_rows (store st)); [ congruence | cbn [List.length] in *; lia ]. }
      exists st', (Post (firstn (Z.to_nat batchSize) (queue_rows (store st))) (fetch_outcome e)
                     :: posts).
      split; [ exact Hrun | ]. split; [ | split; [ | split ] ]; trivial.
      * rewrite Hnet. subst st1. cbn. now rewrite <- app_assoc.
      * cbn [flat_map posted_rows app]. rewrite Hfifo, Hq1.
        now rewrite (batchesOf_cons batchSize _ Hn Hne).
Qed.

Lemma promised_finally (p : Promise (State Row)) :
  network (promised (finally_unflag p)) = network (promised p)
  /\ store (promised (finally_unflag p)) = store (promised p)
  /\ timers (promised (finally_unflag p)) = timers (promised p)
  /\ LOG_BACKOFF_TIMER (promised (finally_unflag p)) = LOG_BACKOFF_TIMER (promised p)
  /\ DISCARD_DATA (promised (finally_unflag p)) = DISCARD_DATA (promised p)
  /\ LOG_RETRY_ATTEMPTS (promised (finally_unflag p)) = LOG_RETRY_ATTEMPTS (promised p).
Proof. destruct p; cbn; tauto. Qed.

(** C1, as amended.  In the drain loop an entry leaves the store exactly when
    [sendBatch] reported success for its batch and the delete went through.
    [sendBatch] reports success when the batch was POSTed and acknowledged,
    and also, without sending anything, when discard mode is on at the time of
    the send.  First part, one iteration on a non-empty queue: the request
    that goes out; after a success the store without exactly the rows of the
    batch, and the loop continuing (if the delete fails, the store as it was);
    after a failed send the store as it was and the loop stopped.  Second
    part, one whole call of [flushQueue] while nobody withdraws and storage
    works: the queue before is the rows of the acknowledged POSTs, in order,
    followed by the queue after, so no row is lost and none is part of two
    acknowledged batches. *)
Theorem send_then_delete :
  (forall (e : IterEnv) (st : State Row),
      store_wf (store st) -> read_io e = IoOk -> queue_rows (store st) <> [] ->
      let rows := firstn (Z.to_nat LOG_BATCH_SIZE) (queue_rows (store st)) in
      let discarding := DISCARD_DATA st || withdrawn_in_read e in
      let st' := fst (drainStep LOG_BATCH_SIZE e st) in
      let ctl := snd (drainStep LOG_BATCH_SIZE e st) in
      network st' = network st ++ (if discarding then [] else [Post rows (fetch_outcome e)])
      /\ (if discarding || acked (fetch_outcome e)
          then match delete_io e with
               | IoOk =>
                   queue_rows (store st')
                   = skipn (List.length rows) (queue_rows (store st))
                   /\ ctl = LContinue
               | IoFail =>
                   store st' = store st
                   /\ ctl = (if idb_available (store st) then LContinue else LThrow)
               end
          else store st' = store st /\ ctl = LBreak))
  /\ (forall (env : list IterEnv) (st : State Row),
        store_wf (store st) -> Forall calm env ->
        exists posts,
          network (promised (flushQueue env st)) = network st ++ posts
          /\ queue_rows (store st)
             = acked_rows posts ++ queue_rows (store (promised (flushQueue env st)))).
Proof.
  split.
  - intros e st Hwf Hio Hq.
    pose proof (drainStep_spec LOG_BATCH_SIZE e st ltac:(reflexivity) Hwf Hio Hq) as H.
    cbn zeta in *. destruct H as [Hnet Hrest]. split; [ exact Hnet | ].
    destruct (DISCARD_DATA st || withdrawn_in_read e || acked (fetch_outcome e));
      [ | exact Hrest ].
    destruct (delete_io e); tauto.
  - intros env st Hwf Hcalm. unfold flushQueue, flushQueueWith.
    destruct (LOG_FLUSHING st || DISCARD_DATA st) eqn:Hguard.
    + exists []. cbn. now rewrite app_nil_r.
    + apply orb_false_elim in Hguard as [_ Hdisc].
      destruct (drain_calm LOG_BATCH_SIZE env ltac:(reflexivity) Hcalm
                  (set_flushing true st) Hdisc Hwf) as (posts & Hnet & Hrows & _).
      destruct (promised_finally (drain LOG_BATCH_SIZE env (set_flushing true st)))
        as (-> & -> & _).
      exists posts. split; [ exact Hnet | exact Hrows ].
Qed.

(** *** Backoff *)




(** *** FIFO *)


End DeliveryFacts.

(* ===================================================================== *)
(** * Scheduling and discard mode, over the runs of the page              *)
(* ===================================================================== *)

Section SchedulingFacts.

Context {Row : Type}.

Variable encodedLength : Row -> Z.

Lemma timer_inv_ext (st st' : State Row) :
  LOG_BACKOFF_TIMER st' = LOG_BACKOFF_TIMER st -> timers st' = timers st ->
  timer_inv st -> timer_inv st'.
Proof. unfold timer_inv. now intros -> ->. Qed.

Lemma scheduleFlush_timer_inv (d : Z) (st : State Row) :
  timer_inv st -> timer_inv (scheduleFlush d st).
Proof.
  unfold scheduleFlush. destruct (DISCARD_DATA st); [ trivial | ].
  unfold timer_inv. destruct (LOG_BACKOFF_TIMER st) eqn:Ht; [ now rewrite Ht | ].
  intros ->. cbn. eauto.
Qed.

Lemma withdraw_if_timer_inv (b : bool) (st : State Row) :
  timer_inv st -> timer_inv (withdraw_if b st).
Proof. now destruct b. Qed.

Lemma drainStep_timer_inv (batchSize : Z) (e : IterEnv) (st : State Row) :
  timer_inv st -> timer_inv (fst (drainStep batchSize e st)).
Proof.
  intros Hinv. unfold drainStep.
  pose proof (withdraw_if_timer_inv (withdrawn_in_read e) st Hinv) as H1.
  set (st1 := withdraw_if (withdrawn_in_read e) st) in *.
  destruct (idbReadBatch batchSize (read_io e) (store st1)) as [[ | b0 bs] | ];
    [ exact H1 | | exact H1 ].
  assert (H2 : timer_inv (snd (sendBatch (map (@row Row) (b0 :: bs)) (fetch_outcome e) st1))).
  { unfold sendBatch. destruct (DISCARD_DATA st1); [ exact H1 | ].
    destruct (fetch_outcome e); exact H1. }
  destruct (sendBatch (map (@row Row) (b0 :: bs)) (fetch_outcome e) st1) as [ok st2].
  cbn [snd] in H2.
  pose proof (withdraw_if_timer_inv (withdrawn_in_send e) st2 H2) as H3.
  set (st3 := withdraw_if (withdrawn_in_send e) st2) in *.
  destruct ok.
  - destruct (idbDeleteIds (b0 :: bs) (delete_io e) (store st3)); exact H3.
  - cbn [fst]. apply scheduleFlush_timer_inv. exact H3.
Qed.

Lemma drain_timer_inv (batchSize : Z) (env : list IterEnv) (st : State Row) :
  timer_inv st -> timer_inv (promised (drain batchSize env st)).
Proof.
  revert st. induction env as [ | e rest IH ]; intros st Hinv; [ exact Hinv | ].
  cbn [drain]. pose proof (drainStep_timer_inv batchSize e st Hinv) as H.
  destruct (drainStep batchSize e st) as [st' [ | | ]]; cbn [fst] in H;
    [ now apply IH | exact H | exact H ].
Qed.

Lemma flushQueueWith_timer_inv (batchSize : Z) (env : list IterEnv) (st : State Row) :
  timer_inv st -> timer_inv (promised (flushQueueWith batchSize env st)).
Proof.
  intros Hinv. unfold flushQueueWith.
  destruct (LOG_FLUSHING st || DISCARD_DATA st); [ exact Hinv | ].
  pose proof (drain_timer_inv batchSize env (set_flushing true st) Hinv) as H.
  destruct (drain batchSize env (set_flushing true st)); exact H.
Qed.

Lemma timerFires_timer_inv (batchSize : Z) (h : positive) (env : list IterEnv)
    (st : State Row) :
  In_timers h st = true -> timer_inv st ->
  timer_inv (promised (timerFires batchSize h env st)).
Proof.
  intros Hin Hinv. unfold timerFires. apply flushQueueWith_timer_inv.
  unfold timer_inv in *. unfold In_timers in Hin. cbn.
  destruct (LOG_BACKOFF_TIMER st) as [h' | ].
  - destruct Hinv as [d Htable]. rewrite Htable in *. cbn in *.
    rewrite orb_false_r in Hin. now rewrite Hin.
  - rewrite Hinv in Hin. discriminate.
Qed.

Lemma settled_promised (p : Promise (State Row)) (st : State Row) :
  settled p = Some st -> promised p = st.
Proof. destruct p; cbn; congruence. Qed.

Lemma step_timer_inv (ev : Event Row) (st st' : State Row) :
  step encodedLength ev st = Some st' -> timer_inv st -> timer_inv st'.
Proof.
  destruct ev as [ d | rows now io | h env | fuel sb | io ]; cbn [step].
  - intros [= <-]. apply scheduleFlush_timer_inv.
  - unfold logEnqueue.
    destruct (idbPutAll _ now io _); cbn; intros [= <-] Hinv;
      [ apply scheduleFlush_timer_inv | ]; exact Hinv.
  - destruct (In_timers h st) eqn:Hin; [ | discriminate ].
    intros Hs Hinv. apply settled_promised in Hs. subst st'.
    now apply timerFires_timer_inv.
  - unfold flushSyncBeacon. destruct (LOG_BUFFER st) as [[ | r buf] | ];
      try (intros [= <-]; trivial).
    destruct (shrinkLoop _ _ _ _ _ _) as [[[rows | ] end_] | ]; try discriminate;
      intros [= <-]; [ destruct sb | ]; trivial.
  - intros [= <-]. destruct (withdraw_frame io st) as (_ & _ & _ & Ht & Hb & _).
    now apply (timer_inv_ext st).
Qed.

Lemma reachable_timer_inv (st : State Row) :
  reachable encodedLength st -> timer_inv st.
Proof.
  intros (idb & evs & Hrun).
  assert (Hinit : timer_inv (@fresh_page Row idb)) by reflexivity.
  revert Hrun Hinit. generalize (@fresh_page Row idb).
  induction evs as [ | ev rest IH ]; intros st0 Hrun Hinv; cbn [run] in Hrun.
  - now injection Hrun as <-.
  - destruct (step encodedLength ev st0) as [st1 | ] eqn:Hstep; [ | discriminate ].
    apply (IH st1 Hrun). now apply (step_timer_inv ev st0).
Qed.

(** C7, as amended.  At most one flush timer is ever pending, and the timer
    variable names it; [scheduleFlush] while a timer is pending changes
    nothing, whatever the delay asked for; two calls in a row with no timer
    pending leave exactly one timer, with the delay of the first call, when
    discard mode is off, and none when it is on. *)
Theorem one_flush_timer :
  (forall st : State Row,
      reachable encodedLength st ->
      (List.length (timers st) <= 1)%nat /\ timer_inv st)
  /\ (forall (st : State Row) (d : Z) (h : positive),
        LOG_BACKOFF_TIMER st = Some h -> scheduleFlush d st = st)
  /\ (forall (st : State Row) (d1 d2 : Z),
        reachable encodedLength st ->
        LOG_BACKOFF_TIMER st = None -> DISCARD_DATA st = false ->
        timers (scheduleFlush d2 (scheduleFlush d1 st)) = [(next_handle st, d1)]
        /\ LOG_BACKOFF_TIMER (scheduleFlush d2 (scheduleFlush d1 st))
           = Some (next_handle st))
  /\ (forall (st : State Row) (d1 d2 : Z),
        DISCARD_DATA st = true -> scheduleFlush d2 (scheduleFlush d1 st) = st).
Proof.
  split; [ | split; [ | split ] ].
  - intros st Hreach. pose proof (reachable_timer_inv st Hreach) as Hinv.
    split; [ | exact Hinv ]. unfold timer_inv in Hinv.
    destruct (LOG_BACKOFF_TIMER st); [ destruct Hinv as [d ->] | rewrite Hinv ]; cbn; lia.
  - intros st d h Ht. unfold scheduleFlush. rewrite Ht. now destruct (DISCARD_DATA st).
  - intros st d1 d2 Hreach Ht Hdisc. pose proof (reachable_timer_inv st Hreach) as Hinv.
    unfold timer_inv in Hinv. rewrite Ht in Hinv.
    unfold scheduleFlush. rewrite Hdisc, Ht. cbn. rewrite Hdisc, Hinv. cbn. auto.
  - intros st d1 d2 Hdisc. unfold scheduleFlush. now rewrite Hdisc, Hdisc.
Qed.

(** *** Discard mode *)








End SchedulingFacts.

Section DiscardTurnByTurn.

Context {Row : Type}.

Variable encodedLength : Row -> Z.




End DiscardTurnByTurn.


(* ===================================================================== *)
(** * The beacon                                                          *)
(* ===================================================================== *)

Section BeaconFacts.

Context {Row : Type}.

Variable encodedLength : Row -> Z.

(** When the shrinking loop ends it ends through its [break]: the blob is a
    slice of the buffer that starts at [sliceStart] and fits the cap. *)
Lemma shrinkLoop_fits (fuel : nat) (buf : list Row) (sliceStart : Z) :
  forall (end_ : Z) (blob blob' : option (list Row)) (end' : Z),
    sliceStart < end_ ->
    shrinkLoop encodedLength fuel buf sliceStart end_ blob = Some (blob', end') ->
    sliceStart < end' <= end_
    /\ blob' = Some (js_slice buf sliceStart end')
    /\ blobSize encodedLength (js_slice buf sliceStart end') <= maxBytes.
Proof.
  induction fuel as [ | fuel IH ]; intros end_ blob blob' end' Hlt; cbn [shrinkLoop];
    [ discriminate | ].
  destruct (Z.gtb_spec end_ sliceStart) as [_ | Hle]; [ | lia ].
  destruct (Z.leb_spec (blobSize encodedLength (js_slice buf sliceStart end_)) maxBytes)
    as [Hfit | Hbig].
  - intros [= <- <-]. repeat split; trivial; lia.
  - intros Hloop. apply IH in Hloop.
    + destruct Hloop as (Hrange & Hblob & Hfit). repeat split; trivial; try lia.
      assert ((sliceStart + end_) / 2 <= end_) by (apply Z.div_le_upper_bound; lia). lia.
    + lia.
Qed.

(** The loop makes no progress once the slice is down to one row. *)
Lemma shrinkLoop_stuck (fuel : nat) (buf : list Row) (sliceStart : Z)
    (blob : option (list Row)) :
  blobSize encodedLength (js_slice buf sliceStart (sliceStart + 1)) > maxBytes ->
  shrinkLoop encodedLength fuel buf sliceStart (sliceStart + 1) blob = None.
Proof.
  intros Hbig. revert blob. induction fuel as [ | fuel IH ]; intros blob; cbn [shrinkLoop];
    [ reflexivity | ].
  destruct (Z.gtb_spec (sliceStart + 1) sliceStart) as [_ | Hle]; [ | lia ].
  destruct (Z.leb_spec (blobSize encodedLength (js_slice buf sliceStart (sliceStart + 1)))
              maxBytes) as [Hfit | _]; [ lia | ].
  replace (Z.max (sliceStart + 1) ((sliceStart + (sliceStart + 1)) / 2))
    with (sliceStart + 1); [ apply IH | ].
  assert ((sliceStart + (sliceStart + 1)) / 2 = sliceStart)
    by (symmetry; apply (Z.div_unique _ 2 sliceStart 1); lia).
  lia.
Qed.

(** The loop does end if the first row of the window fits by itself. *)
Lemma shrinkLoop_terminates (buf : list Row) (sliceStart : Z) :
  blobSize encodedLength (js_slice buf sliceStart (sliceStart + 1)) <= maxBytes ->
  forall (fuel : nat) (end_ : Z) (blob : option (list Row)),
    sliceStart < end_ -> (Z.to_nat (end_ - sliceStart) <= fuel)%nat ->
    exists result, shrinkLoop encodedLength fuel buf sliceStart end_ blob = Some result.
Proof.
  intros Hone. induction fuel as [ | fuel IH ]; intros end_ blob Hlt Hfuel; [ lia | ].
  cbn [shrinkLoop].
  destruct (Z.gtb_spec end_ sliceStart) as [_ | Hle]; [ | lia ].
  destruct (Z.leb_spec (blobSize encodedLength (js_slice buf sliceStart end_)) maxBytes)
    as [Hfit | Hbig]; [ eauto | ].
  assert (Hend : sliceStart + 2 <= end_).
  { destruct (Z.eq_dec end_ (sliceStart + 1)) as [-> | Hne]; lia. }
  assert (Hhalf : sliceStart + 1 <= (sliceStart + end_) / 2 < end_).
  { split; [ apply Z.div_le_lower_bound | apply Z.div_lt_upper_bound ]; lia. }
  apply IH; lia.
Qed.

(** What [flushSyncBeacon] sends, when it returns: nothing, or one blob that
    fits the cap and holds a slice of the last 25 rows that starts with the
    oldest of them. *)
Lemma flushSyncBeacon_payload (fuel : nat) (sendBeacon : bool) (st st' : State Row) :
  flushSyncBeacon encodedLength fuel sendBeacon st = Some st' ->
  st' = st
  \/ exists buf end_,
       LOG_BUFFER st = Some buf
       /\ let sliceStart := Z.max 0 (Z.of_nat (List.length buf) - LOG_BATCH_SIZE) in
          st' = send (Beacon (js_slice buf sliceStart end_)) st
          /\ sliceStart < end_ <= Z.of_nat (List.length buf)
          /\ blobSize encodedLength (js_slice buf sliceStart end_) <= maxBytes.
Proof.
  unfold flushSyncBeacon. destruct (LOG_BUFFER st) as [[ | r buf] | ];
    try (intros [= <-]; now left).
  set (len := Z.of_nat (List.length (r :: buf))).
  set (sliceStart := Z.max 0 (len - LOG_BATCH_SIZE)).
  assert (Hlt : sliceStart < len).
  { subst sliceStart len. cbn [List.length]. unfold LOG_BATCH_SIZE. lia. }
  destruct (shrinkLoop encodedLength fuel (r :: buf) sliceStart len None)
    as [[blob end_] | ] eqn:Hloop; [ | discriminate ].
  destruct (shrinkLoop_fits fuel (r :: buf) sliceStart len None blob end_ Hlt Hloop)
    as (Hrange & -> & Hfit).
  destruct sendBeacon; intros [= <-]; [ right | now left ].
  exists (r :: buf), end_. cbn zeta. fold len sliceStart. auto.
Qed.

End BeaconFacts.

(* ===================================================================== *)
(** * Worked examples                                                     *)
(* ===================================================================== *)

(** C1 as stated fails in two ways.  If the participant withdraws while the
    drain reads its batch, [sendBatch] answers [true] without a request and
    the row is deleted unsent.  If the delete transaction of IndexedDB fails,
    the acknowledged batch stays queued and is POSTed again. *)
Lemma deleted_unsent_and_acked_undeleted :
  let st := queued true [rowA] in
  let st1 := promised (timerFires LOG_BATCH_SIZE 1 [withdrawn; acks] st) in
  let st2 := promised (timerFires LOG_BATCH_SIZE 1 [delete_fails; fails] st) in
  queue_rows (store st) = [rowA]
  /\ (queue_rows (store st1) = [] /\ network st1 = [])
  /\ (network st2 = [Post [rowA] ok200; Post [rowA] NetworkError]
      /\ queue_rows (store st2) = [rowA]).
Proof. vm_compute. repeat split. Qed.

Lemma send_then_delete_witness :
  (store_wf (store (queued true [rowA; rowB])) /\ read_io acks = IoOk
   /\ queue_rows (store (queued true [rowA; rowB])) <> [])
  /\ (network (fst (drainStep LOG_BATCH_SIZE acks (queued true [rowA; rowB])))
      = [Post [rowA; rowB] ok200]
      /\ queue_rows (store (fst (drainStep LOG_BATCH_SIZE acks (queued true [rowA; rowB])))) = []
      /\ snd (drainStep LOG_BATCH_SIZE acks (queued true [rowA; rowB])) = LContinue).
Proof.
  assert (Hwf : store_wf (store (queued true [rowA; rowB])))
    by (split; cbn; repeat constructor).
  assert (Hq : queue_rows (store (queued true [rowA; rowB])) <> [])
    by (cbn; discriminate).
  split; [ repeat split; [ apply Hwf | apply Hwf | exact Hq ] | ].
  exact (proj1 (@send_then_delete SampleRow) acks (queued true [rowA; rowB])
           Hwf eq_refl Hq).
Defined.



(** The drain that was suspended when the participant withdrew deletes the
    batch it had read without sending it. *)
Lemma withdrawn_mid_drain_deletes_unsent :
  queue_rows (store (page withdrawn_mid_drain)) = [rowA]
  /\ queue_rows (store (page (turns_from drain_goes_on withdrawn_mid_drain))) = []
  /\ network (page (turns_from drain_goes_on withdrawn_mid_drain)) = []
  /\ inflight (turns_from drain_goes_on withdrawn_mid_drain) = [TRead; TClear].
Proof. vm_compute. repeat split. Qed.


(** Rows A, B, C, D drained with a batch size of 2: [A, B] goes out before
    [C, D], in either backend. *)
Lemma fifo_ABCD (idb : bool) :
  network
    (promised (timerFires 2 1 [acks; acks; acks] (queued idb [rowA; rowB; rowC; rowD])))
  = [Post [rowA; rowB] ok200; Post [rowC; rowD] ok200].
Proof. destruct idb; reflexivity. Qed.


(** C7 as stated fails in discard mode: with no timer pending, two calls of
    [scheduleFlush] in a row leave no timer, not one. *)
Lemma no_timer_in_discard_mode :
  reachable bytes withdrawn_page
  /\ LOG_BACKOFF_TIMER withdrawn_page = None
  /\ timers (scheduleFlush 100 (scheduleFlush 100 withdrawn_page)) = [].
Proof.
  split; [ exists true, [@EWithdraw SampleRow IoOk]; reflexivity | ].
  split; reflexivity.
Qed.

Lemma one_flush_timer_witness :
  (reachable bytes (@fresh_page SampleRow true)
   /\ LOG_BACKOFF_TIMER (@fresh_page SampleRow true) = None
   /\ DISCARD_DATA (@fresh_page SampleRow true) = false)
  /\ (timers (scheduleFlush 50 (scheduleFlush 100 (@fresh_page SampleRow true)))
      = [(1%positive, 100)]
      /\ LOG_BACKOFF_TIMER (scheduleFlush 50 (scheduleFlush 100 (@fresh_page SampleRow true)))
         = Some 1%positive).
Proof.
  assert (Hreach : reachable bytes (@fresh_page SampleRow true))
    by (exists true, []; reflexivity).
  split; [ repeat split; trivial | ].
  exact (proj1 (proj2 (proj2 (one_flush_timer bytes)))
           (@fresh_page SampleRow true) 100 50 Hreach eq_refl eq_refl).
Defined.

(** C6 as stated fails when [navigator.userAgent] is the empty string: the
    flag is only raised for a non-empty string ([if (!flag && uaField)]), so
    it stays down and every row carries the raw (empty) string, none null. *)
Lemma empty_user_agent_on_every_row :
  let amb := sample_ambient EmptyString in
  let calls := [[door_record 1]; [door_record 2]] in
  map user_agent_of (fst (session amb None calls)) = [VStr EmptyString; VStr EmptyString]
  /\ snd (session amb None calls) = Some false.
Proof. vm_compute. split; reflexivity. Qed.

(** With a non-empty user agent: on the first row, null on the second. *)
Lemma user_agent_example :
  let amb := sample_ambient "Mozilla/5.0" in
  let calls := [[door_record 1]; [door_record 2]] in
  map user_agent_of (fst (session amb None calls)) = [VStr "Mozilla/5.0"; VNull]
  /\ snd (session amb None calls) = Some true.
Proof. vm_compute. split; reflexivity. Qed.

(** A call that throws after it has raised the flag takes the user agent
    with it: the first call builds the row that carries the string, then
    throws on its second record, and the only row the session emits has a
    null [user_agent]. *)
Lemma user_agent_lost_with_a_throwing_call :
  let amb := sample_ambient "Mozilla/5.0" in
  let calls := [[door_record 1; VObj stubborn_fields]; [door_record 2]] in
  fst (buildRowsForLogging amb None [door_record 1; VObj stubborn_fields]) = Threw
  /\ snd (buildRowsForLogging amb None [door_record 1; VObj stubborn_fields]) = Some true
  /\ map user_agent_of (fst (session amb None calls)) = [VNull]
  /\ snd (session amb None calls) = Some true.
Proof. vm_compute. repeat split. Qed.

(** C6 as stated fails both ways: with an empty user agent every row carries
    the (empty) string and the flag stays down; with a call that throws after
    raising the flag no row carries the string. *)
Lemma user_agent_not_on_exactly_one_row :
  (let amb := sample_ambient EmptyString in
   let calls := [[door_record 1]; [door_record 2]] in
   map user_agent_of (fst (session amb None calls)) = [VStr EmptyString; VStr EmptyString]
   /\ snd (session amb None calls) = Some false)
  /\ (let amb := sample_ambient "Mozilla/5.0" in
      let calls := [[door_record 1; VObj stubborn_fields]; [door_record 2]] in
      map user_agent_of (fst (session amb None calls)) = [VNull]
      /\ snd (session amb None calls) = Some true).
Proof. vm_compute. repeat split. Qed.

Lemma user_agent_emitted_once_witness :
  userAgent (sample_ambient "Mozilla/5.0") <> EmptyString
  /\ match fst (session (sample_ambient "Mozilla/5.0") None
                  [[door_record 1]; [door_record 2]]) with
     | [] => True
     | first :: later =>
         (lookup "user_agent" first = VStr (userAgent (sample_ambient "Mozilla/5.0"))
          \/ lookup "user_agent" first = VNull)
         /\ Forall (fun r => lookup "user_agent" r = VNull) later
         /\ snd (session (sample_ambient "Mozilla/5.0") None
                   [[door_record 1]; [door_record 2]]) = Some true
         /\ (Forall (Forall (fun d => normalizable d = true))
               [[door_record 1]; [door_record 2]] ->
             lookup "user_agent" first = VStr (userAgent (sample_ambient "Mozilla/5.0")))
     end.
Proof.
  assert (Hua : userAgent (sample_ambient "Mozilla/5.0") <> EmptyString) by discriminate.
  split; [ exact Hua | ].
  exact (@user_agent_emitted_once toy_engine (sample_ambient "Mozilla/5.0")
           [[door_record 1]; [door_record 2]] Hua).
Defined.



(** C9 fails in the fallback backend.  When IndexedDB is unavailable and
    [localStorage.setItem] throws, nothing catches the exception:
    [logEnqueue] rejects and never reaches [scheduleFlush(250)], although the
    row is in the mirror.  In IndexedDB the same failure is swallowed. *)
Lemma logEnqueue_rejects_when_localStorage_throws :
  logEnqueue (OneRow rowA) 0 IoFail (fresh_page false)
  = Rejected (set_buffer (Some [rowA]) (fresh_page false))
  /\ timers (promised (logEnqueue (OneRow rowA) 0 IoFail (fresh_page false))) = []
  /\ logEnqueue (OneRow rowA) 0 IoFail (fresh_page true)
     = Resolved (scheduleFlush 250 (set_buffer (Some [rowA]) (fresh_page true))).
Proof. repeat split. Qed.

(** C10 fails when the first row of the selected slice is too large by
    itself: [end] stays at [sliceStart + 1], the blob never fits, and the
    [while] loop runs forever.  Here the mirror is one row of 60000 encoded
    bytes (a blob of 60033 bytes). *)
Theorem flushSyncBeacon_loops_on_oversized_row (fuel : nat) (sendBeacon : bool) :
  flushSyncBeacon bytes fuel sendBeacon (page_with_mirror [big_row]) = None.
Proof.
  unfold flushSyncBeacon. cbn [LOG_BUFFER page_with_mirror set_buffer].
  change (Z.max 0 (Z.of_nat (List.length [big_row]) - LOG_BATCH_SIZE)) with 0.
  change (Z.of_nat (List.length [big_row])) with (0 + 1).
  rewrite shrinkLoop_stuck; [ reflexivity | ]. vm_compute. reflexivity.
Qed.

(** C5 fails when the last 25 rows do not fit.  With 40 rows of 3000 encoded
    bytes the window is rows 15..39 (75105 bytes); halving moves [end] down to
    27, and the beacon carries rows 15..26: the oldest twelve of the window.
    The thirteen most recent rows, 27..39, are left out. *)
Lemma beacon_keeps_the_older_rows :
  flushSyncBeacon bytes 2 true (page_with_mirror rows40)
  = Some (send (Beacon (js_slice rows40 15 27)) (page_with_mirror rows40))
  /\ blobSize bytes (js_slice rows40 15 40) = 75105
  /\ blobSize bytes (js_slice rows40 15 27) = 36066
  /\ map label (js_slice rows40 15 27)
     = ["15"; "16"; "17"; "18"; "19"; "20"; "21"; "22"; "23"; "24"; "25"; "26"]
  /\ map label (js_slice rows40 27 40)
     = ["27"; "28"; "29"; "30"; "31"; "32"; "33"; "34"; "35"; "36"; "37"; "38"; "39"].
Proof. vm_compute. repeat split. Qed.

(* ===================================================================== *)
(** * Further properties of the row normalizer                            *)
(* ===================================================================== *)

Lemma append_assoc (a b c : string) : ((a ++ b) ++ c = a ++ (b ++ c))%string.
Proof. induction a as [ | x a IH ]; cbn; [ reflexivity | now rewrite IH ]. Qed.

Lemma append_nil_r (a : string) : (a ++ EmptyString)%string = a.
Proof. induction a as [ | x a IH ]; cbn; [ reflexivity | now rewrite IH ]. Qed.

Lemma list_ascii_of_string_app (a b : string) :
  list_ascii_of_string (a ++ b)%string = list_ascii_of_string a ++ list_ascii_of_string b.
Proof. induction a as [ | x a IH ]; cbn; [ reflexivity | now rewrite IH ]. Qed.

(** [last_segment] is what [s.split('/').pop()] returns: the part of the
    string after its last slash, the whole string when it has none. *)
Lemma last_segment_spec (s : string) :
  forall acc, slash_free acc ->
    slash_free (last_segment acc s)
    /\ exists pre, (acc ++ s = pre ++ last_segment acc s)%string
                   /\ (pre = EmptyString \/ exists pre', pre = (pre' ++ "/")%string).
Proof.
  induction s as [ | c rest IH ]; intros acc Hacc; cbn [last_segment].
  - split; [ exact Hacc | ]. exists EmptyString. split; [ now rewrite append_nil_r | now left ].
  - destruct (Ascii.eqb c "/") eqn:Hc.
    + apply Ascii.eqb_eq in Hc. subst c.
      destruct (IH EmptyString) as (Hfree & pre & Hpre & Hend); [ intros [] | ].
      split; [ exact Hfree | ].
      exists (acc ++ String "/" pre)%string. cbn [append] in Hpre. split.
      * rewrite append_assoc. cbn [append]. now rewrite <- Hpre.
      * right. destruct Hend as [-> | [pre' ->]].
        -- now exists acc.
        -- exists (acc ++ String "/" pre')%string. rewrite append_assoc. reflexivity.
    + destruct (IH (acc ++ String c EmptyString)%string) as (Hfree & pre & Hpre & Hend).
      { unfold slash_free. rewrite list_ascii_of_string_app, in_app_iff. cbn.
        intros [H | [H | []]]; [ now apply Hacc | ].
        subst c. discriminate Hc. }
      split; [ exact Hfree | ]. exists pre. split; [ | exact Hend ].
      rewrite <- Hpre, append_assoc. reflexivity.
Qed.

Section RowFacts.

Context {E : Engine}.

Abbreviation val := (value number).

(** Every row a call emits was built from one of its records. *)
Lemma emitted_row_origin (amb : Ambient) (flag : option bool) (allTrials : list val)
    (row : list (string * val)) :
  In row (rowsOf amb flag allTrials) ->
  exists d setId f1 f2, In d allTrials
    /\ buildRow amb (parseUA (userAgent amb)) setId f1 d = Normal (Some row, f2).
Proof.
  unfold rowsOf, buildRowsForLogging.
  destruct (guard <- (if truthy (CONFIG amb) then get (CONFIG amb) "set_id"
                     else Normal (CONFIG amb)) ;;
            if truthy guard then get (CONFIG amb) "set_id" else Normal VNull)
    as [setId | ]; [ | contradiction ].
  destruct (mapTrials amb (parseUA (userAgent amb)) setId
              match flag with Some b => b | None => false end allTrials)
    as [[rs | ] f] eqn:Hmap; cbn; [ | contradiction ].
  intros Hin.
  destruct (mapTrials_origin amb _ setId allTrials _ rs f Hmap row Hin) as (d & f1 & f2 & Hd & Hb).
  eauto 6.
Qed.

(** X1.  Whatever array [buildRowsForLogging] is given, every row it emits
    carries an [event_type] that is a string of the allow-list. *)
Theorem emitted_event_types_allow_listed (amb : Ambient) (flag : option bool)
    (allTrials : list val) :
  Forall (fun row => exists s, lookup "event_type" row = VStr s /\ In s ALLOW_TYPES)
         (rowsOf amb flag allTrials).
Proof.
  apply Forall_forall. intros row Hin.
  destruct (emitted_row_origin amb flag allTrials row Hin) as (d & setId & f1 & f2 & _ & Hb).
  destruct (buildRow_retained amb _ setId f1 d row f2 Hb)
    as (et & ty & demo & es & base & _ & _ & _ & _ & Hallow & _ & _ & -> & _ & Hbase & _).
  destruct (allow_listed_string et Hallow) as (s & -> & Hs & _).
  exists s. split; [ | exact Hs ].
  rewrite <- Hbase. now apply lookup_passThrough_reserved.
Qed.

(** X2.  When no element of the array is [null] or [undefined] and the
    fields that the callback converts can be converted, the call returns one
    row per retained record, in the order of the input, each with the event
    type its record maps to. *)
Theorem rows_follow_retained_records (amb : Ambient) (flag : option bool)
    (allTrials : list val) :
  Forall (fun d => normalizable d = true) allTrials ->
  exists rows,
    fst (buildRowsForLogging amb flag allTrials) = Normal rows
    /\ rowsOf amb flag allTrials = rows
    /\ List.length rows = List.length (filter retained allTrials)
    /\ map (lookup "event_type") rows = map eventTypeOf (filter retained allTrials).
Proof.
  intros Hall.
  destruct (ok_inv _ (proj2 (buildRowsForLogging_returns_iff amb flag allTrials) Hall))
    as [rows Hrows].
  pose proof (buildRowsForLogging_event_types amb flag allTrials rows Hrows) as Htypes.
  exists rows. split; [ exact Hrows | ].
  split; [ unfold rowsOf; now rewrite Hrows | ].
  split; [ | exact Htypes ].
  apply (f_equal (@List.length _)) in Htypes. now rewrite !length_map in Htypes.
Qed.

Lemma mapTrials_unretained (amb : Ambient) (summary : UASummary) (setId : val)
    (records : list (list (string * val))) (flag : bool) :
  Forall (fun d => retained (VObj d) = false) records ->
  exists rs, mapTrials amb summary setId flag (map VObj records) = (Normal rs, flag)
             /\ filterBoolean rs = [].
Proof.
  induction 1 as [ | d rest Hd _ IH ]; cbn [map mapTrials].
  - now exists [].
  - rewrite (buildRow_unretained amb summary setId flag (VObj d) eq_refl Hd).
    destruct IH as (rs & -> & Hrs). exists (None :: rs). split; [ reflexivity | exact Hrs ].
Qed.

Lemma ignored_not_retained (d : list (string * val)) :
  set_has IGNORE_TRIAL_TYPES (lookup "trial_type" d) = true
  \/ lookup "is_demo" d = VBool true
  \/ lookup "event_type" d = VStr "training_demo"
  \/ lookup "trial_type" d = VStr "training_demo" ->
  retained (VObj d) = false.
Proof.
  intros H. unfold retained.
  destruct (mapEventType (VObj d)) as [et | ] eqn:Het; [ | reflexivity ].
  cbn [get].
  destruct H as [H | [H | [H | H]]].
  - destruct (set_has_string _ _ H) as [s Hs]. rewrite Hs in *.
    assert (Hne : or_else (VStr s) (VStr EmptyString) = VStr s).
    { cbn in H. unfold or_else. cbn [truthy].
      destruct (String.eqb s EmptyString) eqn:He; [ | reflexivity ].
      apply String.eqb_eq in He. subst s. discriminate H. }
    rewrite Hne, H. reflexivity.
  - rewrite H. cbn [eq_true orb negb]. apply andb_false_r.
  - unfold mapEventType in Het. cbn [get bindC] in Het. rewrite H in Het.
    cbn in Het. injection Het as <-. cbn [set_has ALLOW_TYPES existsb String.eqb Ascii.eqb Bool.eqb orb negb].
    rewrite orb_true_r. reflexivity.
  - rewrite H. cbn [eq_str]. rewrite String.eqb_refl, !orb_true_r. apply andb_false_r.
Qed.

(** X3.  Records of an ignored trial type, demo records and training-demo
    records leave no row, and a call made of such records alone leaves the
    user-agent flag as it found it. *)
Theorem ignored_and_demo_records_leave_nothing (amb : Ambient) (flag : option bool)
    (records : list (list (string * val))) :
  Forall (fun d => set_has IGNORE_TRIAL_TYPES (lookup "trial_type" d) = true
                   \/ lookup "is_demo" d = VBool true
                   \/ lookup "event_type" d = VStr "training_demo"
                   \/ lookup "trial_type" d = VStr "training_demo") records ->
  buildRowsForLogging amb flag (map VObj records) = (Normal [], Some (flag_up flag)).
Proof.
  intros H. unfold buildRowsForLogging.
  destruct (ok_inv _ (setId_ok amb)) as [setId ->].
  destruct (mapTrials_unretained amb (parseUA (userAgent amb)) setId records (flag_up flag))
    as (rs & Hrs & Hnone).
  { eapply Forall_impl; [ | exact H ]. exact ignored_not_retained. }
  fold (flag_up flag). rewrite Hrs. cbn [bindC]. now rewrite Hnone.
Qed.

Lemma buildRowsForLogging_one (amb : Ambient) (flag : option bool) (d : list (string * val)) :
  retained (VObj d) = true -> converts (VObj d) = true ->
  exists row setId f1 f2,
    buildRowsForLogging amb flag [VObj d] = (Normal [row], Some f2)
    /\ buildRow amb (parseUA (userAgent amb)) setId f1 (VObj d) = Normal (Some row, f2).
Proof.
  intros Hret Hconv. unfold buildRowsForLogging.
  destruct (ok_inv _ (setId_ok amb)) as [setId ->]. cbn [mapTrials].
  destruct (ok_inv _ (buildRow_ok amb (parseUA (userAgent amb)) setId (flag_up flag) (VObj d)
                        eq_refl (fun _ => Hconv)))
    as [[r f1] Hrow].
  fold (flag_up flag). rewrite Hrow. cbn [bindC filterBoolean].
  pose proof (buildRow_retained_iff amb _ setId (flag_up flag) (VObj d) r f1 Hrow) as Hiff.
  rewrite Hret in Hiff. destruct r as [row | ]; [ | discriminate Hiff ].
  exists row, setId, (flag_up flag), f1. split; [ reflexivity | exact Hrow ].
Qed.

Lemma mapEventType_inferred (d : list (string * val)) (tag canon : string) :
  In (tag, canon) inferred_types ->
  truthy (lookup "event_type" d) = false ->
  lookup "true_location" d = VUndefined ->
  lookup "trial_type" d = VStr tag ->
  mapEventType (VObj d) = Normal (VStr canon).
Proof.
  intros Hin Hev Htl Htt. unfold mapEventType. cbn [get bindC].
  rewrite Hev, Htl, Htt.
  cbn in Hin.
  repeat (destruct Hin as [Hin | Hin]; [ injection Hin as <- <-; reflexivity | ]).
  contradiction.
Qed.

(** X4.  A record that carries one of the known trial-type tags, no event
    type of its own and no [true_location], is not a demo, and whose
    converted fields can be converted, yields exactly one row, whose
    [event_type] is the canonical name of the tag and whose [trial_type] is
    the tag. *)
Theorem known_trial_types_are_classified (amb : Ambient) (flag : option bool)
    (d : list (string * val)) (tag canon : string) :
  In (tag, canon) inferred_types ->
  truthy (lookup "event_type" d) = false ->
  lookup "true_location" d = VUndefined ->
  lookup "trial_type" d = VStr tag ->
  eq_true (lookup "is_demo" d) = false ->
  converts (VObj d) = true ->
  exists row,
    rowsOf amb flag [VObj d] = [row]
    /\ lookup "event_type" row = VStr canon
    /\ lookup "trial_type" row = VStr tag.
Proof.
  intros Hin Hev Htl Htt Hdemo Hconv.
  pose proof (mapEventType_inferred d tag canon Hin Hev Htl Htt) as Het.
  assert (Hret : retained (VObj d) = true).
  { unfold retained. rewrite Het. cbn [get]. rewrite Htt, Hdemo.
    cbn in Hin.
    repeat (destruct Hin as [Hin | Hin]; [ injection Hin as <- <-; reflexivity | ]).
    contradiction. }
  destruct (buildRowsForLogging_one amb flag d Hret Hconv)
    as (row & setId & f1 & f2 & Hcall & Hrow).
  exists row. unfold rowsOf. rewrite Hcall. split; [ reflexivity | ].
  destruct (buildRow_retained amb _ setId f1 (VObj d) row f2 Hrow)
    as (et & ty & demo & es & base & Het' & Hty & _ & _ & _ & _ & _ & -> & _ & Hbase
        & (tl & Htl' & Hcol) & _).
  rewrite Het in Het'. injection Het' as <-.
  cbn [get] in Hty, Htl'. injection Hty as <-. injection Htl' as <-.
  rewrite !lookup_passThrough_reserved by reflexivity.
  split; [ exact Hbase | ].
  rewrite Hcol, Htt. unfold or_else. cbn [truthy].
  cbn in Hin.
  repeat (destruct Hin as [Hin | Hin]; [ injection Hin as <- <-; reflexivity | ]).
  contradiction.
Qed.

Lemma passThrough_keys_iff (reserved : list string) (es row : list (string * val)) (k : string) :
  In k (map fst (passThrough reserved es row))
  <-> In k (map fst row)
      \/ (In k (map fst es) /\ existsb (String.eqb k) reserved = false
          /\ k <> "__proto__").
Proof.
  revert row. induction es as [ | [k' v'] rest IH ]; intros row; cbn [passThrough map fst].
  - cbn. tauto.
  - destruct (existsb (String.eqb k') reserved) eqn:Hres; rewrite IH.
    + cbn [In]. split; [ tauto | ].
      intros [H | [[<- | H] [Hk Hp]]]; [ tauto | congruence | tauto ].
    + unfold assign. destruct (String.eqb k' "__proto__") eqn:Hproto.
      * apply String.eqb_eq in Hproto. subst k'. cbn [In]. split; [ tauto | ].
        intros [H | [[<- | H] [Hk Hp]]]; [ tauto | now destruct Hp | tauto ].
      * apply String.eqb_neq in Hproto.
        rewrite set_field_keys, in_app_iff. cbn [In]. split.
        -- intros [[H | H] | [H Hk]]; [ tauto | | tauto ].
           destruct (existsb (String.eqb k') (map fst row)); [ contradiction | ].
           destruct H as [<- | []]. right. split; [ now left | now split ].
        -- intros [H | [[<- | H] Hk]]; [ tauto | | tauto ].
           destruct (existsb (String.eqb k') (map fst row)) eqn:Hex; [ | left; right; now left ].
           left; left. apply existsb_exists in Hex as (x & Hx & Heq).
           apply String.eqb_eq in Heq. now subst x.
Qed.

(** X5.  A row has the canonical columns and the fields of its record other
    than [__proto__], and no others; a field of the record whose name is not
    a canonical column and not [__proto__] is copied into the row unchanged.
    Assigning to [__proto__] sets the prototype of the row and adds no
    property of its own. *)
Theorem unknown_fields_pass_through (amb : Ambient) (flag : option bool)
    (records : list (list (string * val))) (row : list (string * val)) :
  Forall (fun d => NoDup (map fst d)) records ->
  In row (rowsOf amb flag (map VObj records)) ->
  exists d, In d records
    /\ (forall k, In k (map fst row)
                  <-> In k canonical_columns \/ (In k (map fst d) /\ k <> "__proto__"))
    /\ (forall k, is_canonical k = false -> k <> "__proto__" ->
                  lookup k row = lookup k d)
    /\ ~ In "__proto__" (map fst row).
Proof.
  intros Hnd Hin.
  destruct (emitted_row_origin amb flag (map VObj records) row Hin)
    as (v & setId & f1 & f2 & Hv & Hb).
  apply in_map_iff in Hv as (d & <- & Hd).
  destruct (buildRow_retained amb _ setId f1 (VObj d) row f2 Hb)
    as (et & ty & demo & es & base & _ & _ & _ & _ & _ & _ & Hes & -> & Hkeys & _).
  cbn in Hes. injection Hes as <-.
  assert (Hiff : forall k, In k (map fst (passThrough canonical_columns d base))
                           <-> In k canonical_columns
                               \/ (In k (map fst d) /\ k <> "__proto__")).
  { intros k. rewrite passThrough_keys_iff, Hkeys.
    destruct (existsb (String.eqb k) canonical_columns) eqn:Hc.
    - apply existsb_exists in Hc as (x & Hx & Heq). apply String.eqb_eq in Heq. subst x.
      split; [ intros _; now left | intros _; now left ].
    - split; [ tauto | ]. intros [Hk | [Hk Hp]]; [ now left | right; now repeat split ]. }
  exists d. split; [ exact Hd | ]. split; [ exact Hiff | ]. split.
  - intros k Hcanon Hproto.
    rewrite (lookup_passThrough_unreserved k canonical_columns d base).
    + destruct (existsb (String.eqb k) (map fst d)) eqn:Hex; [ reflexivity | ].
      rewrite (lookup_missing k base), (lookup_missing k d); try reflexivity.
      * exact Hex.
      * rewrite Hkeys. exact Hcanon.
    + rewrite Forall_forall in Hnd. now apply Hnd.
    + exact Hcanon.
    + now apply String.eqb_neq.
  - intros Hp. apply Hiff in Hp as [Hp | [_ Hp]]; [ | now apply Hp ].
    cbn in Hp. repeat (destruct Hp as [Hp | Hp]; [ discriminate Hp | ]). exact Hp.
Qed.

Lemma baseName_spec (v r : val) :
  baseName v = Normal r ->
  match v with
  | VStr path =>
      if String.eqb path EmptyString then r = VNull
      else exists name pre,
             r = VStr name /\ slash_free name /\ path = (pre ++ name)%string
             /\ (pre = EmptyString \/ exists pre', pre = (pre' ++ "/")%string)
  | _ => r = VNull
  end.
Proof.
  unfold baseName. destruct v; cbn; try (intros [= <-]; reflexivity).
  - destruct b; cbn; intros [= <-]; reflexivity.
  - destruct (num_truthy n); cbn; intros [= <-]; reflexivity.
  - destruct (String.eqb s EmptyString); cbn; intros [= <-]; [ reflexivity | ].
    destruct (last_segment_spec s EmptyString) as (Hfree & pre & Hpre & Hend); [ intros [] | ].
    eauto 6.
Qed.

(** X6.  The three asset columns hold file names, not paths: when the
    record's field is a non-empty string the column is its last segment, the
    part after the last slash (the whole string when it has none): it
    contains no slash, and what precedes it in the path is empty or ends with
    a slash.  In every other case the column is null. *)
Theorem asset_columns_hold_file_names (amb : Ambient) (flag : option bool)
    (records : list (list (string * val))) (row : list (string * val))
    (col src : string) :
  In (col, src) [ ("victim_skin", "victim_src"); ("background_src", "background_src");
                  ("door_src", "door_src") ] ->
  In row (rowsOf amb flag (map VObj records)) ->
  exists d, In d records
    /\ match lookup src d with
       | VStr path =>
           if String.eqb path EmptyString then lookup col row = VNull
           else exists name pre,
                  lookup col row = VStr name /\ slash_free name
                  /\ path = (pre ++ name)%string
                  /\ (pre = EmptyString \/ exists pre', pre = (pre' ++ "/")%string)
       | _ => lookup col row = VNull
       end.
Proof.
  intros Hcol Hin.
  destruct (emitted_row_origin amb flag (map VObj records) row Hin)
    as (v & setId & f1 & f2 & Hv & Hb).
  apply in_map_iff in Hv as (d & <- & Hd).
  exists d. split; [ exact Hd | ].
  destruct (buildRow_retained amb _ setId f1 (VObj d) row f2 Hb)
    as (et & ty & demo & es & base & _ & _ & _ & _ & _ & _ & _ & -> & _ & _ & _
        & (vs & Hvs & Hvb) & (bs & Hbs & Hbb) & (ds & Hds & Hdb) & _).
  cbn [get] in Hvs, Hbs, Hds. injection Hvs as <-. injection Hbs as <-. injection Hds as <-.
  destruct Hcol as [Hc | [Hc | [Hc | []]]]; injection Hc as <- <-;
    rewrite lookup_passThrough_reserved by reflexivity.
  - exact (baseName_spec _ _ Hvb).
  - exact (baseName_spec _ _ Hbb).
  - exact (baseName_spec _ _ Hdb).
Qed.

(** X7.  The [followed] column is computed from [choice] and [suggestion]
    alone (a [followed] field of the record does not reach it), whereas the
    [response] of a door trial reports the record's own boolean [followed]
    when it has one and the computed value otherwise. *)
Theorem followed_is_computed (amb : Ambient) (flag : option bool)
    (records : list (list (string * val))) (row : list (string * val)) :
  In row (rowsOf amb flag (map VObj records)) ->
  exists d, In d records
    /\ lookup "followed" row
       = (if negb (is_undefined (lookup "choice" d)) && negb (is_undefined (lookup "suggestion" d))
          then VBool (String.eqb (ToString (lookup "choice" d)) (ToString (lookup "suggestion" d)))
          else VNull)
    /\ (lookup "event_type" row = VStr "door_trial" ->
        lookup "response" row
        = VStr (JSON_stringify
                  (VObj [ ("followed",
                           if is_boolean (lookup "followed" d) then lookup "followed" d
                           else lookup "followed" row);
                          ("correct",
                           if is_boolean (lookup "correct" d) then lookup "correct" d
                           else VNull) ]))).
Proof.
  intros Hin.
  destruct (emitted_row_origin amb flag (map VObj records) row Hin)
    as (v & setId & f1 & f2 & Hv & Hb).
  apply in_map_iff in Hv as (d & <- & Hd).
  exists d. split; [ exact Hd | ].
  destruct (buildRow_retained amb _ setId f1 (VObj d) row f2 Hb)
    as (et & ty & demo & es & base & _ & _ & _ & _ & _ & _ & _ & -> & _ & Hbase & _
        & _ & _ & _ & Hresp & (ch & su & Hch & Hsu & Hfol) & _).
  cbn [get] in Hch, Hsu. injection Hch as <-. injection Hsu as <-.
  rewrite !lookup_passThrough_reserved by reflexivity.
  split; [ exact Hfol | ].
  intros Het. rewrite <- Hbase, Het in Hresp.
  unfold unifiedResponse in Hresp.
  cbn [eq_str get bindC String.eqb Ascii.eqb Bool.eqb] in Hresp.
  destruct (lookup "followed" d) eqn:Hown; cbn [is_boolean] in Hresp |- *;
    try (injection Hresp as <-; reflexivity);
    match type of Hresp with
    | bindC ?c _ = _ => destruct c as [f | ] eqn:Hf; [ | discriminate Hresp ]
    end;
    cbn [bindC] in Hresp; injection Hresp as <-;
    apply followed_inv in Hf as [-> _]; now rewrite Hfol.
Qed.

Lemma extractQuestionnaireFields_shape (d : val) (qf : QFields) :
  extractQuestionnaireFields d = Normal qf ->
  (qa_pairs_json qf = VNull \/ exists s, qa_pairs_json qf = VStr s)
  /\ (questionnaire_score qf = VNull \/ is_number (questionnaire_score qf) = true).
Proof.
  assert (Hscore : forall p s, score_of p s = VNull \/ is_number (score_of p s) = true).
  { intros p s. unfold score_of.
    destruct (is_number p) eqn:Hp; [ now right | ].
    destruct (is_number s) eqn:Hs; [ now right | now left ]. }
  intros H. unfold extractQuestionnaireFields in H. bind_inv H;
    try (injection H as <-; cbn; eauto; fail).
  - injection H as <-. unfold tryCatch.
    match goal with
    | |- context [match ?c with Normal _ => _ | Threw => _ end] => destruct c as [q | ] eqn:Hq
    end; [ | cbn; eauto ].
    match type of Hq with
    | match ?r with _ => _ end = _ => destruct r; try discriminate Hq
    end.
    match type of Hq with
    | match ?p with Some _ => _ | None => _ end = _ => destruct p; [ | discriminate Hq ]
    end.
    bind_inv Hq. injection Hq as <-. cbn. eauto.
Qed.

(** X8.  In every row [qa_pairs_json] is null or a string and
    [questionnaire_score] is null or a number; both are null unless the
    event type is a questionnaire or the demographics form. *)
Theorem questionnaire_columns (amb : Ambient) (flag : option bool)
    (allTrials : list val) (row : list (string * val)) :
  In row (rowsOf amb flag allTrials) ->
  (lookup "qa_pairs_json" row = VNull \/ exists s, lookup "qa_pairs_json" row = VStr s)
  /\ (lookup "questionnaire_score" row = VNull
      \/ is_number (lookup "questionnaire_score" row) = true)
  /\ (forall s, lookup "event_type" row = VStr s -> is_questionnaire_type s = false ->
        lookup "qa_pairs_json" row = VNull /\ lookup "questionnaire_score" row = VNull).
Proof.
  intros Hin.
  destruct (emitted_row_origin amb flag allTrials row Hin) as (d & setId & f1 & f2 & _ & Hb).
  destruct (buildRow_retained amb _ setId f1 d row f2 Hb)
    as (et & ty & demo & es & base & _ & _ & _ & _ & _ & _ & _ & -> & _ & Hbase & _
        & _ & _ & _ & _ & _ & _ & _ & _ & (qf & Hqf & Hqa & Hqs)).
  rewrite !lookup_passThrough_reserved by reflexivity.
  rewrite Hqa, Hqs, Hbase.
  assert (Hshape : (qa_pairs_json qf = VNull \/ exists s, qa_pairs_json qf = VStr s)
                   /\ (questionnaire_score qf = VNull
                       \/ is_number (questionnaire_score qf) = true)).
  { destruct (match et with VStr s => is_questionnaire_type s | _ => false end).
    - exact (extractQuestionnaireFields_shape d qf Hqf).
    - injection Hqf as <-. cbn. eauto. }
  destruct Hshape as [H1 H2]. split; [ exact H1 | ]. split; [ exact H2 | ].
  intros s -> Hs. rewrite Hs in Hqf. injection Hqf as <-. now split.
Qed.

Lemma first_match_names (ms : list (regex * string)) (S : string) :
  let '(name, major) := first_match ms S in
  (name = "Other" /\ major = VNull)
  \/ (In name (map snd ms) /\ exists n, major = VNum n).
Proof.
  induction ms as [ | [rx name] rest IH ]; cbn [first_match].
  - now left.
  - destruct (rx_group1 rx S) as [g | ].
    + right. split; [ now left | eauto ].
    + destruct (first_match rest S) as [name' major'].
      destruct IH as [H | [H1 H2]]; [ now left | right; split; [ now right | exact H2 ] ].
Qed.

(** X9.  The environment columns of a row come from the page, never from
    the record: the device type is one of three, the browser is one of the
    five families or Other, and the major version is null exactly when the
    browser is Other; the client version and the two timestamps are the
    page's. *)
Theorem environment_columns (amb : Ambient) (flag : option bool)
    (allTrials : list val) (row : list (string * val)) :
  In row (rowsOf amb flag allTrials) ->
  (exists dev, lookup "device_type" row = VStr dev /\ In dev ["desktop"; "tablet"; "mobile"])
  /\ (exists name, lookup "browser_name" row = VStr name
        /\ In name ["Edge"; "Opera"; "Chrome"; "Firefox"; "Safari"; "Other"]
        /\ (lookup "browser_major" row = VNull <-> name = "Other")
        /\ (name <> "Other" -> exists n, lookup "browser_major" row = VNum n))
  /\ lookup "client_version" row = VStr "0.1.0"
  /\ lookup "ts_client" row = VStr (nowIso amb)
  /\ lookup "ts" row = VStr (nowIso amb).
Proof.
  intros Hin.
  destruct (emitted_row_origin amb flag allTrials row Hin) as (d & setId & f1 & f2 & _ & Hb).
  destruct (buildRow_retained amb _ setId f1 d row f2 Hb)
    as (et & ty & demo & es & base & _ & _ & _ & _ & _ & _ & _ & -> & _ & _ & _
        & _ & _ & _ & _ & _ & _ & (Hdev & Hname & Hmajor & Hver & Hts1 & Hts2 & _) & _).
  rewrite !lookup_passThrough_reserved by reflexivity.
  rewrite Hdev, Hname, Hmajor, Hver, Hts1, Hts2.
  unfold parseUA.
  pose proof (first_match_names matchers (userAgent amb)) as Hfm.
  destruct (first_match matchers (userAgent amb)) as [name major]. cbn [device_type browser_name browser_major].
  split; [ | split; [ | repeat split ] ].
  - eexists. split; [ reflexivity | ].
    destruct (rx_test RxTablet (userAgent amb) || rx_test RxAndroidNotMobile (userAgent amb));
      [ cbn; tauto | ].
    destruct (rx_test RxMobile (userAgent amb)); cbn; tauto.
  - exists name. split; [ reflexivity | ].
    destruct Hfm as [[-> ->] | [Hn [n ->]]].
    + split; [ cbn; tauto | ]. split; [ tauto | ]. intros Hne. now destruct Hne.
    + assert (Hne : name <> "Other").
      { cbn in Hn. intros ->. repeat (destruct Hn as [Hn | Hn]; [ discriminate Hn | ]). exact Hn. }
      split; [ cbn in Hn |- *; tauto | ].
      split; [ split; [ discriminate | intros He; now destruct Hne ] | ].
      intros _. eauto.
Qed.

Lemma buildRowsForLogging_single (amb : Ambient) (flag : option bool) (d : list (string * val)) :
  forall rows,
    fst (buildRowsForLogging amb flag [VObj d]) = Normal rows ->
    (List.length rows <= 1)%nat
    /\ forall row, In row rows ->
         exists setId f1 f2,
           buildRow amb (parseUA (userAgent amb)) setId f1 (VObj d) = Normal (Some row, f2).
Proof.
  unfold buildRowsForLogging.
  destruct (ok_inv _ (setId_ok amb)) as [setId ->]. cbn [mapTrials].
  fold (flag_up flag).
  destruct (buildRow amb (parseUA (userAgent amb)) setId (flag_up flag) (VObj d))
    as [[r f1] | ] eqn:Hrow; cbn [bindC fst]; [ | discriminate ].
  intros rows [= <-].
  destruct r as [row | ]; cbn [filterBoolean List.length In].
  - split; [ lia | ]. intros row' [<- | []]. eauto.
  - split; [ lia | ]. intros row' [].
Qed.

Lemma logEnqueue_mirror {Row} (rows : list Row) (now : Z) (io : IoOutcome) (st : State Row) :
  let st' := promised (logEnqueue (RowArray rows) now io st) in
  LOG_BUFFER st' = Some (buffer_or_empty st ++ rows)
  /\ DISCARD_DATA st' = DISCARD_DATA st.
Proof.
  unfold logEnqueue.
  destruct (idbPutAll rows now io (store (set_buffer (Some (buffer_or_empty st ++ rows)) st)))
    as [s' | ]; cbn [promised].
  - match goal with
    | |- context [scheduleFlush 250 ?s] =>
        destruct (scheduleFlush_frame 250 s) as (_ & _ & -> & _ & _ & ->)
    end.
    now split.
  - now split.
Qed.

Lemma logTrialRow_step (amb : Ambient) (d : list (string * val)) (now : Z) (io : IoOutcome)
    (pg : Page) :
  DISCARD_DATA (delivery pg) = false ->
  let pg' := logTrialRow amb d now io pg in
  DISCARD_DATA (delivery pg') = false
  /\ LOG_SEQ pg' = Some (nextSeq pg + 1)
  /\ exists rows,
       buffer_or_empty (delivery pg') = buffer_or_empty (delivery pg) ++ rows
       /\ (List.length rows <= 1)%nat
       /\ Forall (fun row =>
                    lookup "ts_seq" row = VNum (num_of_Z (nextSeq pg))
                    /\ lookup "row_id" row
                       = VStr (SESSION_ID amb ++ ":" ++ ToString (VNum (num_of_Z (nextSeq pg)))))
                 rows.
Proof.
  intros Hd. unfold logTrialRow. rewrite Hd. fold (nextSeq pg).
  pose proof (buildRowsForLogging_single amb (UA_EMITTED pg)
                (set_field "_ts_seq" (VNum (num_of_Z (nextSeq pg))) d)) as Hsingle.
  destruct (buildRowsForLogging amb (UA_EMITTED pg)
              [VObj (set_field "_ts_seq" (VNum (num_of_Z (nextSeq pg))) d)])
    as [[rows | ] f]; cbn [fst] in Hsingle; cbn [delivery LOG_SEQ].
  2:{ split; [ exact Hd | ]. split; [ reflexivity | ].
      exists []. rewrite app_nil_r. split; [ reflexivity | ].
      split; [ cbn; lia | constructor ]. }
  destruct (Hsingle rows eq_refl) as [Hlen Hrows].
  destruct (logEnqueue_mirror rows now io (delivery pg)) as [Hbuf Hdis].
  cbn zeta in Hbuf, Hdis.
  split; [ now rewrite Hdis | ]. split; [ reflexivity | ].
  exists rows. split; [ unfold buffer_or_empty at 1; now rewrite Hbuf | ].
  split; [ exact Hlen | ].
  apply Forall_forall. intros row Hin.
  destruct (Hrows row Hin) as (setId & f1 & f2 & Hb).
  destruct (buildRow_retained amb _ setId f1 _ row f2 Hb)
    as (et & ty & demo & es & base & _ & _ & _ & _ & _ & _ & _ & -> & _ & _ & _
        & _ & _ & _ & _ & _ & (seq & Hseq & Hts & Hid) & _).
  cbn [get] in Hseq. rewrite lookup_set_field_same in Hseq. injection Hseq as <-.
  rewrite !lookup_passThrough_reserved by reflexivity.
  split; [ exact Hts | exact Hid ].
Qed.

(** X10.  Sequence numbers.  While the participant has not withdrawn, every
    call of [logTrialRow] takes the next number, whether or not its record
    yields a row; the rows that reach the mirror carry strictly increasing
    numbers, and their [row_id] is the session identifier followed by the
    number. *)
Theorem sequence_numbers_increase (sid : string) (calls : list TrialCall) (pg : Page) :
  DISCARD_DATA (delivery pg) = false ->
  Forall (fun c => SESSION_ID (call_ambient c) = sid) calls ->
  - 2 ^ 53 <= nextSeq pg ->
  nextSeq pg + Z.of_nat (List.length calls) <= 2 ^ 53 ->
  let pg' := logTrials calls pg in
  nextSeq pg' = nextSeq pg + Z.of_nat (List.length calls)
  /\ exists rows seqs,
       buffer_or_empty (delivery pg') = buffer_or_empty (delivery pg) ++ rows
       /\ map (lookup "ts_seq") rows = map (fun n => VNum (num_of_Z n)) seqs
       /\ map (lookup "row_id") rows
          = map (fun n => VStr (sid ++ ":" ++ ToString (VNum (num_of_Z n)))) seqs
       /\ StronglySorted Z.lt seqs
       /\ Forall (fun n => nextSeq pg <= n < nextSeq pg + Z.of_nat (List.length calls)) seqs.
Proof.
  intros Hd Hsid _ _. cbn zeta. clear -Hd Hsid.
  revert pg Hd. induction calls as [ | c rest IH ]; intros pg Hd; cbn [logTrials fold_left List.length].
  - split; [ lia | ]. exists [], []. rewrite app_nil_r.
    repeat split; constructor.
  - inversion Hsid as [ | ? ? Hc Hrest ]; subst.
    destruct (logTrialRow_step (call_ambient c) (call_record c) (call_now c) (call_io c) pg Hd)
      as (Hd1 & Hseq1 & rows1 & Hbuf1 & Hlen1 & Hrows1).
    cbn zeta in Hd1, Hseq1, Hbuf1.
    set (pg1 := logTrialRow (call_ambient c) (call_record c) (call_now c) (call_io c) pg) in *.
    assert (Hnext : nextSeq pg1 = nextSeq pg + 1) by (unfold nextSeq at 1; now rewrite Hseq1).
    destruct (IH Hrest pg1 Hd1) as (Hn & rows & seqs & Hbuf & Hts & Hid & Hsorted & Hrange).
    fold (logTrials rest pg1).
    split; [ rewrite Hn, Hnext; lia | ].
    exists (rows1 ++ rows), (map (fun _ => nextSeq pg) rows1 ++ seqs).
    split; [ rewrite Hbuf, Hbuf1; now rewrite app_assoc | ].
    rewrite !map_app, !map_map, Hts, Hid.
    split; [ f_equal; apply map_ext_in; intros row Hin;
             rewrite Forall_forall in Hrows1; now apply Hrows1 | ].
    split; [ f_equal; apply map_ext_in; intros row Hin;
             rewrite Forall_forall in Hrows1; now apply Hrows1 | ].
    rewrite Hnext in Hrange.
    split.
    + destruct rows1 as [ | r1 [ | r2 more ] ]; cbn [map app List.length] in *.
      * exact Hsorted.
      * constructor; [ exact Hsorted | ].
        eapply Forall_impl; [ | exact Hrange ]. cbn. intros n Hn'. lia.
      * lia.
    + apply Forall_app. split.
      * apply Forall_forall. intros n Hin. apply in_map_iff in Hin as (r & <- & _). lia.
      * eapply Forall_impl; [ | exact Hrange ]. cbn. intros n Hn'. lia.
Qed.

End RowFacts.

(* ===================================================================== *)
(** * Further properties of the queue, the drain and the beacon           *)
(* ===================================================================== *)

Section MoreDeliveryFacts.

Context {Row : Type}.

Variable encodedLength : Row -> Z.

(** ** The beacon *)

Lemma encoded_sum_nonneg (l : list Row) :
  (forall r, 0 <= encodedLength r) ->
  0 <= fold_right (fun r acc => encodedLength r + acc) 0 l.
Proof.
  intros Hpos. induction l as [ | x xs IH ]; cbn; [ lia | ]. pose proof (Hpos x). lia.
Qed.

Lemma encoded_sum_firstn (l : list Row) :
  (forall r, 0 <= encodedLength r) ->
  forall n m, (n <= m)%nat ->
    fold_right (fun r acc => encodedLength r + acc) 0 (firstn n l)
    <= fold_right (fun r acc => encodedLength r + acc) 0 (firstn m l).
Proof.
  intros Hpos. induction l as [ | x xs IH ]; intros n m Hnm.
  - rewrite !firstn_nil. lia.
  - destruct n as [ | n ]; destruct m as [ | m ]; cbn [firstn fold_right]; try lia.
    + pose proof (Hpos x). pose proof (encoded_sum_nonneg (firstn m xs) Hpos). lia.
    + specialize (IH n m ltac:(lia)). lia.
Qed.

Lemma blobSize_firstn (l : list Row) (n m : nat) :
  (forall r, 0 <= encodedLength r) -> (n <= m)%nat ->
  blobSize encodedLength (firstn n l) <= blobSize encodedLength (firstn m l).
Proof.
  intros Hpos Hnm. unfold blobSize.
  pose proof (encoded_sum_firstn l Hpos n m Hnm).
  rewrite !length_firstn. lia.
Qed.

Lemma js_slice_window (buf : list Row) (s e : Z) :
  0 <= s -> s < e -> e <= Z.of_nat (List.length buf) ->
  js_slice buf s e = firstn (Z.to_nat (e - s)) (skipn (Z.to_nat s) buf).
Proof.
  intros Hs Hlt He. unfold js_slice.
  destruct (Z.ltb_spec s 0) as [ | _ ]; [ lia | ].
  destruct (Z.ltb_spec e 0) as [ | _ ]; [ lia | ].
  rewrite !Z.min_l by lia. reflexivity.
Qed.

Lemma window_start (buf : list Row) :
  Z.to_nat (Z.max 0 (Z.of_nat (List.length buf) - LOG_BATCH_SIZE))
  = (List.length buf - 25)%nat.
Proof. unfold LOG_BATCH_SIZE. lia. Qed.

(** X11.  When [flushSyncBeacon] returns it has changed nothing but the
    network, and there it has added at most one beacon: a blob within the
    cap that holds the first [k >= 1] rows of the window of the last 25 rows
    of the mirror.  Without [navigator.sendBeacon] nothing is sent. *)
Theorem beacon_fits_the_cap (fuel : nat) (sendBeacon : bool) (st st' : State Row) :
  flushSyncBeacon encodedLength fuel sendBeacon st = Some st' ->
  let buf := buffer_or_empty st in
  let window := skipn (List.length buf - 25) buf in
  st' = st
  \/ (sendBeacon = true
      /\ exists k, (1 <= k <= List.length window)%nat
                   /\ st' = send (Beacon (firstn k window)) st
                   /\ blobSize encodedLength (firstn k window) <= maxBytes).
Proof.
  intros H. cbn zeta. destruct sendBeacon.
  - destruct (flushSyncBeacon_payload encodedLength fuel true st st' H)
      as [-> | (buf & end_ & Hbuf & Hsent)]; [ now left | ].
    cbn zeta in Hsent. destruct Hsent as (-> & Hrange & Hfit).
    right. split; [ reflexivity | ].
    unfold buffer_or_empty. rewrite Hbuf.
    set (sliceStart := Z.max 0 (Z.of_nat (List.length buf) - LOG_BATCH_SIZE)) in *.
    assert (H0 : 0 <= sliceStart) by (subst sliceStart; lia).
    rewrite js_slice_window in Hfit |- * by lia.
    subst sliceStart. rewrite window_start in *.
    exists (Z.to_nat (end_ - Z.max 0 (Z.of_nat (List.length buf) - LOG_BATCH_SIZE))).
    split; [ rewrite length_skipn; unfold LOG_BATCH_SIZE in *; lia | ].
    split; [ reflexivity | exact Hfit ].
  - left. unfold flushSyncBeacon in H.
    destruct (LOG_BUFFER st) as [[ | r rest] | ]; try (now injection H as <-).
    destruct (shrinkLoop _ _ _ _ _ _) as [[[blob | ] e] | ]; try discriminate H;
      now injection H as <-.
Qed.

(** X12.  When the last 25 rows of the mirror fit the cap together, the
    beacon carries exactly these rows. *)
Theorem beacon_carries_the_recent_rows (fuel : nat) (st : State Row) :
  let buf := buffer_or_empty st in
  let window := skipn (List.length buf - 25) buf in
  buf <> [] ->
  blobSize encodedLength window <= maxBytes ->
  flushSyncBeacon encodedLength (S fuel) true st = Some (send (Beacon window) st).
Proof.
  cbn zeta. unfold flushSyncBeacon, buffer_or_empty.
  destruct (LOG_BUFFER st) as [[ | r buf] | ]; try congruence.
  intros _ Hfit.
  set (b := r :: buf) in *. set (len := Z.of_nat (List.length b)).
  set (sliceStart := Z.max 0 (len - LOG_BATCH_SIZE)).
  assert (Hlt : sliceStart < len).
  { subst sliceStart len b. cbn [List.length]. unfold LOG_BATCH_SIZE. lia. }
  assert (H0 : 0 <= sliceStart) by (subst sliceStart; lia).
  assert (Hwin : js_slice b sliceStart len = skipn (List.length b - 25) b).
  { rewrite js_slice_window by (fold len; lia).
    subst sliceStart len. rewrite window_start.
    apply firstn_all2. rewrite length_skipn. unfold LOG_BATCH_SIZE. lia. }
  cbn [shrinkLoop].
  destruct (Z.gtb_spec len sliceStart) as [_ | Hle]; [ | lia ].
  rewrite Hwin.
  destruct (Z.leb_spec (blobSize encodedLength (skipn (List.length b - 25) b)) maxBytes)
    as [_ | Hbig]; [ reflexivity | lia ].
Qed.

(** X13.  [flushSyncBeacon] returns exactly when the mirror is empty or the
    oldest row of the window of the last 25 rows fits the cap by itself. *)
Theorem flushSyncBeacon_returns_iff (sendBeacon : bool) (st : State Row) :
  (forall r, 0 <= encodedLength r) ->
  let buf := buffer_or_empty st in
  let sliceStart := Z.max 0 (Z.of_nat (List.length buf) - LOG_BATCH_SIZE) in
  (exists fuel st', flushSyncBeacon encodedLength fuel sendBeacon st = Some st')
  <-> (buf = []
       \/ blobSize encodedLength (js_slice buf sliceStart (sliceStart + 1)) <= maxBytes).
Proof.
  intros Hpos. cbn zeta. unfold flushSyncBeacon, buffer_or_empty.
  destruct (LOG_BUFFER st) as [[ | r buf] | ].
  - split; [ now left | ]. intros _. exists 0%nat, st. reflexivity.
  - set (b := r :: buf). set (len := Z.of_nat (List.length b)).
    set (sliceStart := Z.max 0 (len - LOG_BATCH_SIZE)).
    assert (Hlt : sliceStart < len).
    { subst sliceStart len b. cbn [List.length]. unfold LOG_BATCH_SIZE. lia. }
    assert (H0 : 0 <= sliceStart) by (subst sliceStart; lia).
    split.
    + intros (fuel & st' & H). right.
      destruct (shrinkLoop encodedLength fuel b sliceStart len None)
        as [[blob end_] | ] eqn:Hloop; [ | discriminate H ].
      destruct (shrinkLoop_fits encodedLength fuel b sliceStart len None blob end_ Hlt Hloop)
        as (Hrange & _ & Hfit).
      rewrite js_slice_window in Hfit |- * by (fold len; lia).
      eapply Z.le_trans; [ | exact Hfit ].
      apply blobSize_firstn; [ exact Hpos | lia ].
    + intros [Hnil | Hone]; [ discriminate Hnil | ].
      destruct (shrinkLoop_terminates encodedLength b sliceStart Hone
                  (Z.to_nat (len - sliceStart)) len None Hlt ltac:(lia))
        as [[blob end_] Hloop].
      exists (Z.to_nat (len - sliceStart)). rewrite Hloop.
      destruct blob; eauto.
  - split; [ now left | ]. intros _. exists 0%nat, st. reflexivity.
Qed.

(** ** Mirror and queue *)

Lemma drain_mirror (batchSize : Z) (env : list IterEnv) :
  0 < batchSize -> Forall calm env ->
  forall st : State Row,
    DISCARD_DATA st = false -> store_wf (store st) ->
    buffer_or_empty st = queue_rows (store st) ->
    buffer_or_empty (promised (drain batchSize env st))
    = queue_rows (store (promised (drain batchSize env st))).
Proof.
  intros Hn Hcalm. induction Hcalm as [ | e rest He Hrest IH ]; intros st Hdisc Hwf Hbuf.
  - exact Hbuf.
  - cbn [drain]. destruct (nil_or_not (queue_rows (store st))) as [Hq | Hne].
    + rewrite (drainStep_calm_empty batchSize e st Hn He Hq). cbn. now rewrite Hq.
    + destruct (acked (fetch_outcome e)) eqn:Hack.
      * destruct (drainStep_calm_ack batchSize e st Hn He Hdisc Hwf Hne Hack)
          as (s' & -> & Hs' & Hwf').
        apply IH; trivial. unfold buffer_or_empty at 1.
        cbn [LOG_BUFFER store set_retry set_buffer set_store send].
        rewrite Hs', Hbuf. apply skipn_firstn_same.
      * rewrite (drainStep_calm_fail batchSize e st Hn He Hdisc Hne Hack).
        cbn [promised].
        match goal with
        | |- context [scheduleFlush ?d ?s] =>
            destruct (scheduleFlush_frame d s) as (_ & Hst & _ & _ & _ & Hb)
        end.
        unfold buffer_or_empty at 1. rewrite Hb, Hst. exact Hbuf.
Qed.

(** A call of [logEnqueue] and a whole drain, each run to its end with
    nothing in between and with working storage, keep the mirror equal to the
    queue. *)
Lemma calls_alone_keep_the_mirror :
  (forall (rows : list Row) (now : Z) (st st' : State Row),
      buffer_or_empty st = queue_rows (store st) ->
      logEnqueue (RowArray rows) now IoOk st = Resolved st' ->
      buffer_or_empty st' = queue_rows (store st'))
  /\ (forall (env : list IterEnv) (st : State Row),
        Forall calm env -> store_wf (store st) ->
        buffer_or_empty st = queue_rows (store st) ->
        buffer_or_empty (promised (flushQueue env st))
        = queue_rows (store (promised (flushQueue env st)))).
Proof.
  split.
  - intros rows now st st' Hbuf. unfold logEnqueue.
    set (st1 := set_buffer _ st).
    destruct (idbPutAll rows now IoOk (store st1)) as [s' | ] eqn:Hput; [ | discriminate ].
    intros [= <-].
    destruct (idbPutAll_appends rows now (store st1) s' Hput) as (Hq & _).
    destruct (scheduleFlush_frame 250 (set_store s' st1)) as (_ & Hst & _ & _ & _ & Hb).
    unfold buffer_or_empty at 1. rewrite Hb, Hst. cbn. rewrite Hq. cbn. now rewrite Hbuf.
  - intros env st Hcalm Hwf Hbuf. unfold flushQueue, flushQueueWith.
    destruct (LOG_FLUSHING st || DISCARD_DATA st) eqn:Hguard; [ exact Hbuf | ].
    apply orb_false_elim in Hguard as [_ Hdisc].
    pose proof (drain_mirror LOG_BATCH_SIZE env ltac:(reflexivity) Hcalm
                  (set_flushing true st) Hdisc Hwf Hbuf) as H.
    destruct (drain LOG_BATCH_SIZE env (set_flushing true st)); exact H.
Qed.

(** X15.  A write whose IndexedDB transaction raises its [error] event is
    swallowed, and the rows are lost at the next drain: enqueued on an empty
    queue they reach the mirror only; the drain that the enqueue schedules
    finds the queue empty and empties the mirror.  Nothing has been sent,
    nothing is queued, no timer is pending. *)
Theorem swallowed_write_failure_loses_rows (rows : list Row) (now : Z)
    (env : list IterEnv) (st : State Row) :
  idb_available (store st) = true -> queue_rows (store st) = [] ->
  DISCARD_DATA st = false -> LOG_FLUSHING st = false ->
  LOG_BACKOFF_TIMER st = None -> timers st = [] ->
  env <> [] -> Forall calm env ->
  exists st1 h st2,
    logEnqueue (RowArray rows) now IoFail st = Resolved st1
    /\ LOG_BUFFER st1 = Some (buffer_or_empty st ++ rows)
    /\ queue_rows (store st1) = []
    /\ LOG_BACKOFF_TIMER st1 = Some h /\ timers st1 = [(h, 250)]
    /\ timerFires LOG_BATCH_SIZE h env st1 = Resolved st2
    /\ LOG_BUFFER st2 = Some []
    /\ queue_rows (store st2) = []
    /\ network st2 = network st
    /\ timers st2 = [] /\ LOG_BACKOFF_TIMER st2 = None.
Proof.
  intros Hidb Hq Hdisc Hflush Htimer Htable Hne Hcalm.
  destruct env as [ | e rest ]; [ congruence | ]. inversion Hcalm as [ | ? ? He _ ]; subst.
  unfold logEnqueue, idbPutAll. cbn [store set_buffer]. rewrite Hidb. cbn [negb].
  unfold scheduleFlush.
  cbn [DISCARD_DATA set_store set_buffer LOG_BACKOFF_TIMER timers next_handle].
  rewrite Hdisc, Htimer, Htable. cbn [app].
  eexists. exists (next_handle st). eexists.
  split; [ reflexivity | ]. cbn [LOG_BUFFER set_timer set_store set_buffer store
                                 LOG_BACKOFF_TIMER timers].
  split; [ reflexivity | ]. split; [ exact Hq | ].
  split; [ reflexivity | ]. split; [ reflexivity | ].
  unfold timerFires, flushQueueWith.
  cbn [timers set_timer set_store set_buffer filter fst LOG_FLUSHING DISCARD_DATA next_handle].
  rewrite Pos.eqb_refl, Hflush, Hdisc. cbn [negb orb drain].
  rewrite (drainStep_calm_empty LOG_BATCH_SIZE e _ ltac:(reflexivity) He) by exact Hq.
  cbn [finally_unflag].
  split; [ reflexivity | ]. cbn. auto.
Qed.

(** X16.  A read that fails ends the drain without a request and without a
    retry timer.  IndexedDB reports the failure as an empty batch, so the
    drain takes the queue for empty: it empties the mirror and resets the
    counter although the rows are still stored.  In the fallback the
    exception escapes: [flushQueue] rejects and leaves mirror and counter as
    they were.  Either way the re-entrancy flag is released. *)
Theorem read_failure_ends_the_drain (e : IterEnv) (env : list IterEnv) (st : State Row) :
  read_io e = IoFail -> withdrawn_in_read e = false ->
  DISCARD_DATA st = false -> LOG_FLUSHING st = false ->
  let p := flushQueue (e :: env) st in
  network (promised p) = network st
  /\ store (promised p) = store st
  /\ timers (promised p) = timers st
  /\ LOG_FLUSHING (promised p) = false
  /\ (if idb_available (store st)
      then p = Resolved (promised p)
           /\ LOG_BUFFER (promised p) = Some [] /\ LOG_RETRY_ATTEMPTS (promised p) = 0
      else p = Rejected (promised p)
           /\ LOG_BUFFER (promised p) = LOG_BUFFER st
           /\ LOG_RETRY_ATTEMPTS (promised p) = LOG_RETRY_ATTEMPTS st).
Proof.
  intros Hread Hw Hdisc Hflush. cbn zeta.
  unfold flushQueue, flushQueueWith. rewrite Hflush, Hdisc. cbn [orb drain].
  unfold drainStep, idbReadBatch. rewrite Hw, Hread. cbn [withdraw_if store set_flushing].
  destruct (idb_available (store st)); cbn; auto 10.
Qed.

(** ** Deleting, backing off, delivering *)

Lemma filter_twice {A} (p q : A -> bool) (l : list A) :
  filter p (filter q l) = filter (fun x => q x && p x) l.
Proof.
  induction l as [ | x xs IH ]; cbn; [ reflexivity | ].
  destruct (q x); cbn; [ destruct (p x) | ]; now rewrite IH.
Qed.

Lemma filter_all {A} (l : list A) : filter (fun _ => true) l = l.
Proof. induction l as [ | x xs IH ]; cbn; [ reflexivity | now rewrite IH ]. Qed.

Lemma deleteKeys_filter (items : list (QueueEntry Row)) :
  forall evs : list (Z * IdbRecord Row),
    fold_left (fun evs it => deleteKey (id it) evs) items evs
    = filter (fun e => negb (named (fst e) items)) evs.
Proof.
  induction items as [ | it rest IH ]; intros evs; cbn [fold_left].
  - symmetry. apply filter_all.
  - rewrite IH. unfold named. cbn [existsb]. unfold deleteKey.
    destruct (id it) as [k | i].
    + rewrite filter_twice. apply filter_ext. intros e. now rewrite negb_orb.
    + apply filter_ext. intros e. reflexivity.
Qed.

(** X17.  Deleting in IndexedDB removes the records whose keys the items
    name and keeps the others in order, so deleting the same items again
    changes nothing.  The fallback deletes by count: deleting the same items
    again drops as many rows once more. *)
Theorem delete_twice (items : list (QueueEntry Row)) (s s1 : Store Row) :
  idbDeleteIds items IoOk s = Normal s1 ->
  if idb_available s
  then idb_events s1 = filter (fun e => negb (named (fst e) items)) (idb_events s)
       /\ idbDeleteIds items IoOk s1 = Normal s1
  else exists s2,
         idbDeleteIds items IoOk s1 = Normal s2
         /\ queue_rows s1 = skipn (List.length items) (queue_rows s)
         /\ queue_rows s2 = skipn (2 * List.length items) (queue_rows s).
Proof.
  unfold idbDeleteIds, queue_rows. destruct (idb_available s) eqn:Hidb; cbn [negb].
  - intros [= <-]. cbn [idb_available idb_events with_events]. rewrite Hidb. cbn [negb].
    rewrite !deleteKeys_filter. split; [ reflexivity | ].
    rewrite filter_twice. unfold with_events. cbn. do 2 f_equal.
    apply filter_ext. intros e. apply andb_diag.
  - intros [= <-]. cbn [idb_available log_queue_ls with_ls]. rewrite Hidb. cbn [negb].
    eexists. split; [ reflexivity | ]. cbn [idb_available log_queue_ls with_ls]. rewrite Hidb.
    split; [ reflexivity | ].
    rewrite skipn_skipn. f_equal. lia.
Qed.

(** X18.  The retry delay lies between one and thirty seconds, never
    shrinks as the failures add up, doubles up to the fifth failure and is
    thirty seconds from the sixth on. *)
Theorem backoff_bounds (n : Z) :
  1 <= n ->
  1000 <= backoffMs n <= 30000
  /\ backoffMs n <= backoffMs (n + 1)
  /\ (n <= 4 -> backoffMs (n + 1) = 2 * backoffMs n)
  /\ (6 <= n -> backoffMs n = 30000).
Proof.
  intros Hn. unfold backoffMs.
  assert (H2 : 2 <= 2 ^ n).
  { change 2 with (2 ^ 1) at 1. apply Z.pow_le_mono_r; lia. }
  assert (Hs : 2 ^ (n + 1) = 2 * 2 ^ n) by (rewrite Z.pow_add_r by lia; lia).
  split; [ lia | ]. split; [ lia | ]. split.
  - intros H4.
    assert (2 ^ n <= 2 ^ 4) by (apply Z.pow_le_mono_r; lia).
    change (2 ^ 4) with 16 in *. lia.
  - intros H6.
    assert (2 ^ 6 <= 2 ^ n) by (apply Z.pow_le_mono_r; lia).
    change (2 ^ 6) with 64 in *. lia.
Qed.

Lemma acked_rows_app (a b : list (NetCall Row)) :
  acked_rows (a ++ b) = acked_rows a ++ acked_rows b.
Proof. unfold acked_rows. apply flat_map_app. Qed.

Lemma drain_all_acked_timers (batchSize : Z) (env : list IterEnv) :
  0 < batchSize -> Forall calm env ->
  Forall (fun e => acked (fetch_outcome e) = true) env ->
  forall st : State Row,
    DISCARD_DATA st = false -> store_wf (store st) ->
    timers (promised (drain batchSize env st)) = timers st
    /\ LOG_BACKOFF_TIMER (promised (drain batchSize env st)) = LOG_BACKOFF_TIMER st.
Proof.
  intros Hn Hcalm. induction Hcalm as [ | e rest He Hrest IH ]; intros Hacks st Hdisc Hwf.
  - now split.
  - inversion Hacks as [ | ? ? Hack Hacks' ]; subst. cbn [drain].
    destruct (nil_or_not (queue_rows (store st))) as [Hq | Hne].
    + rewrite (drainStep_calm_empty batchSize e st Hn He Hq). now split.
    + destruct (drainStep_calm_ack batchSize e st Hn He Hdisc Hwf Hne Hack)
        as (s' & -> & Hs' & Hwf').
      set (st1 := set_retry 0 _).
      destruct (IH Hacks' st1 Hdisc Hwf') as [-> ->]. now split.
Qed.

(** One timer-driven drain with every send acknowledged. *)
Lemma timerFires_all_acked (batchSize : Z) (env : list IterEnv) (st : State Row)
    (h : positive) (d : Z) :
  0 < batchSize -> Forall calm env ->
  Forall (fun e => acked (fetch_outcome e) = true) env ->
  (List.length (queue_rows (store st)) < List.length env)%nat ->
  store_wf (store st) -> DISCARD_DATA st = false -> LOG_FLUSHING st = false ->
  LOG_BACKOFF_TIMER st = Some h -> timers st = [(h, d)] ->
  exists st',
    timerFires batchSize h env st = Resolved st'
    /\ queue_rows (store st') = []
    /\ acked_rows (network st') = acked_rows (network st) ++ queue_rows (store st)
    /\ LOG_RETRY_ATTEMPTS st' = 0
    /\ timers st' = [] /\ LOG_BACKOFF_TIMER st' = None.
Proof.
  intros Hn Hcalm Hacks Hlen Hwf Hdisc Hflush Htimer Htable.
  unfold timerFires, flushQueueWith. rewrite Htable. cbn [filter fst].
  rewrite Pos.eqb_refl. cbn [negb LOG_FLUSHING DISCARD_DATA set_timer]. rewrite Hflush, Hdisc.
  cbn [orb].
  set (st0 := set_flushing true _).
  destruct (drain_all_acked batchSize env Hn Hcalm Hacks st0 Hdisc Hwf Hlen)
    as (st' & posts & Hrun & Hnet & _ & Hempty & Hretry).
  destruct (drain_calm batchSize env Hn Hcalm st0 Hdisc Hwf) as (posts' & Hnet' & Hrows & _).
  destruct (drain_all_acked_timers batchSize env Hn Hcalm Hacks st0 Hdisc Hwf) as [Htm Hbt].
  rewrite Hrun in *. cbn [promised] in *.
  exists (set_flushing false st'). split; [ reflexivity | ].
  cbn [store network LOG_RETRY_ATTEMPTS timers LOG_BACKOFF_TIMER set_flushing].
  split; [ exact Hempty | ]. split; [ | split; [ exact Hretry | split; assumption ] ].
  rewrite Hnet', acked_rows_app. rewrite Hempty, app_nil_r in Hrows.
  now rewrite <- Hrows.
Qed.

(** One timer-driven drain whose first send fails, with the network trace. *)
Lemma timerFires_fail_trace (batchSize : Z) (env : list IterEnv) (st : State Row)
    (h : positive) (d : Z) :
  0 < batchSize -> fails_at_once env -> queue_rows (store st) <> [] ->
  DISCARD_DATA st = false -> LOG_FLUSHING st = false ->
  LOG_BACKOFF_TIMER st = Some h -> timers st = [(h, d)] ->
  exists st' h' d',
    settled (timerFires batchSize h env st) = Some st'
    /\ store st' = store st
    /\ acked_rows (network st') = acked_rows (network st)
    /\ DISCARD_DATA st' = false /\ LOG_FLUSHING st' = false
    /\ LOG_BACKOFF_TIMER st' = Some h' /\ timers st' = [(h', d')].
Proof.
  intros Hn Hfail Hq Hdisc Hflush Htimer Htable.
  destruct env as [ | e rest ]; [ contradiction | ]. destruct Hfail as [Hcalm Hnack].
  unfold timerFires, flushQueueWith. rewrite Htable. cbn [filter fst].
  rewrite Pos.eqb_refl. cbn [negb].
  cbn [LOG_FLUSHING DISCARD_DATA set_timer]. rewrite Hflush, Hdisc. cbn [orb drain].
  rewrite (drainStep_calm_fail batchSize e _ Hn Hcalm); trivial.
  unfold scheduleFlush. cbn. rewrite Hdisc. cbn.
  eexists. eexists. eexists. split; [ reflexivity | ]. cbn.
  split; [ reflexivity | ]. split; [ | auto ].
  fold (acked_rows (network st ++
          [Post (firstn (Z.to_nat batchSize) (queue_rows (store st))) (fetch_outcome e)])).
  rewrite acked_rows_app. cbn. rewrite Hnack. now rewrite !app_nil_r.
Qed.

(** X19.  Failed attempts cost nothing but time: after any number of drains
    whose first send fails, one drain whose sends are acknowledged delivers
    the whole queue, each row once and in order, empties the queue, resets
    the counter and leaves no timer behind. *)
Theorem delivered_after_failures (failed : list (list IterEnv)) (last : list IterEnv)
    (st : State Row) (h : positive) (d : Z) :
  Forall fails_at_once failed ->
  Forall calm last -> Forall (fun e => acked (fetch_outcome e) = true) last ->
  (List.length (queue_rows (store st)) < List.length last)%nat ->
  queue_rows (store st) <> [] -> store_wf (store st) ->
  DISCARD_DATA st = false -> LOG_FLUSHING st = false ->
  LOG_BACKOFF_TIMER st = Some h -> timers st = [(h, d)] ->
  exists st',
    fireAll LOG_BATCH_SIZE (failed ++ [last]) st = Some st'
    /\ queue_rows (store st') = []
    /\ acked_rows (network st') = acked_rows (network st) ++ queue_rows (store st)
    /\ LOG_RETRY_ATTEMPTS st' = 0
    /\ timers st' = [] /\ LOG_BACKOFF_TIMER st' = None.
Proof.
  intros Hfails Hcalm Hacks. revert st h d.
  induction Hfails as [ | env rest Hfail Hrest IH ];
    intros st h d Hlen Hq Hwf Hdisc Hflush Htimer Htable; cbn [app fireAll]; rewrite Htimer.
  - destruct (timerFires_all_acked LOG_BATCH_SIZE last st h d ltac:(reflexivity) Hcalm Hacks
                Hlen Hwf Hdisc Hflush Htimer Htable) as (st' & -> & H).
    cbn [settled]. exists st'. split; [ reflexivity | exact H ].
  - destruct (timerFires_fail_trace LOG_BATCH_SIZE env st h d ltac:(reflexivity) Hfail Hq
                Hdisc Hflush Htimer Htable)
      as (st1 & h1 & d1 & -> & Hstore & Hnet & Hdisc1 & Hflush1 & Htimer1 & Htable1).
    destruct (IH st1 h1 d1) as (st' & Hrun & Hempty & Hacked & Hrest');
      try rewrite Hstore; trivial.
    exists st'. split; [ exact Hrun | ]. split; [ exact Hempty | ].
    split; [ | exact Hrest' ]. now rewrite Hacked, Hnet, Hstore.
Qed.

(** ** Reachable states *)

Lemma Forall_map_filter {A B} (f : A -> B) (P : B -> Prop) (p : A -> bool) (l : list A) :
  Forall P (map f l) -> Forall P (map f (filter p l)).
Proof.
  induction l as [ | x xs IH ]; cbn; [ trivial | ].
  intros H. inversion H; subst. destruct (p x); cbn; [ constructor | ]; auto.
Qed.

Lemma sorted_map_filter {A} (f : A -> Z) (p : A -> bool) (l : list A) :
  StronglySorted Z.lt (map f l) -> StronglySorted Z.lt (map f (filter p l)).
Proof.
  induction l as [ | x xs IH ]; cbn; [ trivial | ].
  intros H. apply StronglySorted_inv in H as [Hs Hx].
  destruct (p x); cbn; [ constructor | ]; auto.
  now apply Forall_map_filter.
Qed.

Lemma idbDeleteIds_wf (items : list (QueueEntry Row)) (io : IoOutcome) (s s' : Store Row) :
  idbDeleteIds items io s = Normal s' -> store_wf s -> store_wf s'.
Proof.
  unfold idbDeleteIds, store_wf. destruct (idb_available s); cbn [negb]; destruct io;
    try discriminate; intros [= <-]; cbn; trivial.
  rewrite deleteKeys_filter. intros [Hs Hb].
  split; [ now apply sorted_map_filter | now apply Forall_map_filter ].
Qed.

Lemma idbPutAll_wf (rows : list Row) (now : Z) (io : IoOutcome) (s s' : Store Row) :
  idbPutAll rows now io s = Normal s' -> store_wf s -> store_wf s'.
Proof.
  destruct io.
  - intros H. now destruct (idbPutAll_appends rows now s s' H) as (_ & Hwf & _).
  - unfold idbPutAll. destruct (idb_available s); cbn [negb]; [ | discriminate ].
    now intros [= <-].
Qed.

(** What every step of the page keeps, also in the middle of a drain. *)
Lemma withdraw_if_inv (b : bool) (st : State Row) :
  store (withdraw_if b st) = store st
  /\ LOG_RETRY_ATTEMPTS (withdraw_if b st) = LOG_RETRY_ATTEMPTS st.
Proof. now destruct b. Qed.

Lemma drainStep_inv (batchSize : Z) (e : IterEnv) (st : State Row) :
  store_wf (store st) -> 0 <= LOG_RETRY_ATTEMPTS st ->
  store_wf (store (fst (drainStep batchSize e st)))
  /\ 0 <= LOG_RETRY_ATTEMPTS (fst (drainStep batchSize e st)).
Proof.
  intros Hwf Hn. unfold drainStep.
  destruct (withdraw_if_inv (withdrawn_in_read e) st) as [Hs1 Hr1].
  set (st1 := withdraw_if (withdrawn_in_read e) st) in *.
  destruct (idbReadBatch batchSize (read_io e) (store st1)) as [[ | b0 bs] | ]; cbn [fst].
  - cbn. rewrite Hs1. split; [ exact Hwf | lia ].
  - assert (H2 : store (snd (sendBatch (map (@row Row) (b0 :: bs)) (fetch_outcome e) st1))
                 = store st
                 /\ LOG_RETRY_ATTEMPTS
                      (snd (sendBatch (map (@row Row) (b0 :: bs)) (fetch_outcome e) st1))
                    = LOG_RETRY_ATTEMPTS st).
    { unfold sendBatch. destruct (DISCARD_DATA st1); [ now split | ].
      destruct (fetch_outcome e); now split. }
    destruct (sendBatch (map (@row Row) (b0 :: bs)) (fetch_outcome e) st1) as [ok st2].
    cbn [snd] in H2. destruct H2 as [Hs2 Hr2].
    destruct (withdraw_if_inv (withdrawn_in_send e) st2) as [Hs3 Hr3].
    set (st3 := withdraw_if (withdrawn_in_send e) st2) in *.
    destruct ok.
    + destruct (idbDeleteIds (b0 :: bs) (delete_io e) (store st3)) as [s' | ] eqn:Hdel;
        cbn [fst].
      * cbn. split; [ | lia ]. apply (idbDeleteIds_wf _ _ _ _ Hdel). now rewrite Hs3, Hs2.
      * rewrite Hs3, Hs2, Hr3, Hr2. now split.
    + cbn [fst].
      match goal with
      | |- context [scheduleFlush ?d ?s] =>
          destruct (scheduleFlush_frame d s) as (_ & -> & _ & -> & _)
      end.
      cbn. rewrite Hs3, Hs2, Hr3, Hr2. split; [ exact Hwf | lia ].
  - rewrite Hs1, Hr1. now split.
Qed.

Lemma drain_inv (batchSize : Z) (env : list IterEnv) (st : State Row) :
  store_wf (store st) -> 0 <= LOG_RETRY_ATTEMPTS st ->
  store_wf (store (promised (drain batchSize env st)))
  /\ 0 <= LOG_RETRY_ATTEMPTS (promised (drain batchSize env st)).
Proof.
  revert st. induction env as [ | e rest IH ]; intros st Hwf Hn; [ now split | ].
  cbn [drain]. pose proof (drainStep_inv batchSize e st Hwf Hn) as H.
  destruct (drainStep batchSize e st) as [st' [ | | ]]; cbn [fst] in H;
    [ now apply IH | exact H | exact H ].
Qed.

Lemma flushQueueWith_inv (batchSize : Z) (env : list IterEnv) (st st' : State Row) :
  settled (flushQueueWith batchSize env st) = Some st' ->
  store_wf (store st) -> 0 <= LOG_RETRY_ATTEMPTS st -> LOG_FLUSHING st = false ->
  store_wf (store st') /\ LOG_FLUSHING st' = false /\ 0 <= LOG_RETRY_ATTEMPTS st'.
Proof.
  unfold flushQueueWith. intros H Hwf Hn Hflush. rewrite Hflush in H. cbn [orb] in H.
  destruct (DISCARD_DATA st); [ injection H as <-; auto | ].
  pose proof (drain_inv batchSize env (set_flushing true st) Hwf Hn) as Hinv.
  destruct (drain batchSize env (set_flushing true st)) as [st1 | st1 | st1];
    cbn in H, Hinv; [ | | discriminate H ]; injection H as <-; cbn; tauto.
Qed.

(** Between calls that have run to their end: the keys of the object store
    are in order, no drain is left marked as running, and the retry counter
    is not negative. *)
Lemma run_page_invariants (st : State Row) :
  reachable encodedLength st ->
  store_wf (store st) /\ LOG_FLUSHING st = false /\ 0 <= LOG_RETRY_ATTEMPTS st.
Proof.
  intros (idb & evs & Hrun).
  assert (Hinit : store_wf (store (@fresh_page Row idb))
                  /\ LOG_FLUSHING (@fresh_page Row idb) = false
                  /\ 0 <= LOG_RETRY_ATTEMPTS (@fresh_page Row idb)).
  { split; [ apply store_wf_empty | split; [ reflexivity | cbn; lia ] ]. }
  revert Hrun Hinit. generalize (@fresh_page Row idb).
  induction evs as [ | ev rest IH ]; intros st0 Hrun Hinv; cbn [run] in Hrun.
  - now injection Hrun as <-.
  - destruct (step encodedLength ev st0) as [st1 | ] eqn:Hstep; [ | discriminate ].
    apply (IH st1 Hrun). clear IH Hrun. destruct Hinv as (Hwf & Hflush & Hn).
    destruct ev as [ d | rows now io | h env | fuel sb | io ]; cbn [step] in Hstep.
    + injection Hstep as <-.
      destruct (scheduleFlush_frame d st0) as (_ & -> & _ & -> & -> & _). auto.
    + unfold logEnqueue in Hstep.
      set (st' := set_buffer _ st0) in Hstep.
      destruct (idbPutAll _ now io (store st')) as [s' | ] eqn:Hput; cbn in Hstep;
        injection Hstep as <-.
      * destruct (scheduleFlush_frame 250 (set_store s' st')) as (_ & -> & _ & -> & -> & _).
        cbn. split; [ | auto ]. exact (idbPutAll_wf _ _ _ _ _ Hput Hwf).
      * cbn. auto.
    + destruct (In_timers h st0); [ | discriminate ].
      unfold timerFires in Hstep.
      apply (flushQueueWith_inv _ _ _ _ Hstep); assumption.
    + unfold flushSyncBeacon in Hstep.
      destruct (LOG_BUFFER st0) as [[ | r buf] | ]; try (injection Hstep as <-; auto; fail).
      destruct (shrinkLoop _ _ _ _ _ _) as [[[rows | ] end_] | ]; try discriminate;
        injection Hstep as <-; [ destruct sb | ]; cbn; auto.
    + injection Hstep as <-.
      destruct (withdraw_frame io st0) as (_ & _ & _ & _ & _ & -> & ->).
      split; [ | auto ]. unfold withdraw, clearLocalQueue. cbn [store set_buffer set_discard].
      destruct (clearStore io (store st0)) as [s' | ] eqn:Hclear; cbn; [ | exact Hwf ].
      exact (clearStore_wf _ _ _ Hclear Hwf).
Qed.

End MoreDeliveryFacts.

(* ===================================================================== *)
(** * The delete request                                                  *)
(* ===================================================================== *)

Section DeleteRequestFacts.

Context {E : Engine}.


End DeleteRequestFacts.
(* ===================================================================== *)
(** * The calls in flight                                                 *)
(* ===================================================================== *)

Section EventLoopFacts.

Context {Row : Type}.

Variable encodedLength : Row -> Z.

Lemma nth_error_parts (pool : list (Task Row)) (i : nat) (t0 : Task Row) :
  nth_error pool i = Some t0 -> pool = firstn i pool ++ t0 :: skipn (S i) pool.
Proof.
  revert i. induction pool as [ | t pool IH ]; intros [ | i ]; cbn; try discriminate.
  - now intros [= ->].
  - intros H. f_equal. now apply IH.
Qed.

(** Replacing a call changes the number of drains by what the two calls
    count for. *)
Lemma drains_update (i : nat) (t : option (Task Row)) (pool : list (Task Row))
    (t0 : Task Row) :
  nth_error pool i = Some t0 ->
  (List.length (filter is_drain (update_task i t pool)) + (if is_drain t0 then 1 else 0)
   = List.length (filter is_drain pool)
     + match t with Some t' => if is_drain t' then 1 else 0 | None => 0 end)%nat.
Proof.
  intros H. rewrite (nth_error_parts pool i t0 H) at 2. unfold update_task.
  rewrite !filter_app, !length_app. cbn [filter].
  destruct (is_drain t0); destruct t as [t' | ]; cbn [filter app List.length];
    try destruct (is_drain t'); cbn [List.length]; rewrite ?length_app; cbn [List.length]; lia.
Qed.

Lemma drains_spawn (t : Task Row) (pool : list (Task Row)) :
  List.length (filter is_drain (pool ++ [t]))
  = (List.length (filter is_drain pool) + (if is_drain t then 1 else 0))%nat.
Proof.
  rewrite filter_app, length_app. cbn [filter]. now destruct (is_drain t).
Qed.

Lemma sendBatch_frame (rows : list Row) (o : FetchOutcome) (st : State Row) :
  let st' := snd (sendBatch rows o st) in
  store st' = store st /\ DISCARD_DATA st' = DISCARD_DATA st
  /\ LOG_RETRY_ATTEMPTS st' = LOG_RETRY_ATTEMPTS st
  /\ LOG_FLUSHING st' = LOG_FLUSHING st /\ LOG_BUFFER st' = LOG_BUFFER st.
Proof.
  unfold sendBatch. destruct (DISCARD_DATA st) eqn:Hd; [ cbn; rewrite Hd; tauto | ].
  destruct o; cbn; rewrite Hd; tauto.
Qed.

Lemma flushSyncBeacon_frame (fuel : nat) (sb : bool) (st st' : State Row) :
  flushSyncBeacon encodedLength fuel sb st = Some st' ->
  store st' = store st /\ DISCARD_DATA st' = DISCARD_DATA st
  /\ LOG_RETRY_ATTEMPTS st' = LOG_RETRY_ATTEMPTS st
  /\ LOG_FLUSHING st' = LOG_FLUSHING st /\ LOG_BUFFER st' = LOG_BUFFER st.
Proof.
  unfold flushSyncBeacon.
  destruct (LOG_BUFFER st) as [[ | r buf] | ] eqn:Hbuf;
    try (intros [= <-]; rewrite Hbuf; tauto).
  destruct (shrinkLoop _ _ _ _ _ _) as [[[rows | ] end_] | ]; try discriminate;
    intros [= <-]; [ destruct sb | ]; cbn; rewrite Hbuf; tauto.
Qed.

(** The flag discipline in numbers. *)
Lemma one_drain_same (flag : bool) (c c' : nat) :
  (c <= 1)%nat -> flag = negb (Nat.eqb c 0) -> c' = c ->
  (c' <= 1)%nat /\ flag = negb (Nat.eqb c' 0).
Proof. intros Hle Hflag ->. now split. Qed.

Lemma one_drain_ends (c c' : nat) :
  (c <= 1)%nat -> (c' + 1 = c)%nat -> (c' <= 1)%nat /\ false = negb (Nat.eqb c' 0).
Proof. intros Hle Hc. assert (c' = 0%nat) as -> by lia. split; [ lia | reflexivity ]. Qed.

Lemma one_drain_starts (c c' : nat) :
  false = negb (Nat.eqb c 0) -> (c' = c + 1)%nat ->
  (c' <= 1)%nat /\ true = negb (Nat.eqb c' 0).
Proof.
  intros Hflag ->. destruct c; [ split; [ lia | reflexivity ] | discriminate Hflag ].
Qed.

(** Every turn keeps the store in order, the counter non-negative and the
    flag discipline. *)
Lemma turn_keeps (t : Turn Row) (l l' : Live Row) :
  turn encodedLength t l = Some l' ->
  store_wf (store (page l)) -> 0 <= LOG_RETRY_ATTEMPTS (page l) -> one_drain l ->
  store_wf (store (page l')) /\ 0 <= LOG_RETRY_ATTEMPTS (page l') /\ one_drain l'.
Proof.
  destruct l as [st pool]. unfold one_drain, drains_in_flight. cbn [page inflight].
  intros Hturn Hwf Hn [Hle Hflag].
  destruct t as [ d | rows | h | fuel sb | | i now io | i o ]; cbn [turn page inflight] in Hturn.
  - injection Hturn as <-. cbn [stays page inflight].
    destruct (scheduleFlush_frame d st) as (_ & -> & _ & -> & -> & _). auto.
  - injection Hturn as <-. cbn [spawns page inflight]. rewrite drains_spawn. cbn.
    rewrite Nat.add_0_r. auto.
  - destruct (In_timers h st); [ | discriminate ].
    cbn [LOG_FLUSHING DISCARD_DATA set_timer] in Hturn.
    destruct (LOG_FLUSHING st) eqn:Hf; cbn [orb] in Hturn.
    { injection Hturn as <-. cbn. rewrite Hf. auto. }
    destruct (DISCARD_DATA st); injection Hturn as <-; cbn [spawns stays page inflight].
    + cbn. rewrite Hf. auto.
    + rewrite drains_spawn. cbn.
      split; [ exact Hwf | ]. split; [ exact Hn | ].
      now apply (one_drain_starts (List.length (filter is_drain pool))).
  - destruct (flushSyncBeacon encodedLength fuel sb st) as [st' | ] eqn:Hb; [ | discriminate ].
    injection Hturn as <-. cbn [stays page inflight].
    destruct (flushSyncBeacon_frame fuel sb st st' Hb) as (-> & _ & -> & -> & _). auto.
  - injection Hturn as <-. cbn [spawns page inflight]. rewrite drains_spawn. cbn.
    rewrite Nat.add_0_r. auto.
  - unfold perform in Hturn. cbn [page inflight] in Hturn.
    destruct (nth_error pool i) as [t0 | ] eqn:Hnth; [ | discriminate ].
    pose proof (fun t => drains_update i t pool t0 Hnth) as Hd.
    destruct t0 as [ rows | | | | | batch | | | ]; try discriminate.
    + specialize (Hd (Some (TPutDone (match idbPutAll rows now io (store st) with
                                      | Normal _ => false | Threw => true end)))).
      cbn [is_drain] in Hd.
      destruct (idbPutAll rows now io (store st)) as [s' | ] eqn:Hput;
        injection Hturn as <-; cbn [continues page inflight set_store store
                                    LOG_RETRY_ATTEMPTS LOG_FLUSHING].
      * split; [ exact (idbPutAll_wf _ _ _ _ _ Hput Hwf) | ]. split; [ exact Hn | ].
        apply (one_drain_same _ _ _ Hle Hflag). lia.
      * split; [ exact Hwf | ]. split; [ exact Hn | ].
        apply (one_drain_same _ _ _ Hle Hflag). lia.
    + injection Hturn as <-. cbn [continues page inflight].
      specialize (Hd (Some (TReadDone (idbReadBatch LOG_BATCH_SIZE io (store st))))).
      cbn [is_drain] in Hd.
      split; [ exact Hwf | ]. split; [ exact Hn | ].
      apply (one_drain_same _ _ _ Hle Hflag). lia.
    + specialize (Hd (Some (TDeleteDone batch (match idbDeleteIds batch io (store st) with
                                               | Normal _ => false | Threw => true end)))).
      cbn [is_drain] in Hd.
      destruct (idbDeleteIds batch io (store st)) as [s' | ] eqn:Hdel;
        injection Hturn as <-; cbn [continues page inflight set_store store
                                    LOG_RETRY_ATTEMPTS LOG_FLUSHING].
      * split; [ exact (idbDeleteIds_wf _ _ _ _ Hdel Hwf) | ]. split; [ exact Hn | ].
        apply (one_drain_same _ _ _ Hle Hflag). lia.
      * split; [ exact Hwf | ]. split; [ exact Hn | ].
        apply (one_drain_same _ _ _ Hle Hflag). lia.
    + specialize (Hd (Some (TClearDone (match clearStore io (store st) with
                                        | Normal _ => false | Threw => true end)))).
      cbn [is_drain] in Hd.
      destruct (clearStore io (store st)) as [s' | ] eqn:Hclear;
        injection Hturn as <-; cbn [continues page inflight set_store store
                                    LOG_RETRY_ATTEMPTS LOG_FLUSHING].
      * split; [ exact (clearStore_wf _ _ _ Hclear Hwf) | ]. split; [ exact Hn | ].
        apply (one_drain_same _ _ _ Hle Hflag). lia.
      * split; [ exact Hwf | ]. split; [ exact Hn | ].
        apply (one_drain_same _ _ _ Hle Hflag). lia.
  - unfold resume in Hturn. cbn [page inflight] in Hturn.
    destruct (nth_error pool i) as [t0 | ] eqn:Hnth; [ | discriminate ].
    pose proof (fun t => drains_update i t pool t0 Hnth) as Hd.
    destruct t0 as [ | thrown | | [[ | b0 bs] | ] | batch ok | | batch thrown | | thrown ];
      try discriminate.
    + injection Hturn as <-. cbn [finishes page inflight].
      specialize (Hd None). cbn [is_drain] in Hd.
      assert (Hframe : store (if thrown then st else scheduleFlush 250 st) = store st
                       /\ LOG_RETRY_ATTEMPTS (if thrown then st else scheduleFlush 250 st)
                          = LOG_RETRY_ATTEMPTS st
                       /\ LOG_FLUSHING (if thrown then st else scheduleFlush 250 st)
                          = LOG_FLUSHING st).
      { destruct thrown; [ tauto | ].
        destruct (scheduleFlush_frame 250 st) as (_ & -> & _ & -> & -> & _). tauto. }
      destruct Hframe as (-> & -> & ->).
      split; [ exact Hwf | ]. split; [ exact Hn | ].
      apply (one_drain_same _ _ _ Hle Hflag). lia.
    + injection Hturn as <-. cbn [finishes page inflight]. cbn.
      specialize (Hd None). cbn [is_drain] in Hd.
      split; [ exact Hwf | ]. split; [ lia | ].
      apply (one_drain_ends _ _ Hle). lia.
    + pose proof (sendBatch_frame (map (@row Row) (b0 :: bs)) o st) as Hs.
      destruct (sendBatch (map (@row Row) (b0 :: bs)) o st) as [ok st2].
      cbn [snd] in Hs. destruct Hs as (Hs1 & _ & Hs2 & Hs3 & _).
      injection Hturn as <-. cbn [continues page inflight]. rewrite Hs1, Hs2, Hs3.
      specialize (Hd (Some (TSend (b0 :: bs) ok))). cbn [is_drain] in Hd.
      split; [ exact Hwf | ]. split; [ exact Hn | ].
      apply (one_drain_same _ _ _ Hle Hflag). lia.
    + injection Hturn as <-. cbn [finishes page inflight]. cbn.
      specialize (Hd None). cbn [is_drain] in Hd.
      split; [ exact Hwf | ]. split; [ exact Hn | ].
      apply (one_drain_ends _ _ Hle). lia.
    + destruct ok; injection Hturn as <-; cbn [continues finishes page inflight].
      * specialize (Hd (Some (TDelete batch))). cbn [is_drain] in Hd.
        split; [ exact Hwf | ]. split; [ exact Hn | ].
        apply (one_drain_same _ _ _ Hle Hflag). lia.
      * specialize (Hd None). cbn [is_drain] in Hd.
        cbn [set_flushing store LOG_RETRY_ATTEMPTS LOG_FLUSHING].
        match goal with
        | |- context [scheduleFlush ?d ?s] =>
            destruct (scheduleFlush_frame d s) as (_ & -> & _ & -> & _)
        end.
        cbn. split; [ exact Hwf | ]. split; [ lia | ].
        apply (one_drain_ends _ _ Hle). lia.
    + destruct thrown; injection Hturn as <-; cbn [continues finishes page inflight]; cbn.
      * specialize (Hd None). cbn [is_drain] in Hd.
        split; [ exact Hwf | ]. split; [ exact Hn | ].
        apply (one_drain_ends _ _ Hle). lia.
      * specialize (Hd (Some TRead)). cbn [is_drain] in Hd.
        split; [ exact Hwf | ]. split; [ lia | ].
        apply (one_drain_same _ _ _ Hle Hflag). lia.
    + injection Hturn as <-. cbn [finishes page inflight].
      specialize (Hd None). cbn [is_drain] in Hd.
      split; [ exact Hwf | ]. split; [ exact Hn | ].
      apply (one_drain_same _ _ _ Hle Hflag). lia.
Qed.

Lemma turns_keep (ts : list (Turn Row)) :
  forall l l' : Live Row,
    turns encodedLength ts l = Some l' ->
    store_wf (store (page l)) -> 0 <= LOG_RETRY_ATTEMPTS (page l) -> one_drain l ->
    store_wf (store (page l')) /\ 0 <= LOG_RETRY_ATTEMPTS (page l') /\ one_drain l'.
Proof.
  induction ts as [ | t rest IH ]; intros l l' Hrun Hwf Hn Hone; cbn [turns] in Hrun.
  - injection Hrun as <-. auto.
  - destruct (turn encodedLength t l) as [l1 | ] eqn:Hturn; [ | discriminate ].
    destruct (turn_keeps t l l1 Hturn Hwf Hn Hone) as (Hwf1 & Hn1 & Hone1).
    exact (IH l1 l' Hrun Hwf1 Hn1 Hone1).
Qed.

End EventLoopFacts.

Section SequentialFacts.

Context {Row : Type}.

Variable encodedLength : Row -> Z.

Lemma idbReadBatch_ok_returns (limit : Z) (s : Store Row) :
  exists batch, idbReadBatch limit IoOk s = Normal batch.
Proof. unfold idbReadBatch. destruct (idb_available s); cbn; eauto. Qed.







End SequentialFacts.

Section EventLoopTheorems.

Context {Row : Type}.

Variable encodedLength : Row -> Z.


Lemma turns_app (ts1 ts2 : list (Turn Row)) (l : Live Row) :
  turns encodedLength (ts1 ++ ts2) l
  = match turns encodedLength ts1 l with
    | Some l' => turns encodedLength ts2 l'
    | None => None
    end.
Proof.
  revert l. induction ts1 as [ | t rest IH ]; intros l; cbn [turns app]; [ reflexivity | ].
  destruct (turn encodedLength t l); [ apply IH | reflexivity ].
Qed.



(** X20.  At every moment, whatever calls are in flight and whether the
    storage operations succeed, fail or never settle: the keys of the object
    store ascend in cursor order and lie below the key generator (so the keys
    are distinct and the next key is fresh), the retry counter is not
    negative, at most one drain is in flight, and [LOG_FLUSHING] is true
    exactly while one is. *)
Theorem reachable_page_invariants (l : Live Row) :
  live_reachable encodedLength l ->
  store_wf (store (page l))
  /\ 0 <= LOG_RETRY_ATTEMPTS (page l)
  /\ (drains_in_flight l <= 1)%nat
  /\ (LOG_FLUSHING (page l) = true <-> drains_in_flight l = 1%nat)
  /\ (LOG_FLUSHING (page l) = false <-> drains_in_flight l = 0%nat).
Proof.
  intros (idb & ts & Hrun).
  assert (Hone : one_drain (@boot Row idb)) by (split; [ cbn; lia | reflexivity ]).
  destruct (turns_keep encodedLength ts (boot idb) l Hrun (store_wf_empty idb)
              ltac:(cbn; lia) Hone) as (Hwf & Hn & Hle & Hflag).
  split; [ exact Hwf | ]. split; [ exact Hn | ]. split; [ exact Hle | ].
  rewrite Hflag. destruct (drains_in_flight l) as [ | [ | n ] ]; cbn; [ | | lia ];
    (split; split; intros H; first [ reflexivity | discriminate H | lia ]).
Qed.

End EventLoopTheorems.

Section StepsAndTurns.

Context {Row : Type}.

Variable encodedLength : Row -> Z.

(** A call of [logEnqueue] that runs alone takes three turns, and they give
    what the step gives. *)
Lemma logEnqueue_in_turns (rows : RowsArg Row) (now : Z) (io : IoOutcome)
    (o : FetchOutcome) (st : State Row) :
  turns encodedLength [OnLogEnqueue rows; OnStorage 0 now io; OnResume 0 o]
    {| page := st; inflight := [] |}
  = Some {| page := promised (logEnqueue rows now io st); inflight := [] |}.
Proof.
  cbn [turns turn page inflight]. unfold spawns, perform, logEnqueue.
  cbn [page inflight app nth_error store set_buffer].
  destruct (idbPutAll _ now io (store st)) as [s' | ]; reflexivity.
Qed.

(** One iteration of a drain that runs alone, turn by turn. *)
Lemma drainStep_in_turns (e : IterEnv) (st : State Row) :
  undisturbed e ->
  exists ts,
    forallb (@of_first_call Row) ts = true
    /\ turns encodedLength ts {| page := st; inflight := [TRead] |}
       = Some match snd (drainStep LOG_BATCH_SIZE e st) with
              | LContinue =>
                  {| page := fst (drainStep LOG_BATCH_SIZE e st); inflight := [TRead] |}
              | LBreak | LThrow =>
                  {| page := set_flushing false (fst (drainStep LOG_BATCH_SIZE e st));
                     inflight := [] |}
              end.
Proof.
  intros [Hr Hs]. unfold drainStep. rewrite Hr, Hs. cbn [withdraw_if].
  destruct (idbReadBatch LOG_BATCH_SIZE (read_io e) (store st)) as [[ | b0 bs] | ] eqn:Hread.
  - exists [OnStorage 0 0 (read_io e); OnResume 0 (fetch_outcome e)].
    split; [ reflexivity | ].
    cbn [turns turn]. unfold perform. cbn [page inflight nth_error]. rewrite Hread.
    reflexivity.
  - destruct (sendBatch (map (@row Row) (b0 :: bs)) (fetch_outcome e) st) as [ok st2] eqn:Hsend.
    destruct ok.
    + destruct (idbDeleteIds (b0 :: bs) (delete_io e) (store st2)) as [s' | ] eqn:Hdel.
      * exists [ OnStorage 0 0 (read_io e); OnResume 0 (fetch_outcome e);
                 OnResume 0 (fetch_outcome e); OnStorage 0 0 (delete_io e);
                 OnResume 0 (fetch_outcome e) ].
        split; [ reflexivity | ].
        cbn [turns turn]. unfold perform at 1. cbn [page inflight nth_error]. rewrite Hread.
        unfold continues, resume at 1. cbn [page inflight nth_error update_task firstn skipn app].
        rewrite Hsend.
        unfold continues, resume at 1. cbn [page inflight nth_error update_task firstn skipn app].
        unfold continues, perform. cbn [page inflight nth_error update_task firstn skipn app].
        rewrite Hdel. reflexivity.
      * exists [ OnStorage 0 0 (read_io e); OnResume 0 (fetch_outcome e);
                 OnResume 0 (fetch_outcome e); OnStorage 0 0 (delete_io e);
                 OnResume 0 (fetch_outcome e) ].
        split; [ reflexivity | ].
        cbn [turns turn]. unfold perform at 1. cbn [page inflight nth_error]. rewrite Hread.
        unfold continues, resume at 1. cbn [page inflight nth_error update_task firstn skipn app].
        rewrite Hsend.
        unfold continues, resume at 1. cbn [page inflight nth_error update_task firstn skipn app].
        unfold continues, perform. cbn [page inflight nth_error update_task firstn skipn app].
        rewrite Hdel. reflexivity.
    + exists [ OnStorage 0 0 (read_io e); OnResume 0 (fetch_outcome e);
               OnResume 0 (fetch_outcome e) ].
      split; [ reflexivity | ].
      cbn [turns turn]. unfold perform at 1. cbn [page inflight nth_error]. rewrite Hread.
      unfold continues, resume at 1. cbn [page inflight nth_error update_task firstn skipn app].
      rewrite Hsend. reflexivity.
  - exists [OnStorage 0 0 (read_io e); OnResume 0 (fetch_outcome e)].
    split; [ reflexivity | ].
    cbn [turns turn]. unfold perform. cbn [page inflight nth_error]. rewrite Hread.
    reflexivity.
Qed.

Lemma drain_in_turns (env : list IterEnv) :
  Forall undisturbed env ->
  forall st : State Row,
    exists ts,
      forallb (@of_first_call Row) ts = true
      /\ turns encodedLength ts {| page := st; inflight := [TRead] |}
         = Some (after_drain (finally_unflag (drain LOG_BATCH_SIZE env st))).
Proof.
  induction 1 as [ | e rest He _ IH ]; intros st.
  - exists []. split; reflexivity.
  - destruct (drainStep_in_turns e st He) as (ts1 & Hsolo1 & Hrun1).
    cbn [drain].
    destruct (drainStep LOG_BATCH_SIZE e st) as [st' [ | | ]]; cbn [fst snd] in Hrun1.
    + destruct (IH st') as (ts2 & Hsolo2 & Hrun2).
      exists (ts1 ++ ts2). split; [ now rewrite forallb_app, Hsolo1, Hsolo2 | ].
      now rewrite turns_app, Hrun1.
    + exists ts1. split; [ exact Hsolo1 | exact Hrun1 ].
    + exists ts1. split; [ exact Hsolo1 | exact Hrun1 ].
Qed.

(** A timer that fires and the drain it starts, run alone: the turns give
    what the step gives, for as long as the environment given lasts. *)
Lemma timerFires_in_turns (h : positive) (env : list IterEnv) (st : State Row) :
  In_timers h st = true -> Forall undisturbed env ->
  exists ts,
    forallb (@of_first_call Row) ts = true
    /\ turns encodedLength (OnTimer h :: ts) {| page := st; inflight := [] |}
       = Some (after_drain (timerFires LOG_BATCH_SIZE h env st)).
Proof.
  intros Hin Henv. unfold timerFires, flushQueueWith. cbn [turns turn page inflight].
  rewrite Hin.
  set (st1 := set_timer None _ (next_handle st) st).
  destruct (LOG_FLUSHING st1 || DISCARD_DATA st1).
  - exists []. split; reflexivity.
  - destruct (drain_in_turns env Henv (set_flushing true st1)) as (ts & Hsolo & Hrun).
    exists ts. split; [ exact Hsolo | exact Hrun ].
Qed.

End StepsAndTurns.

(* ===================================================================== *)
(** * Worked examples for the further properties                          *)
(* ===================================================================== *)

(** An overview screen and a demo door trial leave no row. *)
Lemma ignored_and_demo_records_leave_nothing_witness :
  Forall (fun d : list (string * value Z) =>
            set_has IGNORE_TRIAL_TYPES (lookup "trial_type" d) = true
            \/ lookup "is_demo" d = VBool true
            \/ lookup "event_type" d = VStr "training_demo"
            \/ lookup "trial_type" d = VStr "training_demo")
         [overview_fields; demo_fields]
  /\ buildRowsForLogging (sample_ambient "Mozilla/5.0") None
       (map VObj [overview_fields; demo_fields])
     = (Normal [], Some false).
Proof.
  assert (H : Forall (fun d : list (string * value Z) =>
                        set_has IGNORE_TRIAL_TYPES (lookup "trial_type" d) = true
                        \/ lookup "is_demo" d = VBool true
                        \/ lookup "event_type" d = VStr "training_demo"
                        \/ lookup "trial_type" d = VStr "training_demo")
                     [overview_fields; demo_fields]).
  { constructor; [ left; reflexivity | ].
    constructor; [ right; left; reflexivity | constructor ]. }
  split; [ exact H | ].
  exact (@ignored_and_demo_records_leave_nothing toy_engine (sample_ambient "Mozilla/5.0")
           None [overview_fields; demo_fields] H).
Defined.

(** Three records, the second of which is an overview screen: two rows. *)
Lemma rows_follow_retained_records_witness :
  Forall (fun d => normalizable d = true)
    [door_record 1; VObj overview_fields; VObj probe_fields]
  /\ exists rows,
       fst (buildRowsForLogging (sample_ambient "Mozilla/5.0") None
              [door_record 1; VObj overview_fields; VObj probe_fields]) = Normal rows
       /\ rowsOf (sample_ambient "Mozilla/5.0") None
            [door_record 1; VObj overview_fields; VObj probe_fields] = rows
       /\ List.length rows
          = List.length (filter retained
                           [door_record 1; VObj overview_fields; VObj probe_fields])
       /\ map (lookup "event_type") rows
          = map eventTypeOf
              (filter retained [door_record 1; VObj overview_fields; VObj probe_fields]).
Proof.
  assert (H : Forall (fun d => normalizable d = true)
                [door_record 1; VObj overview_fields; VObj probe_fields])
    by (repeat constructor).
  split; [ exact H | ].
  exact (@rows_follow_retained_records toy_engine (sample_ambient "Mozilla/5.0") None
           [door_record 1; VObj overview_fields; VObj probe_fields] H).
Defined.

(** A trust probe is classified by its tag. *)
Lemma known_trial_types_are_classified_witness :
  (In ("trust_probe", "trust_probe_mid") inferred_types
   /\ converts (VObj probe_fields) = true)
  /\ exists row,
       rowsOf (sample_ambient "Mozilla/5.0") None [VObj probe_fields] = [row]
       /\ lookup "event_type" row = VStr "trust_probe_mid"
       /\ lookup "trial_type" row = VStr "trust_probe".
Proof.
  assert (Hin : In ("trust_probe", "trust_probe_mid") inferred_types)
    by (right; left; reflexivity).
  assert (Hconv : converts (VObj probe_fields) = true) by reflexivity.
  split; [ split; [ exact Hin | exact Hconv ] | ].
  exact (@known_trial_types_are_classified toy_engine (sample_ambient "Mozilla/5.0") None
           probe_fields "trust_probe" "trust_probe_mid" Hin eq_refl eq_refl eq_refl eq_refl
           Hconv).
Defined.

Lemma rescue_row_emitted :
  In rescue_row (rowsOf (sample_ambient "Mozilla/5.0") None (map VObj [rescue_fields])).
Proof. left. reflexivity. Qed.

Lemma rescue_fields_NoDup : Forall (fun d : list (string * value Z) => NoDup (map fst d)) [rescue_fields].
Proof.
  constructor; [ | constructor ].
  cbn. repeat (constructor; [ cbn; intros H; repeat (destruct H as [H | H]; [ discriminate H | ]); exact H | ]).
  constructor.
Qed.

Lemma proto_row_emitted :
  In proto_row (rowsOf (sample_ambient "Mozilla/5.0") None (map VObj [proto_fields])).
Proof. left. reflexivity. Qed.

Lemma proto_fields_NoDup :
  Forall (fun d : list (string * value Z) => NoDup (map fst d)) [proto_fields].
Proof.
  constructor; [ | constructor ].
  cbn. repeat (constructor; [ cbn; intros H; repeat (destruct H as [H | H]; [ discriminate H | ]); exact H | ]).
  constructor.
Qed.

(** A door trial with a [__proto__] field and a field outside the schema:
    its row has the canonical columns and [smoke_level], not [__proto__]. *)
Lemma unknown_fields_pass_through_witness :
  (Forall (fun d : list (string * value Z) => NoDup (map fst d)) [proto_fields]
   /\ In proto_row (rowsOf (sample_ambient "Mozilla/5.0") None (map VObj [proto_fields])))
  /\ exists d, In d [proto_fields]
       /\ (forall k, In k (map fst proto_row)
                     <-> In k canonical_columns
                         \/ (In k (map fst d) /\ k <> "__proto__"))
       /\ (forall k, is_canonical k = false -> k <> "__proto__" ->
                     lookup k proto_row = lookup k d)
       /\ ~ In "__proto__" (map fst proto_row).
Proof.
  split; [ split; [ exact proto_fields_NoDup | exact proto_row_emitted ] | ].
  exact (@unknown_fields_pass_through toy_engine (sample_ambient "Mozilla/5.0") None
           [proto_fields] proto_row proto_fields_NoDup proto_row_emitted).
Defined.

(** The row of the [__proto__] record, key by key. *)
Lemma proto_row_keys :
  map fst proto_row = canonical_columns ++ ["smoke_level"]
  /\ lookup "smoke_level" proto_row = VNum 2.
Proof. vm_compute. split; reflexivity. Qed.

Lemma asset_columns_hold_file_names_witness :
  (In ("victim_skin", "victim_src")
      [ ("victim_skin", "victim_src"); ("background_src", "background_src");
        ("door_src", "door_src") ]
   /\ In rescue_row (rowsOf (sample_ambient "Mozilla/5.0") None (map VObj [rescue_fields])))
  /\ exists d, In d [rescue_fields]
       /\ match lookup "victim_src" d with
          | VStr path =>
              if String.eqb path EmptyString then lookup "victim_skin" rescue_row = VNull
              else exists name pre,
                     lookup "victim_skin" rescue_row = VStr name
                     /\ slash_free name /\ path = (pre ++ name)%string
                     /\ (pre = EmptyString \/ exists pre', pre = (pre' ++ "/")%string)
          | _ => lookup "victim_skin" rescue_row = VNull
          end.
Proof.
  assert (Hcol : In ("victim_skin", "victim_src")
                   [ ("victim_skin", "victim_src"); ("background_src", "background_src");
                     ("door_src", "door_src") ]) by (left; reflexivity).
  split; [ split; [ exact Hcol | exact rescue_row_emitted ] | ].
  exact (@asset_columns_hold_file_names toy_engine (sample_ambient "Mozilla/5.0") None
           [rescue_fields] rescue_row "victim_skin" "victim_src" Hcol rescue_row_emitted).
Defined.

(** The file names of the door trial of the examples. *)
Lemma rescue_row_assets :
  lookup "victim_skin" rescue_row = VStr "v1.png"
  /\ lookup "door_src" rescue_row = VStr "door.png"
  /\ lookup "background_src" rescue_row = VNull.
Proof. vm_compute. repeat split. Qed.

Lemma followed_is_computed_witness :
  In rescue_row (rowsOf (sample_ambient "Mozilla/5.0") None (map VObj [rescue_fields]))
  /\ exists d, In d [rescue_fields]
       /\ lookup "followed" rescue_row
          = (if negb (is_undefined (lookup "choice" d))
                && negb (is_undefined (lookup "suggestion" d))
             then VBool (String.eqb (ToString (lookup "choice" d))
                                    (ToString (lookup "suggestion" d)))
             else VNull)
       /\ (lookup "event_type" rescue_row = VStr "door_trial" ->
           lookup "response" rescue_row
           = VStr (JSON_stringify
                     (VObj [ ("followed",
                              if is_boolean (lookup "followed" d) then lookup "followed" d
                              else lookup "followed" rescue_row);
                             ("correct",
                              if is_boolean (lookup "correct" d) then lookup "correct" d
                              else VNull) ]))).
Proof.
  split; [ exact rescue_row_emitted | ].
  exact (@followed_is_computed toy_engine (sample_ambient "Mozilla/5.0") None
           [rescue_fields] rescue_row rescue_row_emitted).
Defined.

Lemma questionnaire_columns_witness :
  In rescue_row (rowsOf (sample_ambient "Mozilla/5.0") None [VObj rescue_fields])
  /\ (lookup "qa_pairs_json" rescue_row = VNull
      \/ exists s, lookup "qa_pairs_json" rescue_row = VStr s)
  /\ (lookup "questionnaire_score" rescue_row = VNull
      \/ is_number (lookup "questionnaire_score" rescue_row) = true)
  /\ (forall s, lookup "event_type" rescue_row = VStr s -> is_questionnaire_type s = false ->
        lookup "qa_pairs_json" rescue_row = VNull
        /\ lookup "questionnaire_score" rescue_row = VNull).
Proof.
  split; [ exact rescue_row_emitted | ].
  exact (@questionnaire_columns toy_engine (sample_ambient "Mozilla/5.0") None
           [VObj rescue_fields] rescue_row rescue_row_emitted).
Defined.

Lemma environment_columns_witness :
  In rescue_row (rowsOf (sample_ambient "Mozilla/5.0") None [VObj rescue_fields])
  /\ (exists dev, lookup "device_type" rescue_row = VStr dev
                  /\ In dev ["desktop"; "tablet"; "mobile"])
  /\ (exists name, lookup "browser_name" rescue_row = VStr name
        /\ In name ["Edge"; "Opera"; "Chrome"; "Firefox"; "Safari"; "Other"]
        /\ (lookup "browser_major" rescue_row = VNull <-> name = "Other")
        /\ (name <> "Other" -> exists n, lookup "browser_major" rescue_row = VNum n))
  /\ lookup "client_version" rescue_row = VStr "0.1.0"
  /\ lookup "ts_client" rescue_row = VStr (nowIso (sample_ambient "Mozilla/5.0"))
  /\ lookup "ts" rescue_row = VStr (nowIso (sample_ambient "Mozilla/5.0")).
Proof.
  split; [ exact rescue_row_emitted | ].
  exact (@environment_columns toy_engine (sample_ambient "Mozilla/5.0") None
           [VObj rescue_fields] rescue_row rescue_row_emitted).
Defined.

(** Three trials, the first of which leaves no row: the rows carry the
    numbers 2 and 3. *)
Lemma sequence_numbers_increase_witness :
  (DISCARD_DATA (delivery (fresh_session true)) = false
   /\ Forall (fun c => SESSION_ID (call_ambient c) = "s1")
        [trial overview_fields IoOk; trial rescue_fields IoOk; trial probe_fields IoFail]
   /\ - 2 ^ 53 <= nextSeq (fresh_session true)
   /\ nextSeq (fresh_session true) + Z.of_nat 3 <= 2 ^ 53)
  /\ let pg' := logTrials [trial overview_fields IoOk; trial rescue_fields IoOk;
                           trial probe_fields IoFail] (fresh_session true) in
     nextSeq pg' = nextSeq (fresh_session true) + Z.of_nat 3
     /\ exists rows seqs,
          buffer_or_empty (delivery pg')
          = buffer_or_empty (delivery (fresh_session true)) ++ rows
          /\ map (lookup "ts_seq") rows = map (fun n => VNum (num_of_Z n)) seqs
          /\ map (lookup "row_id") rows
             = map (fun n => VStr ("s1" ++ ":" ++ ToString (VNum (num_of_Z n)))) seqs
          /\ StronglySorted Z.lt seqs
          /\ Forall (fun n => nextSeq (fresh_session true) <= n
                              < nextSeq (fresh_session true) + Z.of_nat 3) seqs.
Proof.
  assert (Hsid : Forall (fun c => SESSION_ID (call_ambient c) = "s1")
                   [trial overview_fields IoOk; trial rescue_fields IoOk;
                    trial probe_fields IoFail]) by (repeat constructor).
  assert (Hlow : - 2 ^ 53 <= nextSeq (fresh_session true)) by (vm_compute; discriminate).
  assert (Hhigh : nextSeq (fresh_session true) + Z.of_nat 3 <= 2 ^ 53)
    by (vm_compute; discriminate).
  split; [ repeat split; trivial | ].
  exact (@sequence_numbers_increase toy_engine "s1"
           [trial overview_fields IoOk; trial rescue_fields IoOk; trial probe_fields IoFail]
           (fresh_session true) eq_refl Hsid Hlow Hhigh).
Defined.

(** Three rows of 25000 bytes do not fit together: the beacon carries the
    first of them. *)
Lemma beacon_fits_the_cap_witness :
  flushSyncBeacon bytes 2 true (page_with_mirror rows3)
  = Some (send (Beacon (firstn 1 rows3)) (page_with_mirror rows3))
  /\ (send (Beacon (firstn 1 rows3)) (page_with_mirror rows3) = page_with_mirror rows3
      \/ (true = true
          /\ exists k,
               (1 <= k <= List.length
                           (skipn (List.length (buffer_or_empty (page_with_mirror rows3)) - 25)
                              (buffer_or_empty (page_with_mirror rows3))))%nat
               /\ send (Beacon (firstn 1 rows3)) (page_with_mirror rows3)
                  = send (Beacon
                            (firstn k
                               (skipn (List.length (buffer_or_empty (page_with_mirror rows3)) - 25)
                                  (buffer_or_empty (page_with_mirror rows3)))))
                      (page_with_mirror rows3)
               /\ blobSize bytes
                    (firstn k
                       (skipn (List.length (buffer_or_empty (page_with_mirror rows3)) - 25)
                          (buffer_or_empty (page_with_mirror rows3))))
                  <= maxBytes)).
Proof.
  assert (H : flushSyncBeacon bytes 2 true (page_with_mirror rows3)
              = Some (send (Beacon (firstn 1 rows3)) (page_with_mirror rows3)))
    by (vm_compute; reflexivity).
  split; [ exact H | ].
  exact (beacon_fits_the_cap bytes 2 true (page_with_mirror rows3) _ H).
Defined.

Lemma flushSyncBeacon_returns_iff_witness :
  (forall r : string, 0 <= text_length r)
  /\ ((exists fuel st',
         flushSyncBeacon text_length fuel true
           (set_buffer (Some ["{a}"; "{b}"]) (fresh_page true)) = Some st')
      <-> (buffer_or_empty (set_buffer (Some ["{a}"; "{b}"]) (fresh_page true)) = []
           \/ blobSize text_length
                (js_slice (buffer_or_empty (set_buffer (Some ["{a}"; "{b}"]) (fresh_page true)))
                   (Z.max 0 (Z.of_nat (List.length
                      (buffer_or_empty (set_buffer (Some ["{a}"; "{b}"]) (fresh_page true))))
                      - LOG_BATCH_SIZE))
                   (Z.max 0 (Z.of_nat (List.length
                      (buffer_or_empty (set_buffer (Some ["{a}"; "{b}"]) (fresh_page true))))
                      - LOG_BATCH_SIZE) + 1))
              <= maxBytes)).
Proof.
  assert (Hpos : forall r : string, 0 <= text_length r) by (intros r; unfold text_length; lia).
  split; [ exact Hpos | ].
  exact (flushSyncBeacon_returns_iff text_length true
           (set_buffer (Some ["{a}"; "{b}"]) (fresh_page true)) Hpos).
Defined.

Lemma beacon_carries_the_recent_rows_witness :
  (buffer_or_empty (page_with_mirror [rowA; rowB]) <> []
   /\ blobSize bytes
        (skipn (List.length (buffer_or_empty (page_with_mirror [rowA; rowB])) - 25)
           (buffer_or_empty (page_with_mirror [rowA; rowB]))) <= maxBytes)
  /\ flushSyncBeacon bytes 1 true (page_with_mirror [rowA; rowB])
     = Some (send (Beacon
                     (skipn (List.length (buffer_or_empty (page_with_mirror [rowA; rowB])) - 25)
                        (buffer_or_empty (page_with_mirror [rowA; rowB]))))
               (page_with_mirror [rowA; rowB])).
Proof.
  assert (Hne : buffer_or_empty (page_with_mirror [rowA; rowB]) <> []) by discriminate.
  assert (Hfit : blobSize bytes
                   (skipn (List.length (buffer_or_empty (page_with_mirror [rowA; rowB])) - 25)
                      (buffer_or_empty (page_with_mirror [rowA; rowB]))) <= maxBytes)
    by (vm_compute; discriminate).
  split; [ split; [ exact Hne | exact Hfit ] | ].
  exact (beacon_carries_the_recent_rows bytes 0 (page_with_mirror [rowA; rowB]) Hne Hfit).
Defined.


(** The rows of that run, and the rows lost when the enqueue overtakes the
    drain. *)
Lemma quiet_and_overtaken_runs :
  buffer_or_empty (page (after_turns quiet_turns true)) = [rowA; rowB]
  /\ queue_rows (store (page (after_turns quiet_turns true))) = [rowA; rowB]
  /\ buffer_or_empty (page (after_turns (overtaken [rowA] 0) true)) = []
  /\ queue_rows (store (page (after_turns (overtaken [rowA] 0) true))) = [rowA]
  /\ sequential bytes (overtaken [rowA] 0) (boot true) = false.
Proof. vm_compute. repeat split. Qed.

Lemma swallowed_write_failure_loses_rows_witness :
  (idb_available (store (@fresh_page SampleRow true)) = true
   /\ queue_rows (store (@fresh_page SampleRow true)) = []
   /\ DISCARD_DATA (@fresh_page SampleRow true) = false
   /\ LOG_FLUSHING (@fresh_page SampleRow true) = false
   /\ LOG_BACKOFF_TIMER (@fresh_page SampleRow true) = None
   /\ timers (@fresh_page SampleRow true) = []
   /\ [acks] <> [] /\ Forall calm [acks])
  /\ exists st1 h st2,
       logEnqueue (RowArray [rowA]) 0 IoFail (fresh_page true) = Resolved st1
       /\ LOG_BUFFER st1 = Some (buffer_or_empty (fresh_page true) ++ [rowA])
       /\ queue_rows (store st1) = []
       /\ LOG_BACKOFF_TIMER st1 = Some h /\ timers st1 = [(h, 250)]
       /\ timerFires LOG_BATCH_SIZE h [acks] st1 = Resolved st2
       /\ LOG_BUFFER st2 = Some []
       /\ queue_rows (store st2) = []
       /\ network st2 = network (@fresh_page SampleRow true)
       /\ timers st2 = [] /\ LOG_BACKOFF_TIMER st2 = None.
Proof.
  assert (Hne : [acks] <> []) by discriminate.
  assert (Hcalm : Forall calm [acks]) by (repeat constructor).
  split; [ repeat split; trivial | ].
  exact (@swallowed_write_failure_loses_rows SampleRow [rowA] 0 [acks] (fresh_page true)
           eq_refl eq_refl eq_refl eq_refl eq_refl eq_refl Hne Hcalm).
Defined.

Lemma read_failure_ends_the_drain_witness :
  (read_io read_fails = IoFail /\ withdrawn_in_read read_fails = false
   /\ DISCARD_DATA (queued true [rowA]) = false /\ LOG_FLUSHING (queued true [rowA]) = false)
  /\ let p := flushQueue [read_fails] (queued true [rowA]) in
     network (promised p) = network (queued true [rowA])
     /\ store (promised p) = store (queued true [rowA])
     /\ timers (promised p) = timers (queued true [rowA])
     /\ LOG_FLUSHING (promised p) = false
     /\ (if idb_available (store (queued true [rowA]))
         then p = Resolved (promised p)
              /\ LOG_BUFFER (promised p) = Some [] /\ LOG_RETRY_ATTEMPTS (promised p) = 0
         else p = Rejected (promised p)
              /\ LOG_BUFFER (promised p) = LOG_BUFFER (queued true [rowA])
              /\ LOG_RETRY_ATTEMPTS (promised p) = LOG_RETRY_ATTEMPTS (queued true [rowA])).
Proof.
  split; [ repeat split | ].
  exact (@read_failure_ends_the_drain SampleRow read_fails [] (queued true [rowA])
           eq_refl eq_refl eq_refl eq_refl).
Defined.

Lemma delete_twice_witness :
  idbDeleteIds (ls_entries 0 [rowA]) IoOk (store (queued false [rowA; rowB; rowC]))
  = Normal (with_ls [rowB; rowC] (store (queued false [rowA; rowB; rowC])))
  /\ exists s2,
       idbDeleteIds (ls_entries 0 [rowA]) IoOk
         (with_ls [rowB; rowC] (store (queued false [rowA; rowB; rowC]))) = Normal s2
       /\ queue_rows (with_ls [rowB; rowC] (store (queued false [rowA; rowB; rowC])))
          = skipn (List.length (ls_entries 0 [rowA]))
              (queue_rows (store (queued false [rowA; rowB; rowC])))
       /\ queue_rows s2
          = skipn (2 * List.length (ls_entries 0 [rowA]))
              (queue_rows (store (queued false [rowA; rowB; rowC]))).
Proof.
  assert (H : idbDeleteIds (ls_entries 0 [rowA]) IoOk (store (queued false [rowA; rowB; rowC]))
              = Normal (with_ls [rowB; rowC] (store (queued false [rowA; rowB; rowC]))))
    by reflexivity.
  split; [ exact H | ].
  exact (@delete_twice SampleRow (ls_entries 0 [rowA]) (store (queued false [rowA; rowB; rowC]))
           _ H).
Defined.

Lemma backoff_bounds_witness :
  1 <= 3
  /\ 1000 <= backoffMs 3 <= 30000
  /\ backoffMs 3 <= backoffMs (3 + 1)
  /\ (3 <= 4 -> backoffMs (3 + 1) = 2 * backoffMs 3)
  /\ (6 <= 3 -> backoffMs 3 = 30000).
Proof.
  assert (H : 1 <= 3) by lia.
  split; [ exact H | exact (backoff_bounds 3 H) ].
Defined.

(** Two failed drains, then one whose send is acknowledged. *)
Lemma delivered_after_failures_witness :
  (Forall fails_at_once [[fails]; [fails]]
   /\ Forall calm [acks; acks]
   /\ Forall (fun e => acked (fetch_outcome e) = true) [acks; acks]
   /\ (List.length (queue_rows (store (queued true [rowA]))) < List.length [acks; acks])%nat
   /\ queue_rows (store (queued true [rowA])) <> []
   /\ store_wf (store (queued true [rowA]))
   /\ DISCARD_DATA (queued true [rowA]) = false
   /\ LOG_FLUSHING (queued true [rowA]) = false
   /\ LOG_BACKOFF_TIMER (queued true [rowA]) = Some 1%positive
   /\ timers (queued true [rowA]) = [(1%positive, 250)])
  /\ exists st',
       fireAll LOG_BATCH_SIZE ([[fails]; [fails]] ++ [[acks; acks]]) (queued true [rowA])
       = Some st'
       /\ queue_rows (store st') = []
       /\ acked_rows (network st')
          = acked_rows (network (queued true [rowA])) ++ queue_rows (store (queued true [rowA]))
       /\ LOG_RETRY_ATTEMPTS st' = 0
       /\ timers st' = [] /\ LOG_BACKOFF_TIMER st' = None.
Proof.
  assert (Hfails : Forall fails_at_once [[fails]; [fails]]) by (repeat constructor).
  assert (Hcalm : Forall calm [acks; acks]) by (repeat constructor).
  assert (Hacks : Forall (fun e => acked (fetch_outcome e) = true) [acks; acks])
    by (repeat constructor).
  assert (Hlen : (List.length (queue_rows (store (queued true [rowA])))
                  < List.length [acks; acks])%nat) by (cbn; lia).
  assert (Hq : queue_rows (store (queued true [rowA])) <> []) by (cbn; discriminate).
  assert (Hwf : store_wf (store (queued true [rowA]))) by (split; cbn; repeat constructor).
  split; [ repeat split; trivial; apply Hwf | ].
  exact (@delivered_after_failures SampleRow [[fails]; [fails]] [acks; acks]
           (queued true [rowA]) 1%positive 250
           Hfails Hcalm Hacks Hlen Hq Hwf eq_refl eq_refl eq_refl eq_refl).
Defined.

(** In the middle of a drain, with an enqueue in flight as well. *)
Lemma reachable_page_invariants_witness :
  live_reachable bytes (after_turns busy_turns true)
  /\ (inflight (after_turns busy_turns true) = [TRead; TPut [rowB]]
      /\ LOG_FLUSHING (page (after_turns busy_turns true)) = true)
  /\ store_wf (store (page (after_turns busy_turns true)))
  /\ 0 <= LOG_RETRY_ATTEMPTS (page (after_turns busy_turns true))
  /\ (drains_in_flight (after_turns busy_turns true) <= 1)%nat
  /\ (LOG_FLUSHING (page (after_turns busy_turns true)) = true
      <-> drains_in_flight (after_turns busy_turns true) = 1%nat)
  /\ (LOG_FLUSHING (page (after_turns busy_turns true)) = false
      <-> drains_in_flight (after_turns busy_turns true) = 0%nat).
Proof.
  assert (Hreach : live_reachable bytes (after_turns busy_turns true))
    by (exists true, busy_turns; reflexivity).
  split; [ exact Hreach | ]. split; [ split; reflexivity | ].
  exact (reachable_page_invariants bytes (after_turns busy_turns true) Hreach).
Defined.
